(** * Super-veille vols: a shallow embedding of [super_veille_flights.py]

    The development follows the source file top to bottom: a small fragment
    of the Python runtime the script relies on (exceptions, JSON values,
    [str] methods, [int()], [float()], [round()], [datetime.date]), then
    the utilities, the Amadeus client, the offer evaluator and the alert
    logic of [run_once].

    Conventions.
    - Python [int] is [Z]; Python [float] is IEEE binary64, modelled by
      [spec_float] at precision 53 and [emax] 1024, with the rounding
      operations of [SpecFloat].
    - Python [str] is [string]; the model covers ASCII text.
    - A Python exception is a value [Raise e] of the type [res].
    - The methods [search_offers] and [_safe_get] of the client are read
      with the block structure their statements show, whatever the mix of
      tabs and spaces in front of them. *)

From Stdlib Require Import ZArith List String Ascii Bool Lia Sorted Permutation.
From Stdlib Require Import Floats.SpecFloat.
Import ListNotations.

Local Open Scope string_scope.
Local Open Scope list_scope.
Local Open Scope Z_scope.

(** ** Exceptions and results *)

Module Py.

Inductive exn : Type :=
| ValueError
| TypeError
| AttributeError
| OverflowError
| HTTPError (status : Z).

Inductive res (A : Type) : Type :=
| Ok (a : A)
| Raise (e : exn).

Arguments Ok {A} a.
Arguments Raise {A} e.

Definition bind {A B : Type} (m : res A) (k : A -> res B) : res B :=
  match m with
  | Ok a => k a
  | Raise e => Raise e
  end.

(** [for x in l: acc = body(acc, x)], where the body may raise. *)
Fixpoint for_each {A S : Type} (body : S -> A -> res S) (l : list A) (acc : S)
  : res S :=
  match l with
  | [] => Ok acc
  | x :: l' => bind (body acc x) (for_each body l')
  end.

End Py.

Import Py.

Declare Scope py_scope.
Delimit Scope py_scope with py.
Notation "x <- m ;; k" := (Py.bind m (fun x => k))
  (at level 100, m at next level, right associativity) : py_scope.
Notation "' p <- m ;; k" := (Py.bind m (fun p => k))
  (at level 100, p pattern, m at next level, right associativity) : py_scope.
Local Open Scope py_scope.

(** ** [str] methods

    The methods of [str] the script calls, on ASCII text. *)

Module Str.

Definition is_space (c : ascii) : bool :=
  let n := N_of_ascii c in
  ((9 <=? n) && (n <=? 13) || (n =? 32))%N.

Definition is_digit (c : ascii) : bool :=
  let n := N_of_ascii c in ((48 <=? n) && (n <=? 57))%N.

Definition is_upper (c : ascii) : bool :=
  let n := N_of_ascii c in ((65 <=? n) && (n <=? 90))%N.

Definition lower_char (c : ascii) : ascii :=
  if is_upper c then ascii_of_N (N_of_ascii c + 32) else c.

(** [s.lower()] *)
Fixpoint lower (s : string) : string :=
  match s with
  | EmptyString => EmptyString
  | String c r => String (lower_char c) (lower r)
  end.

(** [s.startswith(p)] *)
Definition startswith (s p : string) : bool := String.prefix p s.

(** [sub in s] *)
Fixpoint contains (sub s : string) : bool :=
  String.prefix sub s
  || match s with
     | EmptyString => false
     | String _ r => contains sub r
     end.

(** [s.replace(old, new)] for a non-empty [old]: occurrences are taken
    left to right and do not overlap. [skip] counts the characters of an
    occurrence still to be passed over. *)
Fixpoint replace_from (old new : string) (skip : nat) (s : string) : string :=
  match s with
  | EmptyString => EmptyString
  | String c r =>
      match skip with
      | S k => replace_from old new k r
      | O =>
          if String.prefix old s
          then new ++ replace_from old new (Nat.pred (String.length old)) r
          else String c (replace_from old new O r)
      end
  end.

Definition replace (s old new : string) : string := replace_from old new O s.

(** [s.split(sep)] for a non-empty [sep]; [cur] is the piece being read. *)
Fixpoint split_from (sep : string) (skip : nat) (cur s : string) : list string :=
  match s with
  | EmptyString => [cur]
  | String c r =>
      match skip with
      | S k => split_from sep k cur r
      | O =>
          if String.prefix sep s
          then cur :: split_from sep (Nat.pred (String.length sep)) EmptyString r
          else split_from sep O (cur ++ String c EmptyString) r
      end
  end.

Definition split (s sep : string) : list string := split_from sep O EmptyString s.

(** Leading and trailing whitespace as [int()] and [float()] skip it. *)
Fixpoint lstrip (s : string) : string :=
  match s with
  | EmptyString => EmptyString
  | String c r => if is_space c then lstrip r else s
  end.

Fixpoint rstrip (s : string) : string :=
  match s with
  | EmptyString => EmptyString
  | String c r =>
      match rstrip r with
      | EmptyString => if is_space c then EmptyString else String c EmptyString
      | r' => String c r'
      end
  end.

Definition strip (s : string) : string := rstrip (lstrip s).

(** The longest prefix of decimal digits, and what follows it. *)
Fixpoint span_digits (s : string) : string * string :=
  match s with
  | EmptyString => (EmptyString, EmptyString)
  | String c r =>
      if is_digit c
      then let '(d, t) := span_digits r in (String c d, t)
      else (EmptyString, s)
  end.

Definition digit_value (c : ascii) : Z := Z.of_N (N_of_ascii c) - 48.

(** The number a string of decimal digits denotes. *)
Fixpoint digits_value_from (acc : Z) (s : string) : Z :=
  match s with
  | EmptyString => acc
  | String c r => digits_value_from (10 * acc + digit_value c) r
  end.

Definition digits_value (s : string) : Z := digits_value_from 0 s.

(** Numeric literals may group digits with single underscores: every
    underscore stands between two digits. The result is the literal with
    the underscores taken out. *)
Fixpoint drop_underscores (prev : ascii) (s : string) : option string :=
  match s with
  | EmptyString => if Ascii.eqb prev "_" then None else Some EmptyString
  | String c r =>
      if Ascii.eqb c "_" then
        if is_digit prev then drop_underscores c r else None
      else if Ascii.eqb prev "_" && negb (is_digit c) then None
      else option_map (String c) (drop_underscores c r)
  end.

(** An optional sign: [true] for a minus. *)
Definition take_sign (s : string) : bool * string :=
  match s with
  | String "-" r => (true, r)
  | String "+" r => (false, r)
  | _ => (false, s)
  end.

(** [",".join(l)] and the like *)
Fixpoint join (sep : string) (l : list string) : string :=
  match l with
  | [] => EmptyString
  | [x] => x
  | x :: l' => x ++ sep ++ join sep l'
  end.

End Str.

(** ** [int] and [float]

    Binary64 arithmetic rounds to nearest, ties to even. *)

Module Num.

Definition float : Type := spec_float.

Definition prec : Z := 53.
Definition emax : Z := 1024.

(** The binary64 number nearest to [n / d], with sign [s]. *)
Definition of_ratio (s : bool) (n d : positive) : float :=
  let '(q, e, l) := SFdiv_core_binary prec emax (Zpos n) 0 (Zpos d) 0 in
  binary_round_aux prec emax s q e l.

(** The binary64 number nearest to an integer. *)
Definition of_Z (z : Z) : float :=
  match z with
  | Z0 => S754_zero false
  | Zpos n => of_ratio false n 1
  | Zneg n => of_ratio true n 1
  end.

(** The binary64 number nearest to [m * 10 ^ e], with sign [s]. *)
Definition of_decimal (s : bool) (m e : Z) : float :=
  match m with
  | Zpos p =>
      match e with
      | Zneg k => of_ratio s p (10 ^ k)
      | _ => of_ratio s (p * Z.to_pos (10 ^ e)) 1
      end
  | _ => S754_zero s
  end.

Definition add : float -> float -> float := SFadd prec emax.
Definition div : float -> float -> float := SFdiv prec emax.
Definition ltb : float -> float -> bool := SFltb.
Definition leb : float -> float -> bool := SFleb.

Definition is_finite (x : float) : bool :=
  match x with
  | S754_zero _ | S754_finite _ _ _ => true
  | _ => false
  end.

(** [int] refuses a decimal literal of more digits than this, the default
    of [sys.set_int_max_str_digits]. *)
Definition MAX_STR_DIGITS : nat := 4300.

(** [int(s)] for a string, base 10 *)
Definition int_of_str (s : string) : res Z :=
  let '(neg, body) := Str.take_sign (Str.strip s) in
  match Str.drop_underscores Ascii.zero body with
  | Some (String c r as ds) =>
      let '(d, t) := Str.span_digits ds in
      match t with
      | EmptyString =>
          if Nat.ltb MAX_STR_DIGITS (String.length d) then Raise ValueError
          else Ok (if neg then - Str.digits_value d else Str.digits_value d)
      | _ => Raise ValueError
      end
  | _ => Raise ValueError
  end.

(** The exponent part of a float literal: absent, or [e], an optional sign
    and at least one digit. *)
Definition exponent (s : string) : option Z :=
  match s with
  | EmptyString => Some 0
  | String c r =>
      if Ascii.eqb (Str.lower_char c) "e" then
        let '(neg, body) := Str.take_sign r in
        match Str.span_digits body with
        | (String _ _ as d, EmptyString) =>
            Some (if neg then - Str.digits_value d else Str.digits_value d)
        | _ => None
        end
      else None
  end.

(** [float(s)] for a string *)
Definition float_of_str (s : string) : res float :=
  match Str.drop_underscores Ascii.zero (Str.strip s) with
  | None => Raise ValueError
  | Some lit =>
      let '(neg, body) := Str.take_sign lit in
      let word := Str.lower body in
      if String.eqb word "inf" || String.eqb word "infinity"
      then Ok (S754_infinity neg)
      else if String.eqb word "nan" then Ok S754_nan
      else
        let '(ip, r1) := Str.span_digits body in
        let '(fp, r2) :=
          match r1 with
          | String "." r => Str.span_digits r
          | _ => (EmptyString, r1)
          end in
        match (ip ++ fp)%string, exponent r2 with
        | String _ _ as ds, Some ex =>
            Ok (of_decimal neg (Str.digits_value ds)
                           (ex - Z.of_nat (String.length fp)))
        | _, _ => Raise ValueError
        end
  end.

(** [round(x, ndigits)] for a float and [ndigits >= 0]: the decimal with
    [ndigits] places nearest to the exact value of [x], ties to even, read
    back as a float. *)
Definition round_half_even (n d : Z) : Z :=
  let q := n / d in
  let r := n mod d in
  match 2 * r ?= d with
  | Lt => q
  | Gt => q + 1
  | Eq => if Z.even q then q else q + 1
  end.

Definition round (x : float) (ndigits : Z) : float :=
  match x with
  | S754_finite s m e =>
      let scaled :=
        match e with
        | Zneg k => round_half_even (Zpos m * 10 ^ ndigits) (2 ^ Zpos k)
        | _ => Zpos m * 2 ^ e * 10 ^ ndigits
        end in
      of_decimal s scaled (- ndigits)
  | _ => x
  end.

End Num.

(** ** JSON values

    What [Response.json()] hands to the script: [None], booleans, numbers,
    strings, lists and dictionaries with string keys. A dictionary is kept
    as its list of items; the first binding of a key is the one in force. *)

Module Value.

#[local] Set Warnings "-register-all".

Inductive value : Type :=
| VNone
| VBool (b : bool)
| VInt (z : Z)
| VFloat (f : Num.float)
| VStr (s : string)
| VList (l : list value)
| VDict (d : list (string * value)).

Fixpoint lookup (k : string) (d : list (string * value)) : option value :=
  match d with
  | [] => None
  | (k', v) :: d' => if String.eqb k k' then Some v else lookup k d'
  end.

Fixpoint keys_from (seen : list string) (d : list (string * value)) : list string :=
  match d with
  | [] => []
  | (k, _) :: d' =>
      if existsb (String.eqb k) seen then keys_from seen d'
      else k :: keys_from (k :: seen) d'
  end.

Definition keys (d : list (string * value)) : list string := keys_from [] d.

(** [o.get(k, default)]: only a dictionary has the method. *)
Definition get (o : value) (k : string) (default : value) : res value :=
  match o with
  | VDict d => Ok (match lookup k d with Some v => v | None => default end)
  | _ => Raise AttributeError
  end.

(** Truth value of an object, as [if], [not] and [or] test it. *)
Definition truthy (v : value) : bool :=
  match v with
  | VNone => false
  | VBool b => b
  | VInt z => negb (z =? 0)
  | VFloat (S754_zero _) => false
  | VFloat _ => true
  | VStr s => negb (String.eqb s "")
  | VList l => match l with [] => false | _ => true end
  | VDict d => match d with [] => false | _ => true end
  end.

Fixpoint chars (s : string) : list value :=
  match s with
  | EmptyString => []
  | String c r => VStr (String c EmptyString) :: chars r
  end.

(** The items a [for] loop over the object visits. *)
Definition iter (v : value) : res (list value) :=
  match v with
  | VList l => Ok l
  | VStr s => Ok (chars s)
  | VDict d => Ok (map VStr (keys d))
  | _ => Raise TypeError
  end.

(** [len(v)] *)
Definition len (v : value) : res Z :=
  match v with
  | VList l => Ok (Z.of_nat (List.length l))
  | VStr s => Ok (Z.of_nat (String.length s))
  | VDict d => Ok (Z.of_nat (List.length (keys d)))
  | _ => Raise TypeError
  end.

(** [float(v)] *)
Definition to_float (v : value) : res Num.float :=
  match v with
  | VFloat f => Ok f
  | VInt z =>
      let f := Num.of_Z z in
      if Num.is_finite f then Ok f else Raise OverflowError
  | VBool b => Ok (Num.of_Z (if b then 1 else 0))
  | VStr s => Num.float_of_str s
  | _ => Raise TypeError
  end.

(** [v > 0] *)
Definition gt_zero (v : value) : res bool :=
  match v with
  | VInt z => Ok (0 <? z)
  | VBool b => Ok b
  | VFloat f => Ok (Num.ltb (S754_zero false) f)
  | _ => Raise TypeError
  end.

(** [hash(v)] succeeds on everything but lists and dictionaries. *)
Definition hashable (v : value) : bool :=
  match v with
  | VList _ | VDict _ => false
  | _ => true
  end.

(** [v in codes] for a set of strings *)
Definition in_str_set (v : value) (codes : list string) : res bool :=
  if hashable v then
    Ok (match v with
        | VStr s => existsb (String.eqb s) codes
        | _ => false
        end)
  else Raise TypeError.

End Value.

Import Value.

(** ** [datetime.date]

    The proleptic Gregorian ordinal arithmetic of the [datetime] module:
    [date + timedelta(days=n)] goes through [toordinal] and [fromordinal]. *)

Module Date.

Record date : Type := mkdate { year : Z; month : Z; day : Z }.

Definition _is_leap (y : Z) : bool :=
  (y mod 4 =? 0) && (negb (y mod 100 =? 0) || (y mod 400 =? 0)).

Definition _DAYS_IN_MONTH : list Z :=
  [-1; 31; 28; 31; 30; 31; 30; 31; 31; 30; 31; 30; 31].

Definition _DAYS_BEFORE_MONTH : list Z :=
  [-1; 0; 31; 59; 90; 120; 151; 181; 212; 243; 273; 304; 334].

Definition tbl (t : list Z) (i : Z) : Z := nth (Z.to_nat i) t 0.

Definition _days_before_year (y : Z) : Z :=
  let y := y - 1 in
  y * 365 + y / 4 - y / 100 + y / 400.

Definition _days_before_month (y m : Z) : Z :=
  tbl _DAYS_BEFORE_MONTH m + (if (m >? 2) && _is_leap y then 1 else 0).

Definition _ymd2ord (y m d : Z) : Z :=
  _days_before_year y + _days_before_month y m + d.

Definition _DI400Y : Z := 146097.
Definition _DI100Y : Z := 36524.
Definition _DI4Y : Z := 1461.
Definition _MAXORDINAL : Z := 3652059.

Definition _ord2ymd (n : Z) : date :=
  let n := n - 1 in
  let n400 := n / _DI400Y in
  let n := n mod _DI400Y in
  let year := n400 * 400 + 1 in
  let n100 := n / _DI100Y in
  let n := n mod _DI100Y in
  let n4 := n / _DI4Y in
  let n := n mod _DI4Y in
  let n1 := n / 365 in
  let n := n mod 365 in
  let year := year + n100 * 100 + n4 * 4 + n1 in
  if (n1 =? 4) || (n100 =? 4) then mkdate (year - 1) 12 31
  else
    let leapyear := (n1 =? 3) && (negb (n4 =? 24) || (n100 =? 3)) in
    let month := Z.shiftr (n + 50) 5 in
    let preceding :=
      tbl _DAYS_BEFORE_MONTH month
      + (if (month >? 2) && leapyear then 1 else 0) in
    if preceding >? n then
      let month := month - 1 in
      let preceding :=
        preceding
        - (tbl _DAYS_IN_MONTH month
           + (if (month =? 2) && leapyear then 1 else 0)) in
      mkdate year month (n - preceding + 1)
    else mkdate year month (n - preceding + 1).

Definition toordinal (d : date) : Z := _ymd2ord (year d) (month d) (day d).

Definition fromordinal (n : Z) : date := _ord2ymd n.

(** [d + timedelta(days=n)]; [relativedelta(days=+n)] added to a date
    reduces to the same sum. *)
Definition add_days (d : date) (n : Z) : res date :=
  let o := toordinal d + n in
  if (0 <? o) && (o <=? _MAXORDINAL) then Ok (fromordinal o)
  else Raise OverflowError.

(** [(end - start).days] *)
Definition days_between (start stop : date) : Z :=
  toordinal stop - toordinal start.

(** Dates compare as the tuples (year, month, day). *)
Definition cmp (a b : date) : comparison :=
  match year a ?= year b with
  | Eq => match month a ?= month b with
          | Eq => day a ?= day b
          | c => c
          end
  | c => c
  end.

Definition leb (a b : date) : bool :=
  match cmp a b with Gt => false | _ => true end.

(** [width] decimal digits of [z], zero padded *)
Fixpoint zero_padded (width : nat) (z : Z) : string :=
  match width with
  | O => EmptyString
  | S w =>
      zero_padded w (z / 10)
      ++ String (ascii_of_N (Z.to_N (48 + z mod 10))) EmptyString
  end.

(** [d.isoformat()] *)
Definition isoformat (d : date) : string :=
  zero_padded 4 (year d) ++ "-" ++ zero_padded 2 (month d)
  ++ "-" ++ zero_padded 2 (day d).

End Date.

Import Date.

(** ** Parameters and utilities of the script *)

Definition DEPART_WINDOW_START : date := mkdate 2026 1 1.
Definition DEPART_WINDOW_END : date := mkdate 2026 1 15.

(** [range(n)] *)
Definition range (n : Z) : list Z := map Z.of_nat (seq 0 (Z.to_nat n)).

(** The generator [daterange]: the dates it yields in turn, each one the
    result of a sum that may overflow. *)
Definition daterange (start stop : date) : list (res date) :=
  map (add_days start) (range (days_between start stop + 1)).

Definition generate_paris_osaka_exact90_pairs : res (list (date * date)) :=
  for_each
    (fun pairs next =>
       d0 <- next ;;
       d1 <- add_days d0 90 ;;
       if Date.leb (mkdate 2026 4 1) d1 && Date.leb d1 (mkdate 2026 4 15)
       then Ok (pairs ++ [(d0, d1)])
       else Ok pairs)
    (daterange DEPART_WINDOW_START DEPART_WINDOW_END) [].

(** [exceptional_itinerary] *)
Definition exceptional_itinerary
  (duration_hours : Num.float) (layovers : list Num.float) (premium : bool)
  : bool :=
  let short_layover :=
    existsb (fun l => Num.leb (Num.of_decimal false 75 (-2)) l
                      && Num.leb l (Num.of_decimal false 25 (-1)))
            layovers in
  (Num.leb (Num.of_Z 15) duration_hours && Num.leb duration_hours (Num.of_Z 18))
  || short_layover || premium.

(** ** The offer evaluator *)

Definition MAX_STOPS : Z := 1.
Definition MAX_DURATION_HOURS : Z := 25.
Definition BAGGAGE_REQUIRED : bool := true.

Definition zero : Num.float := S754_zero false.

(** The assignments to [h] and [m], from [iso] without its prefix and in
    lower case. *)
Definition duration_components (iso : string) : res (Num.float * Num.float) :=
  if Str.contains "h" iso then
    let parts := Str.split iso "h" in
    let p0 := nth 0 parts "" in
    h <- (if String.eqb p0 "" then Ok zero else Num.float_of_str p0) ;;
    let tail :=
      if 1 <? Z.of_nat (List.length parts) then nth 1 parts "" else "" in
    if Str.contains "m" tail then
      let t0 := nth 0 (Str.split tail "m") "" in
      m <- (if String.eqb t0 "" then to_float (VInt 0)
            else Num.float_of_str t0) ;;
      Ok (h, m)
    else Ok (h, zero)
  else if Str.contains "m" iso then
    let r := Str.replace iso "m" "" in
    m <- (if String.eqb r "" then to_float (VInt 0)
          else Num.float_of_str r) ;;
    Ok (zero, m)
  else Ok (zero, zero).

(** [parse_duration_hours], once [iso] is known to be a string *)
Definition parse_duration_str (iso : string) : res Num.float :=
  if String.eqb iso "" || negb (Str.startswith iso "PT") then Ok zero
  else
    let iso := Str.lower (Str.replace iso "PT" "") in
    '(h, m) <- duration_components iso ;;
    Ok (Num.add h (Num.div m (Num.of_Z 60))).

(** [parse_duration_hours] on whatever the offer holds under ["duration"] *)
Definition parse_duration_hours (iso : value) : res Num.float :=
  if negb (truthy iso) then Ok zero
  else match iso with
       | VStr s => parse_duration_str s
       | _ => Raise AttributeError
       end.

Record Metrics : Type := mkmetrics {
  total_hours : Num.float;
  stops : Z;
  bag_included : bool;
  premium : bool;
  layovers : list Num.float
}.

(** The dictionary [metrics] as the evaluator first builds it. *)
Definition default_metrics : Metrics := mkmetrics zero 0 false false [].

Definition PREMIUM_CODES : list string :=
  ["AF"; "KL"; "AY"; "NH"; "JL"; "QR"; "SQ"; "CX"; "LH"; "LX"].

(** The placeholder layover of an itinerary with a connection: 1.5 hours *)
Definition LAYOVER : Num.float := Num.of_decimal false 15 (-1).

(** One turn of [for itin in its]. *)
Definition itinerary_step (acc : Num.float * Z * list Num.float) (itin : value)
  : res (Num.float * Z * list Num.float) :=
  let '(total_h, max_stops, layovers) := acc in
  segs <- get itin "segments" (VList []) ;;
  n <- len segs ;;
  let max_stops := Z.max max_stops (Z.max 0 (n - 1)) in
  dur <- get itin "duration" (VStr "PT0H") ;;
  h <- parse_duration_hours dur ;;
  let total_h := Num.add total_h h in
  n <- len segs ;;
  Ok (total_h, max_stops, if 1 <? n then layovers ++ [LAYOVER] else layovers).

(** One turn of [for f in tp.get("fareDetailsBySegment", [])]. *)
Definition fare_step (bag_included : bool) (f : value) : res bool :=
  inc <- get f "includedCheckedBags" VNone ;;
  match inc with
  | VDict _ =>
      q <- get inc "quantity" VNone ;;
      b <- gt_zero (if truthy q then q else VInt 0) ;;
      Ok (if b then true else bag_included)
  | _ => Ok bag_included
  end.

(** One turn of [for tp in offer.get("travelerPricings", [])]. *)
Definition traveler_step (bag_included : bool) (tp : value) : res bool :=
  fds <- get tp "fareDetailsBySegment" (VList []) ;;
  fs <- iter fds ;;
  for_each fare_step fs bag_included.

(** [any(code in {...} for code in codes)]: stops at the first hit. *)
Fixpoint any_premium (codes : list value) : res bool :=
  match codes with
  | [] => Ok false
  | code :: rest =>
      b <- in_str_set code PREMIUM_CODES ;;
      if b then Ok true else any_premium rest
  end.

(** The body of the [try] up to [metrics.update]: the five measures. *)
Definition measure (offer : value) : res Metrics :=
  its <- get offer "itineraries" (VList []) ;;
  itins <- iter its ;;
  '(total_h, max_stops, layovers) <- for_each itinerary_step itins (zero, 0, []) ;;
  tps <- get offer "travelerPricings" (VList []) ;;
  tpl <- iter tps ;;
  bag_included <- for_each traveler_step tpl false ;;
  codes <- get offer "validatingAirlineCodes" (VList []) ;;
  codel <- iter codes ;;
  premium <- any_premium codel ;;
  Ok (mkmetrics total_h max_stops bag_included premium layovers).

Definition rules_ok (m : Metrics) : bool :=
  (stops m <=? MAX_STOPS)
  && Num.ltb (total_hours m) (Num.of_Z MAX_DURATION_HOURS)
  && (negb BAGGAGE_REQUIRED || bag_included m).

(** [offer_meets_rules]. The dictionary [metrics] is threaded through the
    [try] block: [update] overwrites its five entries, and the handler
    returns it as the block left it. *)
Definition try_block (offer : value) (metrics : Metrics) : res bool * Metrics :=
  match measure offer with
  | Raise e => (Raise e, metrics)
  | Ok m =>
      let metrics := m in
      (Ok (rules_ok metrics), metrics)
  end.

Definition offer_meets_rules (offer : value) : bool * Metrics :=
  match try_block offer default_metrics with
  | (Ok ok, metrics) => (ok, metrics)
  | (Raise _, metrics) => (false, metrics)
  end.

(** ** Prices, compaction, combinations *)

Definition BIG : Num.float := Num.of_decimal false 1 9.

(** [get_price] *)
Definition get_price (offer : value) : Num.float :=
  match (price <- get offer "price" (VDict []) ;;
         total <- get price "total" (VFloat BIG) ;;
         to_float total) with
  | Ok p => p
  | Raise _ => BIG
  end.

Record compact_offer : Type := mkcompact {
  c_price : value;
  c_currency : value;
  c_carriers : string;
  c_stops : Z;
  c_hours : Num.float;
  c_bag_included : bool;
  c_premium : bool
}.

(** [sep.join(v)]: every item must be a string. *)
Fixpoint strings_of (l : list value) : res (list string) :=
  match l with
  | [] => Ok []
  | VStr s :: r => ss <- strings_of r ;; Ok (s :: ss)
  | _ :: _ => Raise TypeError
  end.

Definition join (sep : string) (v : value) : res string :=
  items <- iter v ;;
  ss <- strings_of items ;;
  Ok (Str.join sep ss).

(** [compact(offer, m)], with [m] the metrics stored with the offer *)
Definition compact (offer : value) (m : Metrics) : res compact_offer :=
  price <- get offer "price" (VDict []) ;;
  total <- get price "total" VNone ;;
  price' <- get offer "price" (VDict []) ;;
  currency <- get price' "currency" VNone ;;
  codes <- get offer "validatingAirlineCodes" (VList []) ;;
  carriers <- join "," codes ;;
  Ok (mkcompact total currency carriers (stops m)
                (Num.round (total_hours m) 1)
                (bag_included m) (premium m)).

(** ** The Amadeus client

    The server is a black box: what it will answer is given in advance, as
    the replies to the coming GET requests and the replies to the coming
    token requests. A request that finds no reply left has outcome
    [NoReply]. *)

Module Amadeus.

Record response : Type := mkresponse {
  status_code : Z;
  retry_after : option string;   (* the header [Retry-After] *)
  json : res value               (* what [r.json()] gives *)
}.

(** [r.raise_for_status()] *)
Definition raise_for_status (r : response) : res unit :=
  if (400 <=? status_code r) && (status_code r <? 600)
  then Raise (HTTPError (status_code r))
  else Ok tt.

Record state : Type := mkstate {
  _token : value;            (* [self._token] *)
  posts : list response;     (* replies of the token endpoint, still to come *)
  bearers : list value;      (* the token sent with each GET so far *)
  slept : list Z             (* every [time.sleep] so far, in seconds *)
}.

Inductive outcome (A : Type) : Type :=
| Returned (a : A)
| Raised (e : exn)
| NoReply.

Arguments Returned {A} a.
Arguments Raised {A} e.
Arguments NoReply {A}.

Definition set_token (st : state) (t : value) : state :=
  mkstate t (posts st) (bearers st) (slept st).

Definition set_posts (st : state) (p : list response) : state :=
  mkstate (_token st) p (bearers st) (slept st).

Definition log_bearer (st : state) (t : value) : state :=
  mkstate (_token st) (posts st) (bearers st ++ [t]) (slept st).

(** [time.sleep(secs)] refuses a negative length. *)
Definition sleep (secs : Z) (st : state) : res unit * state :=
  if secs <? 0 then (Raise ValueError, st)
  else (Ok tt, mkstate (_token st) (posts st) (bearers st) (slept st ++ [secs])).

Definition _auth (st : state) : outcome unit * state :=
  match posts st with
  | [] => (NoReply, st)
  | r :: rest =>
      let st := set_posts st rest in
      match (_ <- raise_for_status r ;;
             body <- json r ;;
             get body "access_token" VNone) with
      | Raise e => (Raised e, st)
      | Ok tok => (Returned tt, set_token st tok)
      end
  end.

(** [_headers]: the bearer token that goes into the request. *)
Definition _headers (st : state) : outcome value * state :=
  if negb (truthy (_token st)) then
    match _auth st with
    | (Returned _, st) => (Returned (_token st), st)
    | (Raised e, st) => (Raised e, st)
    | (NoReply, st) => (NoReply, st)
    end
  else (Returned (_token st), st).

Definition backoff (attempt : Z) : Z := Z.min 60 (2 ^ attempt).

(** The [try] that computes [wait_s]. *)
Definition wait_seconds (resp : response) (attempt : Z) : Z :=
  match retry_after resp with
  | Some s =>
      if truthy (VStr s) then
        match Num.int_of_str s with
        | Ok n => Z.min 60 n
        | Raise _ => backoff attempt
        end
      else backoff attempt
  | None => backoff attempt
  end.

(** The loop of [_safe_get], from a given [attempt]; [gets] are the replies
    to the coming GET requests, and the ones not consumed are returned. *)
Fixpoint safe_get_loop (max_retries attempt : Z) (gets : list response)
  (st : state) : outcome response * list response * state :=
  match _headers st with
  | (Returned bearer, st) =>
      match gets with
      | [] => (NoReply, [], st)
      | resp :: gets =>
          let st := log_bearer st bearer in
          if status_code resp =? 429 then
            let attempt := attempt + 1 in
            match (if attempt >? max_retries then raise_for_status resp
                   else Ok tt) with
            | Raise e => (Raised e, gets, st)
            | Ok _ =>
                match sleep (wait_seconds resp attempt) st with
                | (Raise e, st) => (Raised e, gets, st)
                | (Ok _, st) => safe_get_loop max_retries attempt gets st
                end
            end
          else
            match raise_for_status resp with
            | Raise e => (Raised e, gets, st)
            | Ok _ => (Returned resp, gets, st)
            end
      end
  | (Raised e, st) => (Raised e, gets, st)
  | (NoReply, st) => (NoReply, gets, st)
  end.

Definition MAX_RETRIES : Z := 6.

Definition _safe_get (max_retries : Z) (gets : list response) (st : state)
  : outcome response * list response * state :=
  safe_get_loop max_retries 0 gets st.

(** [search_offers]: the request itself does not bear on the replies. *)
Definition search_offers (gets : list response) (st : state)
  : outcome value * list response * state :=
  match _safe_get MAX_RETRIES gets st with
  | (Returned r, gets, st) =>
      match (body <- json r ;; get body "data" (VList [])) with
      | Ok data => (Returned data, gets, st)
      | Raise e => (Raised e, gets, st)
      end
  | (Raised e, gets, st) => (Raised e, gets, st)
  | (NoReply, gets, st) => (NoReply, gets, st)
  end.

(** Client code runs against the replies to come and the client state. *)
Definition io (A : Type) : Type :=
  list response -> state -> outcome A * list response * state.

Definition io_ret {A : Type} (a : A) : io A :=
  fun gets st => (Returned a, gets, st).

Definition io_bind {A B : Type} (m : io A) (k : A -> io B) : io B :=
  fun gets st =>
    match m gets st with
    | (Returned a, gets, st) => k a gets st
    | (Raised e, gets, st) => (Raised e, gets, st)
    | (NoReply, gets, st) => (NoReply, gets, st)
    end.

Definition io_lift {A : Type} (r : res A) : io A :=
  fun gets st =>
    match r with
    | Ok a => (Returned a, gets, st)
    | Raise e => (Raised e, gets, st)
    end.

Fixpoint io_for_each {A S : Type} (body : S -> A -> io S) (l : list A) (acc : S)
  : io S :=
  match l with
  | [] => io_ret acc
  | x :: l' => io_bind (body acc x) (io_for_each body l')
  end.

End Amadeus.

Import Amadeus.

(** ** [run_once]: the connecting combinations and the alerts *)

Definition PARIS_AIRPORTS : list string := ["CDG"; "ORY"].
Definition OSAKA_AIRPORTS : list string := ["KIX"; "ITM"; "UKB"].

Definition THRESHOLD_MAIN : Num.float := Num.of_Z 650.
Definition EXCEPTION_MIN : Num.float := Num.of_Z 651.
Definition EXCEPTION_MAX : Num.float := Num.of_Z 700.

Record combo : Type := mkcombo {
  total : Num.float;
  currency : value;
  osa_ceb : compact_offer;
  ceb_par : compact_offer;
  date_osa_ceb : string;
  date_ceb_par : string
}.

(** A passing offer goes on with its metrics under ["_metrics"]; the pair
    stands for the offer so extended. *)
Definition valid_offer : Type := (value * Metrics)%type.

(** [for off in offers: ok, metr = offer_meets_rules(off); if ok: ...] *)
Definition keep_valid (valid : list valid_offer) (offers : list value)
  : list valid_offer :=
  fold_left
    (fun valid off =>
       let '(ok, metr) := offer_meets_rules off in
       if ok then valid ++ [(off, metr)] else valid)
    offers valid.

Definition search_valid (valid : list valid_offer) : io (list valid_offer) :=
  io_bind search_offers (fun offers =>
  io_bind (io_lift (iter offers)) (fun offs =>
  io_ret (keep_valid valid offs))).

Section Combos.

(** [CURRENCY] comes from the environment. *)
Variable CURRENCY : string.

(** The dictionary appended to [valid_cebu_combo] for legs [a] and [b]. *)
Definition combine (d_osaceb d_cebpar : date) (a b : valid_offer) : res combo :=
  let total := Num.add (get_price (fst a)) (get_price (fst b)) in
  price <- get (fst a) "price" (VDict []) ;;
  currency <- get price "currency" (VStr CURRENCY) ;;
  leg_a <- compact (fst a) (snd a) ;;
  leg_b <- compact (fst b) (snd b) ;;
  Ok (mkcombo (Num.round total 2) currency leg_a leg_b
              (isoformat d_osaceb) (isoformat d_cebpar)).

Definition combinations (d_osaceb d_cebpar : date)
  (osa_ceb_valid ceb_par_valid : list valid_offer) (valid_cebu_combo : list combo)
  : res (list combo) :=
  for_each
    (fun acc a =>
       for_each (fun acc b => c <- combine d_osaceb d_cebpar a b ;; Ok (acc ++ [c]))
                ceb_par_valid acc)
    osa_ceb_valid valid_cebu_combo.

(** One turn of [for d_osaceb in daterange(...)]. *)
Definition combo_step (valid_cebu_combo : list combo) (next : res date)
  : io (list combo) :=
  io_bind (io_lift next) (fun d_osaceb =>
  io_bind (io_lift (add_days d_osaceb 14)) (fun d_cebpar =>
  io_bind (io_for_each (fun valid _ => search_valid valid) OSAKA_AIRPORTS [])
    (fun osa_ceb_valid =>
  io_bind (io_for_each (fun valid _ => search_valid valid) PARIS_AIRPORTS [])
    (fun ceb_par_valid =>
  io_lift (combinations d_osaceb d_cebpar osa_ceb_valid ceb_par_valid
                        valid_cebu_combo))))).

(** Lines 252 to 283 of [run_once]: [valid_cebu_combo]. *)
Definition cebu_combos : io (list combo) :=
  io_for_each combo_step (daterange (mkdate 2026 4 1) (mkdate 2026 4 15)) [].

End Combos.

Record osaka_alert : Type := mkosaka { reason : string; best : compact_offer }.
Record combo_alert : Type := mkcomboalert { best_combo : combo; vs_ref : Num.float }.
Record alerts : Type := mkalerts {
  osaka : option osaka_alert;
  cebu_combo : option combo_alert
}.

(** [alerts["osaka"]] *)
Definition osaka_alert_of (top3_osaka : list compact_offer)
  : res (option osaka_alert) :=
  match top3_osaka with
  | [] => Ok None
  | best :: _ =>
      price <- to_float (c_price best) ;;
      if Num.leb price THRESHOLD_MAIN then
        Ok (Some (mkosaka "≤650€" best))
      else if Num.leb EXCEPTION_MIN price && Num.leb price EXCEPTION_MAX
              && exceptional_itinerary (c_hours best) [] (c_premium best) then
        Ok (Some (mkosaka "651–700€ exceptionnel" best))
      else Ok None
  end.

(** [alerts["cebu_combo"]] *)
Definition combo_alert_of (top3_osaka : list compact_offer) (top3_cebu : list combo)
  : res (option combo_alert) :=
  match top3_cebu, top3_osaka with
  | c :: _, o :: _ =>
      p <- to_float (c_price o) ;;
      let ref := Num.add p (Num.of_Z 300) in
      t <- to_float (VFloat (total c)) ;;
      if Num.ltb t ref then Ok (Some (mkcomboalert c ref)) else Ok None
  | _, _ => Ok None
  end.

(** Lines 288 to 300 of [run_once]. *)
Definition alerts_of (top3_osaka : list compact_offer) (top3_cebu : list combo)
  : res alerts :=
  o <- osaka_alert_of top3_osaka ;;
  c <- combo_alert_of top3_osaka top3_cebu ;;
  Ok (mkalerts o c).

(** ** [pick_top3] and the sorts of [run_once]

    [sorted] with a key that is a float compares the keys by [<] alone and
    is stable. When no key is NaN, [<] orders the keys and this fixes the
    result: the items by increasing key, those of equal keys in the order
    of the list. The model computes it by inserting the items one after the
    other, each before the first item of a greater key.

    With a NaN among the keys [<] is no order, and the result is the
    rearrangement of the list that the sorting algorithm of the interpreter
    happens to reach. The model does not fix it: it takes the rearrangement
    from an [order] given with the list, which stands for the algorithm and
    can name every rearrangement of the list. *)

Definition is_nan (x : Num.float) : bool :=
  match x with S754_nan => true | _ => false end.

(** The item of rank [i] in a list, with the list less that item. *)
Fixpoint pick {A : Type} (i : nat) (l : list A) {struct l}
  : option (A * list A) :=
  match l with
  | [] => None
  | x :: r =>
      match i with
      | O => Some (x, r)
      | S j =>
          match pick j r with
          | Some (y, r') => Some (y, x :: r')
          | None => None
          end
      end
  end.

(** The rearrangement an [order] names: the ranks of the items to take in
    turn from what is left of the list; what is left when the order ends
    stays as it is. *)
Fixpoint rearrange {A : Type} (order : list nat) (l : list A) : list A :=
  match order with
  | [] => l
  | i :: order' =>
      match pick i l with
      | Some (x, r) => x :: rearrange order' r
      | None => l
      end
  end.

Section Sorting.
Context {A : Type}.
Variable key : A -> Num.float.

Fixpoint insert_by (x : A) (l : list A) : list A :=
  match l with
  | [] => [x]
  | y :: l' =>
      if Num.ltb (key x) (key y) then x :: l else y :: insert_by x l'
  end.

(** The stable sort by [<] on keys that [<] orders. *)
Definition stable_sort (l : list A) : list A :=
  fold_left (fun acc x => insert_by x acc) l [].

(** [sorted(l, key=key)] *)
Definition sorted (order : list nat) (l : list A) : list A :=
  if forallb (fun x => negb (is_nan (key x))) l then stable_sort l
  else rearrange order l.

(** [sorted(l, key=key)[:3]] *)
Definition top3 (order : list nat) (l : list A) : list A :=
  firstn 3 (sorted order l).

End Sorting.

(** The sort key of [pick_top3]: the offer goes with its metrics. *)
Definition price (o : valid_offer) : Num.float := get_price (fst o).

(** [pick_top3] *)
Definition pick_top3 (order : list nat) (offers : list valid_offer)
  : list valid_offer :=
  top3 price order offers.

(** ** The whole of [run_once] *)

(** One turn of [for d0, d1 in paris_osaka_pairs]: lines 238 to 246. *)
Definition osaka_step (valid_osaka : list valid_offer) (pair : date * date)
  : io (list valid_offer) :=
  io_for_each
    (fun valid _ =>
       io_for_each
         (fun valid _ =>
            io_for_each (fun valid _ => search_valid valid) (range 1) valid)
         OSAKA_AIRPORTS valid)
    PARIS_AIRPORTS valid_osaka.

(** Lines 234 to 246 of [run_once]: [valid_osaka]. *)
Definition osaka_offers : io (list valid_offer) :=
  io_bind (io_lift generate_paris_osaka_exact90_pairs) (fun pairs =>
  io_for_each osaka_step pairs []).

(** [[compact(o, o.get("_metrics", {})) for o in offers]] *)
Definition compact_all (offers : list valid_offer) : res (list compact_offer) :=
  for_each (fun acc o => c <- compact (fst o) (snd o) ;; Ok (acc ++ [c]))
           offers [].

(** The dictionary [run_once] returns. *)
Record result : Type := mkresult {
  top3_osaka : list compact_offer;
  top3_cebu : list combo;
  run_alerts : alerts
}.

(** [Amadeus()]: no token yet, nothing sent, nothing slept. *)
Definition new_client (token_replies : list response) : state :=
  mkstate VNone token_replies [] [].

(** The body of [run_once], from the client it has built. The key of the
    second sort, [x.get("total", 1e9)], is the total every combination
    has. Each of the two sorts has its [order], for the case of a NaN
    among its keys. *)
Definition run_once_from (CURRENCY : string) (osaka_order cebu_order : list nat)
  : io result :=
  io_bind osaka_offers (fun valid_osaka =>
  io_bind (io_lift (compact_all (pick_top3 osaka_order valid_osaka)))
    (fun top3_osaka =>
  io_bind (cebu_combos CURRENCY) (fun valid_cebu_combo =>
  let top3_cebu := top3 total cebu_order valid_cebu_combo in
  io_bind (io_lift (alerts_of top3_osaka top3_cebu)) (fun alerts =>
  io_ret (mkresult top3_osaka top3_cebu alerts))))).

(** [run_once], against the replies the token endpoint and the search
    endpoint have in store. *)
Definition run_once (CURRENCY : string) (osaka_order cebu_order : list nat)
  (token_replies gets : list response)
  : outcome result * list response * state :=
  run_once_from CURRENCY osaka_order cebu_order gets (new_client token_replies).

(** * Notions the statements use *)

(** Every character of [s] satisfies [p]. *)
Fixpoint all_chars (p : ascii -> bool) (s : string) : bool :=
  match s with
  | EmptyString => true
  | String c r => p c && all_chars p r
  end.

(** The characters other than [c] *)
Definition differs (c : ascii) : ascii -> bool := fun x => negb (Ascii.eqb x c).

(** A non-empty string of decimal digits *)
Definition is_number (s : string) : bool :=
  negb (String.eqb s "") && all_chars Str.is_digit s.

(** A component of a duration token: absent, or a number followed by its
    designator letter. *)
Definition component (n : option string) (letter : ascii) : string :=
  match n with
  | Some ds => ds ++ String letter EmptyString
  | None => EmptyString
  end.

(** The token [PT<hours>H<minutes>M], with the letters as given. *)
Definition duration_token (hours : option string) (H : ascii)
  (minutes : option string) (M : ascii) : string :=
  "PT" ++ component hours H ++ component minutes M.

Definition well_formed_component (n : option string) : bool :=
  match n with
  | Some ds => is_number ds
  | None => true
  end.

(** The float a component stands for; an absent one counts for zero. *)
Definition component_value (n : option string) : Num.float :=
  match n with
  | Some ds => Num.of_Z (Str.digits_value ds)
  | None => zero
  end.

(** [s] holds none of the designator letters H, h, M, m. *)
Definition no_designator (s : string) : bool :=
  all_chars (fun c => negb (existsb (Ascii.eqb c) ["H"; "h"; "M"; "m"]%char)) s.

(** An offer record of the shape the search API documents, and the JSON
    value that carries it. *)
Record Itinerary : Type := mkitinerary {
  segments : list value;
  duration : string
}.

(** [checked_bags] is the quantity of included checked bags, when the fare
    detail states one. *)
Record FareDetail : Type := mkfare { checked_bags : option Z }.

Record TravelerPricing : Type := mktraveler { fareDetailsBySegment : list FareDetail }.

Record Offer : Type := mkoffer {
  itineraries : list Itinerary;
  travelerPricings : list TravelerPricing;
  validatingAirlineCodes : list string;
  price_total : string;
  price_currency : string
}.

Definition encode_itinerary (it : Itinerary) : value :=
  VDict [("duration", VStr (duration it)); ("segments", VList (segments it))].

Definition encode_fare (f : FareDetail) : value :=
  VDict match checked_bags f with
        | Some q => [("includedCheckedBags", VDict [("quantity", VInt q)])]
        | None => []
        end.

Definition encode_traveler (tp : TravelerPricing) : value :=
  VDict [("fareDetailsBySegment", VList (map encode_fare (fareDetailsBySegment tp)))].

Definition encode (o : Offer) : value :=
  VDict [("price", VDict [("total", VStr (price_total o));
                          ("currency", VStr (price_currency o))]);
         ("itineraries", VList (map encode_itinerary (itineraries o)));
         ("travelerPricings", VList (map encode_traveler (travelerPricings o)));
         ("validatingAirlineCodes", VList (map VStr (validatingAirlineCodes o)))].








(** The waits of a run of rate-limited replies, the first of them being
    the reply number [attempt + 1]. *)
Fixpoint waits_from (attempt : Z) (rs : list response) : list Z :=
  match rs with
  | [] => []
  | r :: rs' => wait_seconds r (attempt + 1) :: waits_from (attempt + 1) rs'
  end.

Definition rate_limited (r : response) : Prop := status_code r = 429.

(** The state after [n] more requests under the cached token and the
    sleeps [ws]. *)
Definition after_requests (st : state) (n : nat) (ws : list Z) : state :=
  mkstate (_token st) (posts st)
          (bearers st ++ repeat (_token st) n) (slept st ++ ws).

(** Replies and states for the examples. *)
Definition reply (status : Z) (retry_after : option string) : response :=
  mkresponse status retry_after (Ok (VDict [("data", VList [])])).

Definition offers_reply (offers : list value) : response :=
  mkresponse 200 None (Ok (VDict [("data", VList offers)])).

Definition token_reply (tok : string) : response :=
  mkresponse 200 None (Ok (VDict [("access_token", VStr tok)])).

Definition signed_in (tok : string) (token_replies : list response) : state :=
  mkstate (VStr tok) token_replies [] [].

(** [d] lies in the inclusive window from [lo] to [hi]. *)
Definition in_window (lo hi d : date) : Prop :=
  Date.leb lo d = true /\ Date.leb d hi = true.

(** A leg of a combination: an offer that passed the evaluator, with the
    metrics the evaluator gave it. *)
Definition valid_leg (a : valid_offer) : Prop :=
  offer_meets_rules (fst a) = (true, snd a).

(** What holds of a combination: two valid legs, compacted; the first date
    in the window of April 2026 and the second 14 days later; the total the
    sum of the two prices, rounded to two decimals. *)
Definition combo_ok (c : combo) : Prop :=
  exists (a b : valid_offer) (d_a d_b : date),
    valid_leg a /\ valid_leg b
    /\ in_window (mkdate 2026 4 1) (mkdate 2026 4 15) d_a
    /\ add_days d_a 14 = Ok d_b
    /\ date_osa_ceb c = isoformat d_a
    /\ date_ceb_par c = isoformat d_b
    /\ compact (fst a) (snd a) = Ok (osa_ceb c)
    /\ compact (fst b) (snd b) = Ok (ceb_par c)
    /\ total c = Num.round (Num.add (get_price (fst a)) (get_price (fst b))) 2.

(** An offer that passes the rules, at a given price. *)
Definition priced_offer (price : string) : value :=
  encode (mkoffer [mkitinerary [VDict []; VDict []] "PT20H"]
                  [mktraveler [mkfare (Some 1)]] ["TK"] price "EUR").

(** A server with one outbound offer on 2026-04-01, one return offer on
    2026-04-15, and nothing else on the 15 dates. *)
Definition one_combo_server (price_a price_b : string) : list response :=
  [offers_reply [priced_offer price_a]; offers_reply []; offers_reply [];
   offers_reply [priced_offer price_b]; offers_reply []]
  ++ repeat (offers_reply []) 70.

(** ** Notions of the further properties *)

(** [_days_in_month] of [datetime], and the dates [date(y, m, d)] accepts. *)
Definition _days_in_month (y m : Z) : Z :=
  if (m =? 2) && _is_leap y then 29 else tbl _DAYS_IN_MONTH m.

Definition valid_day (d : date) : Prop :=
  1 <= month d <= 12 /\ 1 <= day d <= _days_in_month (year d) (month d).

Definition valid_date (d : date) : bool :=
  (1 <=? year d) && (year d <=? 9999)
  && (1 <=? month d) && (month d <=? 12)
  && (1 <=? day d) && (day d <=? _days_in_month (year d) (month d)).

(** The month and day that [_ord2ymd] reads off the day of the year [n],
    counted from 0, in a year that is leap or not. *)
Definition month_day (y : Z) (leapyear : bool) (n : Z) : date :=
  let month := Z.shiftr (n + 50) 5 in
  let preceding :=
    tbl _DAYS_BEFORE_MONTH month
    + (if (month >? 2) && leapyear then 1 else 0) in
  if preceding >? n then
    let month := month - 1 in
    let preceding :=
      preceding
      - (tbl _DAYS_IN_MONTH month
         + (if (month =? 2) && leapyear then 1 else 0)) in
    mkdate y month (n - preceding + 1)
  else mkdate y month (n - preceding + 1).

(** The checks of [month_day] on a day of a month, and on a day of the
    year. *)
Definition month_day_checked (leapyear : bool) (m d : Z) : bool :=
  let n := tbl _DAYS_BEFORE_MONTH m
           + (if (m >? 2) && leapyear then 1 else 0) + d - 1 in
  let dim := if (m =? 2) && leapyear then 29 else tbl _DAYS_IN_MONTH m in
  implb ((d <=? dim) && (n <=? 364))
        ((month (month_day 0 leapyear n) =? m)
         && (day (month_day 0 leapyear n) =? d)).

Definition month_day_valid (leapyear : bool) (n : Z) : bool :=
  let d := month_day 0 leapyear n in
  (1 <=? month d) && (month d <=? 12) && (1 <=? day d)
  && (day d <=? (if (month d =? 2) && leapyear then 29
                 else tbl _DAYS_IN_MONTH (month d))).

(** [s] holds none of the given characters. *)
Definition without (cs : list ascii) (s : string) : bool :=
  all_chars (fun c => negb (existsb (Ascii.eqb c) cs)) s.

(** [s] less the given characters. *)
Fixpoint dropping (cs : list ascii) (s : string) : string :=
  match s with
  | EmptyString => EmptyString
  | String c r =>
      if existsb (Ascii.eqb c) cs then dropping cs r
      else String c (dropping cs r)
  end.

(** A component as the parser reads it: nothing counts for 0.0, anything
    else goes through [float], in lower case. *)
Definition read_component (s : string) : res Num.float :=
  if String.eqb s "" then Ok zero else Num.float_of_str (Str.lower s).

(** What the loop on the itineraries keeps true of its stops and
    layovers. *)
Definition layovers_match (acc : Num.float * Z * list Num.float) : Prop :=
  let '(_, max_stops, layovers) := acc in
  0 <= max_stops
  /\ (0 < max_stops <-> layovers <> [])
  /\ Forall (eq LAYOVER) layovers.

Definition is_dict (v : value) : bool :=
  match v with VDict _ => true | _ => false end.

Definition is_str (v : value) : bool :=
  match v with VStr _ => true | _ => false end.

(** The price the alerts read from a compacted offer, with the default of
    [get_price] where [float] fails. *)
Definition price_or_default (c : compact_offer) : Num.float :=
  match to_float (c_price c) with
  | Ok p => p
  | Raise _ => BIG
  end.

(** An offer that passes the evaluator and names its carrier by a number. *)
Definition numbered_carrier_offer : list (string * value) :=
  [("price", VDict [("total", VStr "500")]);
   ("itineraries",
    VList [VDict [("segments", VList [VDict []]); ("duration", VStr "PT12H")]]);
   ("travelerPricings",
    VList [VDict [("fareDetailsBySegment",
                   VList [VDict [("includedCheckedBags",
                                  VDict [("quantity", VInt 1)])]])]]);
   ("validatingAirlineCodes", VList [VInt 7])].

(** The place of a float that is not NaN in the order of [<]. *)
Definition rank (x : Num.float) : Z * Z * Z :=
  match x with
  | S754_infinity true => (0, 0, 0)
  | S754_finite true m e => (1, - e, - Zpos m)
  | S754_zero _ => (2, 0, 0)
  | S754_finite false m e => (3, e, Zpos m)
  | S754_infinity false => (4, 0, 0)
  | S754_nan => (5, 0, 0)
  end.

Definition lex_le (a b : Z * Z * Z) : Prop :=
  let '(a1, a2, a3) := a in
  let '(b1, b2, b3) := b in
  a1 < b1 \/ (a1 = b1 /\ (a2 < b2 \/ (a2 = b2 /\ a3 <= b3))).

(** Items by their keys: [a] not after [b]; a key that is a number; the
    items of key [k0]. *)
Definition key_le {A : Type} (key : A -> Num.float) (a b : A) : Prop :=
  Num.leb (key a) (key b) = true.

Definition real_key {A : Type} (key : A -> Num.float) (a : A) : Prop :=
  is_nan (key a) = false.

Definition same_key {A : Type} (key : A -> Num.float) (k0 : Num.float) (y : A)
  : bool :=
  Num.leb (key y) k0 && Num.leb k0 (key y).

(** Priced items for the examples of the sort, each with its rank in the
    list. *)
Definition priced_items : list (Num.float * nat) :=
  [(Num.of_Z 700, 0%nat); (Num.of_Z 640, 1%nat); (Num.of_Z 500, 2%nat);
   (Num.of_Z 640, 3%nat); (Num.of_Z 500, 4%nat)].

(** The offers the filtering loops of [run_once] keep. *)
Definition passing (offers : list value) : list valid_offer :=
  map (fun off => (off, snd (offer_meets_rules off)))
      (filter (fun off => fst (offer_meets_rules off)) offers).

(** A reply that ends a search, the rate-limited ones being passed over. *)
Definition answered (r : response) : bool := negb (status_code r =? 429).

(** What [n] searches that returned have done between two states of the
    world: the replies they consumed hold [n] answers and rate-limited
    replies, six at most before each answer; every reply was asked for with
    a bearer token; every rate-limited reply was slept on. *)
Definition searched (n : nat) (gets gets' : list response) (st st' : state)
  : Prop :=
  exists used ws,
    gets = used ++ gets'
    /\ List.length (filter answered used) = n
    /\ (List.length used <= 7 * n)%nat
    /\ Forall (fun r => rate_limited r \/ ~ (400 <= status_code r < 600)) used
    /\ slept st' = slept st ++ ws
    /\ (List.length ws + n = List.length used)%nat
    /\ Forall (fun w => 0 <= w <= 60) ws
    /\ List.length (bearers st')
       = (List.length (bearers st) + List.length used)%nat.

Definition searches {A : Type} (n : nat) (m : io A) : Prop :=
  forall gets st a gets' st',
    m gets st = (Returned a, gets', st') -> searched n gets gets' st st'.

(** What a compacted offer of a result says of its offer. *)
Definition reported_leg (c : compact_offer) : Prop :=
  0 <= c_stops c <= 1
  /\ c_bag_included c = true
  /\ exists a : valid_offer,
       valid_leg a
       /\ compact (fst a) (snd a) = Ok c
       /\ get_price (fst a) = price_or_default c.

(** The combinations of a result: both legs are as a result reports them. *)
Definition reported_combo (c : combo) : Prop :=
  combo_ok c /\ reported_leg (osa_ceb c) /\ reported_leg (ceb_par c).

(** A server that is rate-limited once, then answers the first search by
    one offer at 640 and every other search by none. *)
Definition one_offer_server : list response :=
  reply 429 (Some "3") :: offers_reply [priced_offer "640"]
  :: repeat (offers_reply []) 164.

(** The reply [t] of the token endpoint grants the token [tok]. *)
Definition grants (t : response) (tok : value) : Prop :=
  raise_for_status t = Ok tt
  /\ exists d, json t = Ok (VDict d) /\ lookup "access_token" d = Some tok.

(** The client has not signed in and has sent nothing, or it has signed in
    by [t] and has sent [tok] with every request. *)
Definition signed_once (t : response) (tok : value) (rest : list response)
  (st : state) : Prop :=
  (truthy (_token st) = false /\ posts st = t :: rest /\ bearers st = [])
  \/ (_token st = tok /\ posts st = rest /\ Forall (eq tok) (bearers st)).

Definition keeps_sign_in (t : response) (tok : value) (rest : list response)
  {A : Type} (m : io A) : Prop :=
  forall gets st out gets' st',
    signed_once t tok rest st -> m gets st = (out, gets', st') ->
    signed_once t tok rest st'.

(** What [n] searches have done at most between two states of the world,
    however they ended: seven requests each, six sleeps each. *)
Definition spent (n : nat) (gets gets' : list response) (st st' : state)
  : Prop :=
  exists used ws,
    gets = used ++ gets'
    /\ (List.length used <= 7 * n)%nat
    /\ slept st' = slept st ++ ws
    /\ (List.length ws <= 6 * n)%nat
    /\ Forall (fun w => 0 <= w <= 60) ws.

Definition spends {A : Type} (n : nat) (m : io A) : Prop :=
  forall gets st out gets' st',
    m gets st = (out, gets', st') -> spent n gets gets' st st'.

(** A server that answers by a rate limit, ten times over. *)
Definition rate_limiting_server : list response :=
  repeat (reply 429 (Some "1")) 10.

(** * Properties *)

(** ** The date-pair generator *)

Lemma leb_cases (a b : date) :
  Date.leb a b = true ->
  year a < year b
  \/ (year a = year b /\ month a < month b)
  \/ (year a = year b /\ month a = month b /\ day a <= day b).
Proof.
  unfold Date.leb, Date.cmp.
  destruct (Z.compare_spec (year a) (year b));
    destruct (Z.compare_spec (month a) (month b));
    destruct (Z.compare_spec (day a) (day b));
    intros E; try discriminate E; lia.
Qed.

Lemma in_window_same_month (y m lo hi : Z) (d : date) :
  in_window (mkdate y m lo) (mkdate y m hi) d ->
  year d = y /\ month d = m /\ lo <= day d <= hi.
Proof.
  intros [Hlo Hhi].
  apply leb_cases in Hlo. apply leb_cases in Hhi. simpl in *. lia.
Qed.

Lemma day_enum (lo hi x : Z) :
  lo <= x <= hi -> In x (map (fun n => lo + n) (range (hi - lo + 1))).
Proof.
  intros H. apply in_map_iff. exists (x - lo). split; [lia|].
  unfold range. apply in_map_iff. exists (Z.to_nat (x - lo)).
  split; [lia|]. apply in_seq. lia.
Qed.

Ltac split_days H :=
  repeat match type of H with
         | _ \/ _ => destruct H as [H | H]
         end.

Lemma january_day (d : Z) :
  1 <= d <= 15 ->
  In (mkdate 2026 1 d) (map (fun n => mkdate 2026 1 (1 + n)) (range 15)).
Proof.
  intros H. pose proof (day_enum 1 15 d H) as H'.
  apply (in_map (fun x => mkdate 2026 1 x)) in H'.
  rewrite map_map in H'. exact H'.
Qed.

(** C3. The generator returns the pairs (d0, d0 + 90 days) with d0 in
    [2026-01-01, 2026-01-15] and d0 + 90 days in [2026-04-01, 2026-04-15],
    and only those, by increasing d0; there are 15 of them, one for every
    start date of the window. *)
Theorem generate_pairs_exact90 :
  exists pairs,
    generate_paris_osaka_exact90_pairs = Ok pairs
    /\ (forall d0 d1,
          In (d0, d1) pairs <->
          in_window DEPART_WINDOW_START DEPART_WINDOW_END d0
          /\ add_days d0 90 = Ok d1
          /\ in_window (mkdate 2026 4 1) (mkdate 2026 4 15) d1)
    /\ StronglySorted (fun p q => Date.cmp (fst p) (fst q) = Lt) pairs
    /\ List.length pairs = 15%nat
    /\ (forall d0,
          in_window DEPART_WINDOW_START DEPART_WINDOW_END d0 ->
          exists d1, In (d0, d1) pairs).
Proof.
  eexists. split; [vm_compute; reflexivity|].
  assert (Hin : forall d0 d1,
             in_window DEPART_WINDOW_START DEPART_WINDOW_END d0 ->
             add_days d0 90 = Ok d1 ->
             In (d0, d1)
                (map (fun n => (mkdate 2026 1 (1 + n), mkdate 2026 4 (1 + n)))
                     (range 15))).
  { intros [y m d] d1 Hw Hadd.
    apply in_window_same_month in Hw. simpl in Hw.
    destruct Hw as (-> & -> & Hd).
    pose proof (january_day d Hd) as Hj. vm_compute in Hj.
    split_days Hj; try contradiction;
      injection Hj as <-; vm_compute in Hadd; injection Hadd as <-;
      vm_compute; tauto. }
  split; [|split; [|split]].
  - intros d0 d1. split.
    + intros H. simpl in H. split_days H; try contradiction;
        injection H as <- <-; vm_compute; auto.
    + intros (Hw & Hadd & _). exact (Hin d0 d1 Hw Hadd).
  - repeat constructor.
  - reflexivity.
  - intros [y m d] Hw.
    pose proof Hw as Hw'. apply in_window_same_month in Hw'. simpl in Hw'.
    destruct Hw' as (-> & -> & Hd).
    pose proof (january_day d Hd) as Hj. vm_compute in Hj.
    split_days Hj; try contradiction; injection Hj as <-;
      eexists; apply Hin; auto; vm_compute; reflexivity.
Qed.

(** ** Strings *)

Lemma all_chars_app (p : ascii -> bool) (a b : string) :
  all_chars p (a ++ b) = all_chars p a && all_chars p b.
Proof.
  induction a as [|c a IH]; simpl; [reflexivity|].
  rewrite IH. apply andb_assoc.
Qed.

Lemma all_chars_weaken (p q : ascii -> bool) (s : string) :
  (forall c, p c = true -> q c = true) ->
  all_chars p s = true -> all_chars q s = true.
Proof.
  intros Hpq. induction s as [|c s IH]; simpl; [reflexivity|].
  intros H. apply andb_true_iff in H as [Hc Hs].
  rewrite (Hpq c Hc), (IH Hs). reflexivity.
Qed.

Lemma append_empty_r (s : string) : (s ++ "")%string = s.
Proof. induction s as [|c s IH]; simpl; [|rewrite IH]; reflexivity. Qed.

Lemma append_assoc (a b c : string) :
  ((a ++ b) ++ c)%string = (a ++ (b ++ c))%string.
Proof. induction a as [|x a IH]; simpl; [|rewrite IH]; reflexivity. Qed.

(** A one-letter separator that does not occur leaves a single piece. *)
Lemma split_absent (c : ascii) (s cur : string) :
  all_chars (differs c) s = true ->
  Str.split_from (String c "") 0 cur s = [(cur ++ s)%string].
Proof.
  revert cur. induction s as [|x s IH]; simpl; intros cur H.
  - rewrite append_empty_r. reflexivity.
  - apply andb_true_iff in H as [Hx Hs]. unfold differs in Hx.
    destruct (Ascii.eqb_spec x c) as [->|Hne]; [discriminate|].
    destruct (ascii_dec c x) as [->|_]; [contradiction|].
    rewrite (IH _ Hs), append_assoc. reflexivity.
Qed.

Lemma split_at (c : ascii) (a b cur : string) :
  all_chars (differs c) a = true ->
  Str.split_from (String c "") 0 cur (a ++ String c b)
  = (cur ++ a)%string :: Str.split_from (String c "") 0 "" b.
Proof.
  revert cur. induction a as [|x a IH]; simpl; intros cur H.
  - rewrite append_empty_r.
    destruct (ascii_dec c c) as [_|Hne]; [|contradiction].
    destruct b; reflexivity.
  - apply andb_true_iff in H as [Hx Ha]. unfold differs in Hx.
    destruct (Ascii.eqb_spec x c) as [->|Hne]; [discriminate|].
    destruct (ascii_dec c x) as [->|_]; [contradiction|].
    rewrite (IH _ Ha), append_assoc. reflexivity.
Qed.

Lemma contains_absent (c : ascii) (s : string) :
  all_chars (differs c) s = true -> Str.contains (String c "") s = false.
Proof.
  induction s as [|x s IH]; simpl; [reflexivity|]. intros H.
  apply andb_true_iff in H as [Hx Hs]. unfold differs in Hx.
  destruct (Ascii.eqb_spec x c) as [->|Hne]; [discriminate|].
  destruct (ascii_dec c x) as [->|_]; [contradiction|].
  rewrite (IH Hs). reflexivity.
Qed.

Lemma contains_at (c : ascii) (a b : string) :
  Str.contains (String c "") (a ++ String c b) = true.
Proof.
  induction a as [|x a IH]; simpl.
  - destruct (ascii_dec c c) as [_|Hne]; [|contradiction].
    destruct b; reflexivity.
  - rewrite IH. apply orb_true_r.
Qed.

Lemma replace_absent (c : ascii) (old new s : string) :
  all_chars (differs c) s = true ->
  Str.replace_from (String c old) new 0 s = s.
Proof.
  induction s as [|x s IH]; simpl; [reflexivity|]. intros H.
  apply andb_true_iff in H as [Hx Hs]. unfold differs in Hx.
  destruct (Ascii.eqb_spec x c) as [->|Hne]; [discriminate|].
  destruct (ascii_dec c x) as [->|_]; [contradiction|].
  rewrite (IH Hs). reflexivity.
Qed.

Lemma replace_last (c : ascii) (a : string) :
  all_chars (differs c) a = true ->
  Str.replace_from (String c "") "" 0 (a ++ String c "") = a.
Proof.
  induction a as [|x a IH]; simpl.
  - destruct (ascii_dec c c) as [_|Hne]; [reflexivity|contradiction].
  - intros H. apply andb_true_iff in H as [Hx Ha]. unfold differs in Hx.
    destruct (Ascii.eqb_spec x c) as [->|Hne]; [discriminate|].
    destruct (ascii_dec c x) as [->|_]; [contradiction|].
    rewrite (IH Ha). reflexivity.
Qed.

Lemma lower_app (a b : string) :
  Str.lower (a ++ b) = (Str.lower a ++ Str.lower b)%string.
Proof. induction a as [|x a IH]; simpl; [|rewrite IH]; reflexivity. Qed.

(** *** Digits *)

Lemma digit_cases (c : ascii) :
  Str.is_digit c = true ->
  In c ["0"; "1"; "2"; "3"; "4"; "5"; "6"; "7"; "8"; "9"]%char.
Proof.
  destruct c as [[] [] [] [] [] [] [] []]; intros H;
    try discriminate H; simpl; tauto.
Qed.

Ltac digit_cases c H :=
  let D := fresh "D" in
  pose proof (digit_cases c H) as D; simpl in D;
  repeat match type of D with
         | _ \/ _ => destruct D as [D | D]
         end;
  try contradiction; subst c.

Lemma digit_props (c : ascii) :
  Str.is_digit c = true ->
  Str.is_space c = false
  /\ Str.lower_char c = c
  /\ Ascii.eqb c "_" = false
  /\ (forall x, In x ["H"; "h"; "M"; "m"; "P"; "T"; "i"; "n"]%char ->
               differs x c = true)
  /\ 0 <= Str.digit_value c.
Proof.
  intros H. digit_cases c H; repeat split; try reflexivity;
    try (intros x Hx; simpl in Hx;
         repeat match type of Hx with
                | _ \/ _ => destruct Hx as [Hx | Hx]
                end; try contradiction; subst x; reflexivity);
    vm_compute; discriminate.
Qed.

Lemma digits_differ (x : ascii) (s : string) :
  In x ["H"; "h"; "M"; "m"; "P"; "T"; "i"; "n"]%char ->
  all_chars Str.is_digit s = true -> all_chars (differs x) s = true.
Proof.
  intros Hx. apply all_chars_weaken. intros c Hc.
  destruct (digit_props c Hc) as (_ & _ & _ & Hd & _). exact (Hd x Hx).
Qed.

Lemma lower_digits (s : string) :
  all_chars Str.is_digit s = true -> Str.lower s = s.
Proof.
  induction s as [|c s IH]; simpl; [reflexivity|]. intros H.
  apply andb_true_iff in H as [Hc Hs].
  destruct (digit_props c Hc) as (_ & -> & _). rewrite (IH Hs). reflexivity.
Qed.

Lemma lstrip_digits (s : string) :
  all_chars Str.is_digit s = true -> Str.lstrip s = s.
Proof.
  destruct s as [|c s]; simpl; [reflexivity|]. intros H.
  apply andb_true_iff in H as [Hc _].
  destruct (digit_props c Hc) as (-> & _). reflexivity.
Qed.

Lemma rstrip_digits (s : string) :
  all_chars Str.is_digit s = true -> Str.rstrip s = s.
Proof.
  induction s as [|c s IH]; simpl; [reflexivity|]. intros H.
  apply andb_true_iff in H as [Hc Hs].
  destruct (digit_props c Hc) as (-> & _). rewrite (IH Hs).
  destruct s; reflexivity.
Qed.

Lemma drop_underscores_digits (s : string) (prev : ascii) :
  Ascii.eqb prev "_" = false ->
  all_chars Str.is_digit s = true -> Str.drop_underscores prev s = Some s.
Proof.
  revert prev. induction s as [|c s IH]; simpl; intros prev Hp H.
  - rewrite Hp. reflexivity.
  - apply andb_true_iff in H as [Hc Hs].
    destruct (digit_props c Hc) as (_ & _ & Hu & _).
    rewrite Hu, Hc, andb_false_r, (IH c Hu Hs). reflexivity.
Qed.

Lemma span_digits_all (s : string) :
  all_chars Str.is_digit s = true -> Str.span_digits s = (s, ""%string).
Proof.
  induction s as [|c s IH]; simpl; [reflexivity|]. intros H.
  apply andb_true_iff in H as [Hc Hs]. rewrite Hc, (IH Hs). reflexivity.
Qed.

Lemma digits_value_from_nonneg (s : string) (acc : Z) :
  0 <= acc -> all_chars Str.is_digit s = true ->
  0 <= Str.digits_value_from acc s.
Proof.
  revert acc. induction s as [|c s IH]; intros acc Ha H;
    cbn [Str.digits_value_from]; cbn [all_chars] in H; [exact Ha|].
  apply andb_true_iff in H as [Hc Hs].
  destruct (digit_props c Hc) as (_ & _ & _ & _ & Hv).
  apply IH; [lia|exact Hs].
Qed.

Lemma of_decimal_0 (z : Z) : 0 <= z -> Num.of_decimal false z 0 = Num.of_Z z.
Proof.
  destruct z as [|p|p]; intros H; [reflexivity| |lia].
  simpl. rewrite Pos.mul_1_r. reflexivity.
Qed.

(** [float] reads a non-empty string of digits as the float nearest to
    the number it denotes. *)
Lemma float_of_number (ds : string) :
  is_number ds = true ->
  Num.float_of_str ds = Ok (Num.of_Z (Str.digits_value ds)).
Proof.
  unfold is_number. intros H. apply andb_true_iff in H as [Hne Hd].
  unfold Num.float_of_str, Str.strip, Str.digits_value.
  rewrite (lstrip_digits _ Hd), (rstrip_digits _ Hd).
  rewrite (drop_underscores_digits _ Ascii.zero eq_refl Hd).
  rewrite <- (of_decimal_0 _ (digits_value_from_nonneg ds 0 (Z.le_refl 0) Hd)).
  destruct ds as [|c r]; [discriminate Hne|].
  pose proof (span_digits_all _ Hd) as Hspan.
  simpl in Hd. apply andb_true_iff in Hd as [Hc Hr].
  digit_cases c Hc; cbn [Str.take_sign]; rewrite Hspan; cbn;
    rewrite append_empty_r; reflexivity.
Qed.

(** ** The duration parser *)

Lemma prefix_empty (s : string) : String.prefix "" s = true.
Proof. destruct s; reflexivity. Qed.

Lemma parse_duration_prefixed (rest : string) :
  all_chars (differs "P") rest = true ->
  parse_duration_str ("PT" ++ rest)
  = ('(h, m) <- duration_components (Str.lower rest) ;;
     Ok (Num.add h (Num.div m (Num.of_Z 60)))).
Proof.
  intros HP. unfold parse_duration_str, Str.startswith, Str.replace.
  cbn [append String.eqb String.prefix Str.replace_from orb].
  destruct (ascii_dec "P" "P") as [_|Hne]; [|contradiction].
  destruct (ascii_dec "T" "T") as [_|Hne]; [|contradiction].
  rewrite !prefix_empty.
  cbn [String.length Nat.pred negb append Str.replace_from].
  rewrite (replace_absent "P" "T" "" rest HP). reflexivity.
Qed.

Lemma lower_component (n : option string) (L l : ascii) :
  well_formed_component n = true ->
  Str.lower_char L = l ->
  Str.lower (component n L) = component n l.
Proof.
  destruct n as [ds|]; simpl; [|reflexivity]. unfold is_number.
  intros H <-. apply andb_true_iff in H as [_ Hd].
  rewrite lower_app, (lower_digits _ Hd). reflexivity.
Qed.

Lemma component_differs (n : option string) (l x : ascii) :
  well_formed_component n = true ->
  In x ["H"; "h"; "M"; "m"; "P"; "T"; "i"; "n"]%char ->
  differs x l = true ->
  all_chars (differs x) (component n l) = true.
Proof.
  destruct n as [ds|]; simpl; [|reflexivity]. unfold is_number.
  intros H Hx Hl. apply andb_true_iff in H as [_ Hd].
  rewrite all_chars_app, (digits_differ x ds Hx Hd). simpl.
  rewrite Hl. reflexivity.
Qed.

Lemma number_nonempty (ds : string) :
  is_number ds = true -> String.eqb ds "" = false.
Proof.
  unfold is_number. intros H. apply andb_true_iff in H as [H _].
  apply negb_true_iff in H. exact H.
Qed.

Lemma number_differs (ds : string) (x : ascii) :
  is_number ds = true ->
  In x ["H"; "h"; "M"; "m"; "P"; "T"; "i"; "n"]%char ->
  all_chars (differs x) ds = true.
Proof.
  unfold is_number. intros H Hx. apply andb_true_iff in H as [_ Hd].
  exact (digits_differ x ds Hx Hd).
Qed.

(** The components of a token in lower case, as the parser reads them. *)
Lemma duration_components_token (hours minutes : option string) :
  well_formed_component hours = true ->
  well_formed_component minutes = true ->
  duration_components (component hours "h" ++ component minutes "m")
  = Ok (component_value hours, component_value minutes).
Proof.
  intros Hh Hm. unfold duration_components, Str.split, Str.replace.
  destruct hours as [hd|], minutes as [md|]; simpl in Hh, Hm;
    cbn [component component_value append].
  - pose proof (number_differs hd "h" Hh ltac:(simpl; tauto)) as Hhd.
    pose proof (number_differs md "h" Hm ltac:(simpl; tauto)) as Hmd_h.
    pose proof (number_differs md "m" Hm ltac:(simpl; tauto)) as Hmd.
    rewrite !append_assoc. cbn [append].
    rewrite contains_at, (split_at "h" hd _ "" Hhd).
    rewrite split_absent
      by (rewrite all_chars_app, Hmd_h; reflexivity).
    cbn [append nth List.length Z.of_nat Pos.of_succ_nat Pos.succ Z.ltb Z.compare
         Pos.compare Pos.compare_cont].
    rewrite (number_nonempty _ Hh), (float_of_number _ Hh).
    cbn [Py.bind]. rewrite contains_at, (split_at "m" md "" "" Hmd).
    cbn [append nth]. rewrite (number_nonempty _ Hm), (float_of_number _ Hm).
    reflexivity.
  - pose proof (number_differs hd "h" Hh ltac:(simpl; tauto)) as Hhd.
    rewrite !append_assoc. cbn [append].
    rewrite contains_at, (split_at "h" hd _ "" Hhd).
    cbn [Str.split_from append nth List.length Z.of_nat Pos.of_succ_nat Pos.succ
         Z.ltb Z.compare Pos.compare Pos.compare_cont].
    rewrite (number_nonempty _ Hh), (float_of_number _ Hh).
    reflexivity.
  - pose proof (number_differs md "h" Hm ltac:(simpl; tauto)) as Hmd_h.
    pose proof (number_differs md "m" Hm ltac:(simpl; tauto)) as Hmd.
    rewrite contains_absent
      by (rewrite all_chars_app, Hmd_h; reflexivity).
    rewrite contains_at, (replace_last "m" md Hmd).
    rewrite (number_nonempty _ Hm), (float_of_number _ Hm).
    reflexivity.
  - reflexivity.
Qed.

(** C7, as amended. For a token [PT<hours>H<minutes>M] whose prefix is
    the upper-case [PT], whose components are numbers followed by their
    letter in either case, each component optional, the parser returns
    hours + minutes / 60 in float arithmetic. *)
Theorem parse_duration_token (hours minutes : option string) (H M : ascii) :
  well_formed_component hours = true ->
  well_formed_component minutes = true ->
  H = "H"%char \/ H = "h"%char ->
  M = "M"%char \/ M = "m"%char ->
  parse_duration_hours (VStr (duration_token hours H minutes M))
  = Ok (Num.add (component_value hours)
                (Num.div (component_value minutes) (Num.of_Z 60))).
Proof.
  intros Hh Hm HH HM. unfold parse_duration_hours, duration_token.
  change (truthy (VStr ("PT" ++ component hours H ++ component minutes M)))
    with true.
  cbn [negb]. rewrite parse_duration_prefixed.
  - rewrite lower_app.
    rewrite (lower_component hours H "h" Hh)
      by (destruct HH as [-> | ->]; reflexivity).
    rewrite (lower_component minutes M "m" Hm)
      by (destruct HM as [-> | ->]; reflexivity).
    rewrite (duration_components_token hours minutes Hh Hm). reflexivity.
  - rewrite all_chars_app.
    rewrite (component_differs hours H "P" Hh)
      by (simpl; tauto || (destruct HH as [-> | ->]; reflexivity)).
    rewrite (component_differs minutes M "P" Hm)
      by (simpl; tauto || (destruct HM as [-> | ->]; reflexivity)).
    reflexivity.
Qed.

(** The tokens of the specification: 2.5, 0.75 and 10.0 hours, and a token
    with lower-case designators. *)
Lemma parse_duration_token_examples :
  parse_duration_hours (VStr "PT2H30M") = Ok (Num.of_decimal false 25 (-1))
  /\ parse_duration_hours (VStr "PT45M") = Ok (Num.of_decimal false 75 (-2))
  /\ parse_duration_hours (VStr "PT10H") = Ok (Num.of_Z 10)
  /\ parse_duration_hours (VStr "PT2h30m") = Ok (Num.of_decimal false 25 (-1)).
Proof.
  split; [|split; [|split]].
  - exact (parse_duration_token (Some "2") (Some "30") "H" "M"
             eq_refl eq_refl (or_introl eq_refl) (or_introl eq_refl)).
  - exact (parse_duration_token None (Some "45") "H" "M"
             eq_refl eq_refl (or_introl eq_refl) (or_introl eq_refl)).
  - exact (parse_duration_token (Some "10") None "H" "M"
             eq_refl eq_refl (or_introl eq_refl) (or_introl eq_refl)).
  - exact (parse_duration_token (Some "2") (Some "30") "h" "m"
             eq_refl eq_refl (or_intror eq_refl) (or_intror eq_refl)).
Defined.

(** The claim C7 fails on a token in lower case throughout: the prefix is
    matched as written, and the parser answers 0.0, not 2.5. *)
Lemma parse_duration_lowercase_prefix :
  parse_duration_hours (VStr "pt2h30m") = Ok zero
  /\ parse_duration_hours (VStr "pt2h30m")
     <> Ok (Num.add (Num.of_Z 2) (Num.div (Num.of_Z 30) (Num.of_Z 60))).
Proof. split; [reflexivity | vm_compute; discriminate]. Qed.

Lemma all_chars_replace (p : ascii -> bool) (old s : string) (skip : nat) :
  all_chars p s = true -> all_chars p (Str.replace_from old "" skip s) = true.
Proof.
  revert skip. induction s as [|c s IH]; intros skip H;
    cbn [Str.replace_from]; [reflexivity|].
  cbn [all_chars] in H. apply andb_true_iff in H as [Hc Hs].
  destruct skip as [|k]; [|exact (IH k Hs)].
  destruct (String.prefix old (String c s)); cbn [append all_chars].
  - exact (IH _ Hs).
  - rewrite Hc. exact (IH 0%nat Hs).
Qed.

Lemma lower_char_designator (c l : ascii) :
  In l ["h"; "m"]%char ->
  existsb (Ascii.eqb c) ["H"; "h"; "M"; "m"]%char = false ->
  differs l (Str.lower_char c) = true.
Proof.
  intros Hl. simpl in Hl. destruct Hl as [<- | [<- | []]];
    destruct c as [[] [] [] [] [] [] [] []]; intros H;
    try discriminate H; reflexivity.
Qed.

Lemma lower_no_designator (s : string) (l : ascii) :
  In l ["h"; "m"]%char ->
  no_designator s = true -> all_chars (differs l) (Str.lower s) = true.
Proof.
  intros Hl. unfold no_designator.
  induction s as [|c s IH]; simpl; [reflexivity|]. intros H.
  apply andb_true_iff in H as [Hc Hs]. apply negb_true_iff in Hc.
  rewrite (lower_char_designator c l Hl Hc), (IH Hs). reflexivity.
Qed.

(** C8, as amended. The parser answers 0.0, and does not raise, on the
    empty string, on a string that does not start with [PT], and on a
    string that holds none of the letters H, h, M, m ([PT] alone is one). *)
Theorem parse_duration_lenient (s : string) :
  String.eqb s "" || negb (Str.startswith s "PT") || no_designator s = true ->
  parse_duration_hours (VStr s) = Ok zero.
Proof.
  intros H. unfold parse_duration_hours. cbn [truthy].
  destruct (String.eqb s "") eqn:He; [reflexivity|]. cbn [negb].
  unfold parse_duration_str. rewrite He. cbn [orb] in *.
  destruct (Str.startswith s "PT"); cbn [negb orb] in *; [|reflexivity].
  assert (Hnone : forall l, In l ["h"; "m"]%char ->
            Str.contains (String l "") (Str.lower (Str.replace s "PT" "")) = false).
  { intros l Hl. apply contains_absent.
    apply (lower_no_designator _ l Hl). unfold no_designator, Str.replace.
    apply all_chars_replace. exact H. }
  unfold duration_components.
  rewrite (Hnone "h"%char), (Hnone "m"%char) by (simpl; tauto).
  reflexivity.
Qed.

Lemma parse_duration_lenient_examples :
  parse_duration_hours (VStr "PT") = Ok zero
  /\ parse_duration_hours (VStr "") = Ok zero
  /\ parse_duration_hours (VStr "2H30M") = Ok zero
  /\ parse_duration_hours (VStr "PT12:30") = Ok zero.
Proof.
  split; [|split; [|split]].
  - exact (parse_duration_lenient "PT" eq_refl).
  - exact (parse_duration_lenient "" eq_refl).
  - exact (parse_duration_lenient "2H30M" eq_refl).
  - exact (parse_duration_lenient "PT12:30" eq_refl).
Defined.

(** The claim C8 fails on a malformed token whose hour component is not a
    number: [float] raises, and the parser lets the error through. *)
Lemma parse_duration_raises :
  parse_duration_hours (VStr "PTxH") = Raise ValueError
  /\ parse_duration_hours (VStr "PTxH") <> Ok zero.
Proof. split; [reflexivity | vm_compute; discriminate]. Qed.

(** ** The offer evaluator *)


















(** The offers of the specification: one itinerary of two segments and 20
    hours with one included bag passes, with 1 stop, 20.0 hours and the bag
    in its metrics; with three segments it fails. *)
Example evaluator_examples :
  let bag := [mktraveler [mkfare (Some 1)]] in
  let seg := VDict [] in
  offer_meets_rules
    (encode (mkoffer [mkitinerary [seg; seg] "PT20H"] bag ["TK"] "680.00" "EUR"))
  = (true, mkmetrics (Num.of_Z 20) 1 true false [LAYOVER])
  /\ fst (offer_meets_rules
            (encode (mkoffer [mkitinerary [seg; seg; seg] "PT20H"] bag ["TK"]
                             "680.00" "EUR")))
     = false.
Proof. split; reflexivity. Qed.

(** C9. The evaluator is a total function: it returns a pair on every
    input. Whenever the measuring of the offer fails, whatever the input
    and the failure, the pair is [false] with the metrics as first built:
    0.0 hours, 0 stops, no bag, not premium, no layovers; and the loop that
    called the evaluator goes on to the next offer, keeping nothing. *)
Theorem offer_meets_rules_fails_closed (offer : value) (e : exn) :
  measure offer = Raise e ->
  offer_meets_rules offer = (false, mkmetrics (S754_zero false) 0 false false [])
  /\ (forall valid rest,
        keep_valid valid (offer :: rest) = keep_valid valid rest).
Proof.
  intros H.
  assert (E : offer_meets_rules offer = (false, default_metrics)).
  { unfold offer_meets_rules, try_block. rewrite H. reflexivity. }
  split; [exact E|].
  intros valid rest. unfold keep_valid. cbn [fold_left]. rewrite E.
  reflexivity.
Qed.

(** Malformed offers: not a dictionary; itineraries that cannot be
    iterated; a duration that is not a number. *)
Lemma offer_meets_rules_fails_closed_examples :
  offer_meets_rules (VStr "offer") = (false, default_metrics)
  /\ offer_meets_rules (VDict [("itineraries", VInt 3)]) = (false, default_metrics)
  /\ offer_meets_rules
       (VDict [("itineraries", VList [VDict [("duration", VStr "PTxH")]])])
     = (false, default_metrics)
  /\ keep_valid [] [VNone; priced_offer "680.00"]
     = keep_valid [] [priced_offer "680.00"].
Proof.
  split; [|split; [|split]].
  - exact (proj1 (offer_meets_rules_fails_closed
                    (VStr "offer") AttributeError eq_refl)).
  - exact (proj1 (offer_meets_rules_fails_closed
                    (VDict [("itineraries", VInt 3)]) TypeError eq_refl)).
  - exact (proj1 (offer_meets_rules_fails_closed
                    (VDict [("itineraries",
                             VList [VDict [("duration", VStr "PTxH")]])])
                    ValueError eq_refl)).
  - exact (proj2 (offer_meets_rules_fails_closed VNone AttributeError eq_refl)
                 [] [priced_offer "680.00"]).
Defined.

(** ** The alerts *)







(** The alert thresholds of the specification. *)
Example osaka_alert_examples :
  let offer price hours := mkcompact (VStr price) (VStr "EUR") "TK" 1 hours true false in
  osaka_alert_of [offer "650.0" (Num.of_Z 20)]
  = Ok (Some (mkosaka "≤650€" (offer "650.0" (Num.of_Z 20))))
  /\ osaka_alert_of [offer "680.0" (Num.of_Z 16)]
     = Ok (Some (mkosaka "651–700€ exceptionnel" (offer "680.0" (Num.of_Z 16))))
  /\ osaka_alert_of [offer "680.0" (Num.of_Z 20)] = Ok None
  /\ osaka_alert_of [offer "720.0" (Num.of_Z 16)] = Ok None.
Proof. repeat split; reflexivity. Qed.


(** Against a cheapest direct price of 600: a combination at 850 fires the
    alert, one at 950 does not. *)
Example combo_alert_examples :
  let direct := mkcompact (VStr "600.00") (VStr "EUR") "TK" 1 (Num.of_Z 20) true false in
  let combo t := mkcombo (Num.of_Z t) (VStr "EUR") direct direct "2026-04-01" "2026-04-15" in
  combo_alert_of [direct] [combo 850]
  = Ok (Some (mkcomboalert (combo 850) (Num.of_Z 900)))
  /\ combo_alert_of [direct] [combo 950] = Ok None
  /\ combo_alert_of [] [combo 850] = Ok None
  /\ combo_alert_of [direct] [] = Ok None.
Proof. repeat split; reflexivity. Qed.

(** ** The Amadeus client *)

Lemma headers_cached (st : state) :
  truthy (_token st) = true -> _headers st = (Returned (_token st), st).
Proof. intros H. unfold _headers. rewrite H. reflexivity. Qed.

Lemma after_requests_step (st : state) (w : Z) (n : nat) (ws : list Z) :
  after_requests
    (mkstate (_token st) (posts st) (bearers st ++ [_token st]) (slept st ++ [w]))
    n ws
  = after_requests st (S n) (w :: ws).
Proof.
  unfold after_requests. cbn [_token posts bearers slept repeat].
  rewrite <- !app_assoc. reflexivity.
Qed.

(** A run of rate-limited replies within the retry budget is slept through,
    one wait after each, and the loop goes on with the next reply. *)
Lemma safe_get_loop_retries (max_retries : Z) (rs : list response) :
  forall (attempt : Z) (gets : list response) (st : state),
    truthy (_token st) = true ->
    Forall rate_limited rs ->
    attempt + Z.of_nat (List.length rs) <= max_retries ->
    Forall (fun w => 0 <= w) (waits_from attempt rs) ->
    safe_get_loop max_retries attempt (rs ++ gets) st
    = safe_get_loop max_retries (attempt + Z.of_nat (List.length rs)) gets
        (after_requests st (List.length rs) (waits_from attempt rs)).
Proof.
  induction rs as [|r rs IH]; intros attempt gets st Ht Hrs Hmax Hw.
  - cbn [List.length Z.of_nat app waits_from]. rewrite Z.add_0_r.
    unfold after_requests. cbn [repeat]. rewrite !app_nil_r.
    destruct st; reflexivity.
  - inversion Hrs as [|? ? Hr Hrs']; subst.
    cbn [waits_from] in Hw. inversion Hw as [|? ? Hw0 Hw']; subst.
    cbn [app safe_get_loop]. rewrite (headers_cached st Ht).
    unfold rate_limited in Hr. rewrite Hr. cbn [Z.eqb Pos.eqb].
    cbn [List.length] in Hmax. rewrite Nat2Z.inj_succ in Hmax.
    destruct (Z.gtb_spec (attempt + 1) max_retries) as [Hgt|_]; [lia|].
    unfold sleep. destruct (Z.ltb_spec (wait_seconds r (attempt + 1)) 0) as [Hlt|_];
      [lia|].
    unfold log_bearer. cbn [_token posts bearers slept].
    rewrite IH; cbn [_token]; try assumption; [|lia].
    rewrite after_requests_step. cbn [List.length waits_from].
    rewrite Nat2Z.inj_succ. f_equal. lia.
Qed.

Lemma safe_get_loop_last (max_retries attempt : Z) (r : response)
  (gets : list response) (st : state) :
  truthy (_token st) = true ->
  status_code r <> 429 ->
  safe_get_loop max_retries attempt (r :: gets) st
  = (match raise_for_status r with
     | Ok _ => Returned r
     | Raise e => Raised e
     end, gets, after_requests st 1 []).
Proof.
  intros Ht Hr. cbn [safe_get_loop]. rewrite (headers_cached st Ht).
  destruct (Z.eqb_spec (status_code r) 429) as [E|_]; [contradiction|].
  unfold after_requests, log_bearer. cbn [repeat]. rewrite app_nil_r.
  destruct (raise_for_status r) as [[]|e]; reflexivity.
Qed.

Lemma safe_get_loop_gives_up (max_retries attempt : Z) (r : response)
  (gets : list response) (st : state) :
  truthy (_token st) = true ->
  rate_limited r ->
  max_retries < attempt + 1 ->
  safe_get_loop max_retries attempt (r :: gets) st
  = (Raised (HTTPError 429), gets, after_requests st 1 []).
Proof.
  intros Ht Hr Hmax. cbn [safe_get_loop]. rewrite (headers_cached st Ht).
  unfold rate_limited in Hr. unfold raise_for_status. rewrite Hr.
  cbn [Z.eqb Pos.eqb Z.leb Z.ltb Z.compare Pos.compare Pos.compare_cont andb].
  destruct (Z.gtb_spec (attempt + 1) max_retries) as [_|Hle]; [|lia].
  unfold after_requests, log_bearer. cbn [repeat]. rewrite app_nil_r.
  reflexivity.
Qed.

(** The wait after a rate-limited reply: the header [Retry-After], capped
    at 60, when it is there and [int] reads it; else the capped power of
    two. *)
Lemma wait_seconds_spec (r : response) (attempt : Z) :
  wait_seconds r attempt
  = match retry_after r with
    | Some s =>
        match Num.int_of_str s with
        | Ok n => Z.min 60 n
        | Raise _ => Z.min 60 (2 ^ attempt)
        end
    | None => Z.min 60 (2 ^ attempt)
    end.
Proof.
  unfold wait_seconds, backoff. destruct (retry_after r) as [s|]; [|reflexivity].
  cbn [truthy]. destruct (String.eqb_spec s "") as [-> | _]; reflexivity.
Qed.

(** The retry policy on every sequence of replies whose waits are not
    negative. Up to [max_retries] rate-limited replies are each followed by
    their wait; the next reply ends the call, by a return if its status is
    not an error, by the error otherwise; one rate-limited reply more than
    [max_retries] ends it by the error 429. *)
Lemma safe_get_retry_policy (max_retries : Z) (rs : list response) (r : response)
  (rest : list response) (st : state) :
  truthy (_token st) = true ->
  Forall rate_limited rs ->
  Z.of_nat (List.length rs) <= max_retries ->
  Forall (fun w => 0 <= w) (waits_from 0 rs) ->
  (status_code r <> 429 ->
   _safe_get max_retries (rs ++ r :: rest) st
   = (match raise_for_status r with
      | Ok _ => Returned r
      | Raise e => Raised e
      end, rest, after_requests st (S (List.length rs)) (waits_from 0 rs)))
  /\ (rate_limited r ->
      Z.of_nat (List.length rs) = max_retries ->
      _safe_get max_retries (rs ++ r :: rest) st
      = (Raised (HTTPError 429), rest,
         after_requests st (S (List.length rs)) (waits_from 0 rs))).
Proof.
  intros Ht Hrs Hlen Hw. unfold _safe_get.
  rewrite (safe_get_loop_retries max_retries rs 0 (r :: rest) st Ht Hrs)
    by (cbn; assumption).
  assert (Hstate :
            after_requests (after_requests st (List.length rs) (waits_from 0 rs)) 1 []
            = after_requests st (S (List.length rs)) (waits_from 0 rs)).
  { unfold after_requests. cbn [_token posts bearers slept].
    rewrite app_nil_r, <- app_assoc, <- repeat_app, Nat.add_1_r. reflexivity. }
  split.
  - intros Hr. rewrite safe_get_loop_last by assumption.
    rewrite Hstate. reflexivity.
  - intros Hr Hmax. rewrite safe_get_loop_gives_up by (cbn; (assumption || lia)).
    rewrite Hstate. reflexivity.
Qed.

(** Three rate-limited replies without [Retry-After], then a 200: one
    return, after sleeps of 2, 4 and 8 seconds. *)
Example safe_get_three_retries :
  _safe_get MAX_RETRIES
    [reply 429 None; reply 429 None; reply 429 None; reply 200 None]
    (signed_in "tok" [])
  = (Returned (reply 200 None), [],
     mkstate (VStr "tok") [] (repeat (VStr "tok") 4) [2; 4; 8]).
Proof.
  destruct (safe_get_retry_policy MAX_RETRIES
              [reply 429 None; reply 429 None; reply 429 None]
              (reply 200 None) [] (signed_in "tok" [])) as [H _].
  - reflexivity.
  - repeat constructor.
  - discriminate.
  - repeat constructor; discriminate.
  - exact (H ltac:(discriminate)).
Qed.

(** C1. The claim fails on a rate-limited reply whose [Retry-After] is a
    negative integer: the wait is min(60, -5) = -5, [time.sleep] refuses it,
    and the call ends by a [ValueError], with no sleep, no retry and the
    200 reply never asked for. *)
Theorem safe_get_negative_retry_after :
  wait_seconds (reply 429 (Some "-5")) 1 = -5
  /\ _safe_get MAX_RETRIES [reply 429 (Some "-5"); reply 200 None]
               (signed_in "tok" [])
     = (Raised ValueError, [reply 200 None],
        mkstate (VStr "tok") [] [VStr "tok"] []).
Proof. split; reflexivity. Qed.

(** With a token in the cache, a call never asks for a new one: the token
    and the pending token replies are as before, and every request of the
    call went out under that token. *)
Lemma safe_get_loop_cached (max_retries : Z) (gets : list response) :
  forall (attempt : Z) (st : state),
    truthy (_token st) = true ->
    exists n ws,
      snd (safe_get_loop max_retries attempt gets st) = after_requests st n ws.
Proof.
  induction gets as [|r gets IH]; intros attempt st Ht;
    cbn [safe_get_loop]; rewrite (headers_cached st Ht).
  - exists 0%nat, []. unfold after_requests. cbn [repeat snd].
    rewrite !app_nil_r. destruct st; reflexivity.
  - assert (H1 : log_bearer st (_token st) = after_requests st 1 []).
    { unfold after_requests, log_bearer. cbn [repeat].
      rewrite app_nil_r. reflexivity. }
    destruct (status_code r =? 429).
    + destruct (if attempt + 1 >? max_retries then raise_for_status r else Ok tt).
      * unfold sleep.
        destruct (wait_seconds r (attempt + 1) <? 0).
        -- exists 1%nat, []. exact H1.
        -- unfold log_bearer. cbn [_token posts bearers slept].
           match goal with
           | |- context [safe_get_loop _ ?a _ ?st1] =>
               destruct (IH a st1 Ht) as (n & ws & E)
           end.
           exists (S n), (wait_seconds r (attempt + 1) :: ws).
           rewrite E. apply after_requests_step.
      * exists 1%nat, []. exact H1.
    + destruct (raise_for_status r); exists 1%nat, []; exact H1.
Qed.

(** C2, as amended. The token is kept in the client and reused: a call
    without a token first stores the one the token endpoint grants, and a
    call with a token sends it with every request and asks for no other.
    A reply 401 ends the call by that error at once: no new token is asked
    for and the request is not sent again. *)
Theorem token_cached_no_reauthentication :
  (forall (st : state) (r : response) (later : list response) (body tok : value),
      truthy (_token st) = false ->
      posts st = r :: later ->
      raise_for_status r = Ok tt ->
      json r = Ok body ->
      get body "access_token" VNone = Ok tok ->
      _headers st = (Returned tok, mkstate tok later (bearers st) (slept st)))
  /\ (forall (max_retries : Z) (gets : list response) (st : state),
        truthy (_token st) = true ->
        exists n ws,
          snd (_safe_get max_retries gets st) = after_requests st n ws)
  /\ (forall (max_retries : Z) (r : response) (rest : list response) (st : state),
        truthy (_token st) = true ->
        status_code r = 401 ->
        _safe_get max_retries (r :: rest) st
        = (Raised (HTTPError 401), rest, after_requests st 1 [])).
Proof.
  split; [|split].
  - intros st r later body tok Ht Hp Hr Hj Hg.
    unfold _headers, _auth. rewrite Ht, Hp, Hr, Hj. cbn [negb Py.bind].
    rewrite Hg. reflexivity.
  - intros max_retries gets st Ht. apply safe_get_loop_cached. exact Ht.
  - intros max_retries r rest st Ht Hr. unfold _safe_get.
    rewrite safe_get_loop_last by (assumption || (rewrite Hr; discriminate)).
    unfold raise_for_status. rewrite Hr. reflexivity.
Qed.

Lemma token_cached_examples :
  _headers (mkstate VNone [token_reply "fresh"] [] [])
  = (Returned (VStr "fresh"), signed_in "fresh" [])
  /\ (exists n ws,
        snd (_safe_get MAX_RETRIES [reply 429 None; reply 200 None]
                       (signed_in "fresh" [token_reply "other"]))
        = after_requests (signed_in "fresh" [token_reply "other"]) n ws)
  /\ _safe_get MAX_RETRIES [reply 401 None] (signed_in "fresh" [])
     = (Raised (HTTPError 401), [], after_requests (signed_in "fresh" []) 1 []).
Proof.
  destruct token_cached_no_reauthentication as (Hstore & Hreuse & Hfail).
  split; [|split].
  - exact (Hstore (mkstate VNone [token_reply "fresh"] [] [])
                  (token_reply "fresh") [] _ (VStr "fresh")
                  eq_refl eq_refl eq_refl eq_refl eq_refl).
  - exact (Hreuse MAX_RETRIES [reply 429 None; reply 200 None]
                  (signed_in "fresh" [token_reply "other"]) eq_refl).
  - exact (Hfail MAX_RETRIES (reply 401 None) [] (signed_in "fresh" [])
                 eq_refl eq_refl).
Defined.

(** The claim C2 fails on a reply 401 to a request sent under a cached
    token: the call raises, the token reply that stands ready is not asked
    for, and the reply to a second attempt is left unread. *)
Lemma no_retry_after_401 :
  _safe_get MAX_RETRIES [reply 401 None; reply 200 None]
            (signed_in "expired" [token_reply "fresh"])
  = (Raised (HTTPError 401), [reply 200 None],
     mkstate (VStr "expired") [token_reply "fresh"] [VStr "expired"] []).
Proof. reflexivity. Qed.

(** ** The connecting combinations *)

Lemma for_each_invariant {A S : Type} (P : S -> Prop) (Q : A -> Prop)
  (body : S -> A -> res S) (l : list A) :
  (forall acc x acc', Q x -> P acc -> body acc x = Ok acc' -> P acc') ->
  Forall Q l ->
  forall acc r, P acc -> for_each body l acc = Ok r -> P r.
Proof.
  intros Hbody HQ. induction HQ as [|x l Hx _ IH]; intros acc r Hacc H.
  - injection H as <-. exact Hacc.
  - cbn [for_each] in H. destruct (body acc x) as [acc'|e] eqn:E;
      cbn [Py.bind] in H; [|discriminate].
    exact (IH acc' r (Hbody acc x acc' Hx Hacc E) H).
Qed.

Lemma io_for_each_invariant {A S : Type} (P : S -> Prop) (Q : A -> Prop)
  (body : S -> A -> io S) (l : list A) :
  (forall acc x gets st acc' gets' st',
      Q x -> P acc -> body acc x gets st = (Returned acc', gets', st') -> P acc') ->
  Forall Q l ->
  forall acc gets st r gets' st',
    P acc -> io_for_each body l acc gets st = (Returned r, gets', st') -> P r.
Proof.
  intros Hbody HQ. induction HQ as [|x l Hx _ IH];
    intros acc gets st r gets' st' Hacc H.
  - injection H as <- _ _. exact Hacc.
  - cbn [io_for_each] in H. unfold io_bind in H.
    destruct (body acc x gets st) as [[[acc'|e|] gets1] st1] eqn:E;
      try discriminate.
    exact (IH acc' gets1 st1 r gets' st' (Hbody _ _ _ _ _ _ _ Hx Hacc E) H).
Qed.

Lemma keep_valid_valid (offers : list value) :
  forall valid, Forall valid_leg valid -> Forall valid_leg (keep_valid valid offers).
Proof.
  unfold keep_valid. induction offers as [|off offers IH]; intros valid Hv;
    cbn [fold_left]; [exact Hv|].
  apply IH. destruct (offer_meets_rules off) as [ok metr] eqn:E.
  destruct ok; [|exact Hv].
  apply Forall_app. split; [exact Hv|]. constructor; [|constructor].
  exact E.
Qed.

Lemma search_valid_valid (valid valid' : list valid_offer)
  (gets gets' : list response) (st st' : state) :
  Forall valid_leg valid ->
  search_valid valid gets st = (Returned valid', gets', st') ->
  Forall valid_leg valid'.
Proof.
  intros Hv H. unfold search_valid, io_bind, io_lift, io_ret in H.
  destruct (search_offers gets st) as [[[data|e|] gets1] st1]; try discriminate.
  destruct (iter data) as [offs|e]; [|discriminate].
  injection H as <- _ _. apply keep_valid_valid. exact Hv.
Qed.

Lemma searches_valid (airports : list string) (valid : list valid_offer)
  (gets gets' : list response) (st st' : state) :
  io_for_each (fun valid _ => search_valid valid) airports [] gets st
  = (Returned valid, gets', st') ->
  Forall valid_leg valid.
Proof.
  apply (io_for_each_invariant (Forall valid_leg) (fun _ => True)).
  - intros acc x g s acc' g' s' _ Hacc H.
    exact (search_valid_valid acc acc' g g' s s' Hacc H).
  - apply Forall_forall. intros; exact I.
  - constructor.
Qed.

Lemma combine_ok (CURRENCY : string) (d_a d_b : date) (a b : valid_offer)
  (c : combo) :
  valid_leg a -> valid_leg b ->
  in_window (mkdate 2026 4 1) (mkdate 2026 4 15) d_a ->
  add_days d_a 14 = Ok d_b ->
  combine CURRENCY d_a d_b a b = Ok c ->
  combo_ok c.
Proof.
  intros Ha Hb Hw Hd H. unfold combine in H.
  destruct (get (fst a) "price" (VDict [])) as [price|e]; cbn [Py.bind] in H;
    [|discriminate].
  destruct (get price "currency" (VStr CURRENCY)) as [cur|e]; cbn [Py.bind] in H;
    [|discriminate].
  destruct (compact (fst a) (snd a)) as [leg_a|e] eqn:Ea; cbn [Py.bind] in H;
    [|discriminate].
  destruct (compact (fst b) (snd b)) as [leg_b|e] eqn:Eb; cbn [Py.bind] in H;
    [|discriminate].
  injection H as <-. exists a, b, d_a, d_b.
  cbn [total osa_ceb ceb_par date_osa_ceb date_ceb_par].
  split; [exact Ha|]. split; [exact Hb|]. split; [exact Hw|].
  split; [exact Hd|]. repeat split; assumption.
Qed.

Lemma combinations_ok (CURRENCY : string) (d_a d_b : date)
  (osa_ceb_valid ceb_par_valid : list valid_offer) (acc r : list combo) :
  Forall valid_leg osa_ceb_valid ->
  Forall valid_leg ceb_par_valid ->
  in_window (mkdate 2026 4 1) (mkdate 2026 4 15) d_a ->
  add_days d_a 14 = Ok d_b ->
  Forall combo_ok acc ->
  combinations CURRENCY d_a d_b osa_ceb_valid ceb_par_valid acc = Ok r ->
  Forall combo_ok r.
Proof.
  intros Ha Hb Hw Hd Hacc. unfold combinations.
  apply (for_each_invariant (Forall combo_ok) valid_leg); [|exact Ha|exact Hacc].
  intros acc1 a acc1' Hva Hacc1.
  apply (for_each_invariant (Forall combo_ok) valid_leg); [|exact Hb|exact Hacc1].
  intros acc2 b acc2' Hvb Hacc2 H.
  destruct (combine CURRENCY d_a d_b a b) as [c|e] eqn:E; cbn [Py.bind] in H;
    [|discriminate].
  injection H as <-. apply Forall_app. split; [exact Hacc2|].
  constructor; [|constructor].
  exact (combine_ok CURRENCY d_a d_b a b c Hva Hvb Hw Hd E).
Qed.

Lemma april_window :
  Forall (fun next => forall d, next = Ok d ->
                        in_window (mkdate 2026 4 1) (mkdate 2026 4 15) d)
         (daterange (mkdate 2026 4 1) (mkdate 2026 4 15)).
Proof.
  vm_compute daterange.
  repeat constructor; injection H as <-; reflexivity.
Qed.

Lemma combo_step_ok (CURRENCY : string) (acc r : list combo) (next : res date)
  (gets gets' : list response) (st st' : state) :
  (forall d, next = Ok d -> in_window (mkdate 2026 4 1) (mkdate 2026 4 15) d) ->
  Forall combo_ok acc ->
  combo_step CURRENCY acc next gets st = (Returned r, gets', st') ->
  Forall combo_ok r.
Proof.
  intros Hnext Hacc H. unfold combo_step in H.
  unfold io_bind at 1, io_lift at 1 in H.
  destruct next as [d_a|e]; [|discriminate].
  unfold io_bind at 1, io_lift at 1 in H.
  destruct (add_days d_a 14) as [d_b|e] eqn:Ed; [|discriminate].
  unfold io_bind at 1 in H.
  destruct (io_for_each _ OSAKA_AIRPORTS [] gets st)
    as [[[osa|e|] gets1] st1] eqn:Ea; try discriminate.
  unfold io_bind at 1 in H.
  destruct (io_for_each _ PARIS_AIRPORTS [] gets1 st1)
    as [[[ceb|e|] gets2] st2] eqn:Eb; try discriminate.
  unfold io_lift in H.
  destruct (combinations CURRENCY d_a d_b osa ceb acc) as [r'|e] eqn:Ec;
    [|discriminate].
  injection H as <- _ _.
  apply (combinations_ok CURRENCY d_a d_b osa ceb acc r'); try assumption.
  - exact (searches_valid _ _ _ _ _ _ Ea).
  - exact (searches_valid _ _ _ _ _ _ Eb).
  - exact (Hnext d_a eq_refl).
Qed.

(** C10, as amended. Every combination the orchestrator builds pairs two
    offers that passed the evaluator; its total is the sum of the prices of
    the two legs rounded to two decimals; its first date lies in
    [2026-04-01, 2026-04-15] and its second date is 14 days later. *)
Theorem cebu_combos_invariant (CURRENCY : string) (gets gets' : list response)
  (st st' : state) (combos : list combo) :
  cebu_combos CURRENCY gets st = (Returned combos, gets', st') ->
  Forall combo_ok combos.
Proof.
  unfold cebu_combos.
  apply (io_for_each_invariant
           (Forall combo_ok)
           (fun next => forall d, next = Ok d ->
                          in_window (mkdate 2026 4 1) (mkdate 2026 4 15) d)).
  - intros acc next g s acc' g' s' Hnext Hacc H.
    exact (combo_step_ok CURRENCY acc acc' next g g' s s' Hnext Hacc H).
  - exact april_window.
  - constructor.
Qed.

(** A run that builds one combination: legs at 100.10 and 200.20, total
    300.3, dates 2026-04-01 and 2026-04-15. *)
Lemma cebu_combos_example :
  exists c st',
    cebu_combos "EUR" (one_combo_server "100.10" "200.20") (signed_in "tok" [])
    = (Returned [c], [], st')
    /\ combo_ok c
    /\ total c = Num.of_decimal false 3003 (-1)
    /\ date_osa_ceb c = "2026-04-01"
    /\ date_ceb_par c = "2026-04-15".
Proof.
  destruct (cebu_combos "EUR" (one_combo_server "100.10" "200.20")
                        (signed_in "tok" []))
    as [[out gets'] st'] eqn:E.
  pose proof E as E'. vm_compute in E'.
  injection E' as <- <- <-.
  pose proof (cebu_combos_invariant _ _ _ _ _ _ E) as H.
  inversion H as [|c l Hc _]; subst.
  eexists. eexists. split; [reflexivity|]. split; [exact Hc|].
  repeat split.
Defined.

(** The claim C10 fails on legs priced 100.004 and 200.00: the two prices
    add up to 300.004, and the total of the combination is 300.0. *)
Lemma combo_total_is_rounded :
  exists c st',
    cebu_combos "EUR" (one_combo_server "100.004" "200.00") (signed_in "tok" [])
    = (Returned [c], [], st')
    /\ to_float (c_price (osa_ceb c)) = Ok (get_price (priced_offer "100.004"))
    /\ to_float (c_price (ceb_par c)) = Ok (get_price (priced_offer "200.00"))
    /\ total c = Num.of_Z 300
    /\ total c <> Num.add (get_price (priced_offer "100.004"))
                          (get_price (priced_offer "200.00")).
Proof.
  eexists. eexists. split; [vm_compute; reflexivity|].
  repeat split; vm_compute; discriminate.
Qed.

(** * Further properties *)

(** ** Dates *)

Lemma days_before_year_cycle (a b c e : Z) :
  0 <= b <= 3 -> 0 <= c <= 24 -> 0 <= e <= 3 ->
  _days_before_year (400 * a + 100 * b + 4 * c + e + 1)
  = 146097 * a + 36524 * b + 1461 * c + 365 * e.
Proof.
  intros Hb Hc He. unfold _days_before_year. cbv zeta.
  replace (400 * a + 100 * b + 4 * c + e + 1 - 1)
    with (400 * a + 100 * b + 4 * c + e) by lia.
  Z.div_mod_to_equations. lia.
Qed.

Lemma is_leap_cycle (a b c e : Z) :
  0 <= b <= 3 -> 0 <= c <= 24 -> 0 <= e <= 3 ->
  _is_leap (400 * a + 100 * b + 4 * c + e + 1)
  = (e =? 3) && (negb (c =? 24) || (b =? 3)).
Proof.
  intros Hb Hc He. unfold _is_leap.
  destruct (Z.eqb_spec e 3), (Z.eqb_spec c 24), (Z.eqb_spec b 3);
    repeat match goal with
    | |- context [?x mod ?k =? 0] => destruct (Z.eqb_spec (x mod k) 0)
    end; cbn; try reflexivity; exfalso; Z.div_mod_to_equations; lia.
Qed.

Ltac eval_tables :=
  repeat match goal with
         | |- context [tbl ?t ?k] =>
             let v := eval vm_compute in (tbl t k) in change (tbl t k) with v
         end.

Lemma month_step (r4 : Z) (L : bool) :
  0 <= r4 <= 364 ->
  let month := Z.shiftr (r4 + 50) 5 in
  let preceding :=
    tbl _DAYS_BEFORE_MONTH month + (if (month >? 2) && L then 1 else 0) in
  forall y,
  _is_leap y = L ->
  toordinal
    (if preceding >? r4 then
       mkdate y (month - 1)
         (r4 - (preceding - (tbl _DAYS_IN_MONTH (month - 1)
                             + (if (month - 1 =? 2) && L then 1 else 0))) + 1)
     else mkdate y month (r4 - preceding + 1))
  = _days_before_year y + r4 + 1.
Proof.
  intros Hr. rewrite Z.shiftr_div_pow2 by lia. change (2 ^ 5) with 32.
  assert (Hm : 1 <= (r4 + 50) / 32 <= 12) by (Z.div_mod_to_equations; lia).
  remember ((r4 + 50) / 32) as m eqn:Em. clear Em.
  cbv zeta. intros y HL.
  assert (Hcases : m = 1 \/ m = 2 \/ m = 3 \/ m = 4 \/ m = 5 \/ m = 6 \/ m = 7
                   \/ m = 8 \/ m = 9 \/ m = 10 \/ m = 11 \/ m = 12) by lia.
  repeat match type of Hcases with _ \/ _ => destruct Hcases as [Hcases|Hcases] end;
    subst m; destruct L;
    match goal with
    | |- context [if ?c >? r4 then _ else _] => destruct (Z.gtb_spec c r4) as [H|H]
    end;
    unfold toordinal, _ymd2ord, _days_before_month; cbn [year month day];
    rewrite HL; simpl Z.sub in *; eval_tables;
    repeat match goal with
           | H : context [tbl ?t ?k] |- _ =>
               let v := eval vm_compute in (tbl t k) in change (tbl t k) with v in H
           end;
    simpl andb in *; cbv iota in *; lia.
Qed.

Lemma december_31 (y : Z) :
  toordinal (mkdate y 12 31)
  = _days_before_year y + 365 + (if _is_leap y then 1 else 0).
Proof.
  unfold toordinal, _ymd2ord, _days_before_month. cbn [year month day].
  eval_tables. destruct (_is_leap y); cbn; lia.
Qed.

(** Every ordinal is the ordinal of the date it stands for. *)
Lemma toordinal_fromordinal (o : Z) : toordinal (fromordinal o) = o.
Proof.
  unfold fromordinal, _ord2ymd, _DI400Y, _DI100Y, _DI4Y. cbv zeta.
  remember (o - 1) as n eqn:En.
  pose proof (Z.div_mod n 146097 ltac:(lia)) as E1.
  pose proof (Z.mod_pos_bound n 146097 ltac:(lia)) as B1.
  remember (n / 146097) as a eqn:Ea. remember (n mod 146097) as r1 eqn:Er1.
  pose proof (Z.div_mod r1 36524 ltac:(lia)) as E2.
  pose proof (Z.mod_pos_bound r1 36524 ltac:(lia)) as B2.
  remember (r1 / 36524) as b eqn:Eb. remember (r1 mod 36524) as r2 eqn:Er2.
  pose proof (Z.div_mod r2 1461 ltac:(lia)) as E3.
  pose proof (Z.mod_pos_bound r2 1461 ltac:(lia)) as B3.
  remember (r2 / 1461) as c eqn:Ec. remember (r2 mod 1461) as r3 eqn:Er3.
  pose proof (Z.div_mod r3 365 ltac:(lia)) as E4.
  pose proof (Z.mod_pos_bound r3 365 ltac:(lia)) as B4.
  remember (r3 / 365) as e eqn:Ee. remember (r3 mod 365) as r4 eqn:Er4.
  clear Ea Er1 Eb Er2 Ec Er3 Ee Er4.
  assert (Hb : 0 <= b <= 4) by lia.
  assert (Hc : 0 <= c <= 24) by lia.
  assert (He : 0 <= e <= 4) by lia.
  destruct (Z.eqb_spec e 4) as [He4|He4]; cbn [orb].
  - (* the last day of a leap year *)
    rewrite december_31.
    replace (a * 400 + 1 + b * 100 + c * 4 + e - 1)
      with (400 * a + 100 * b + 4 * c + 3 + 1) by lia.
    assert (Hb3 : 0 <= b <= 3) by lia.
    rewrite days_before_year_cycle, is_leap_cycle by lia.
    assert (Hc24 : c <> 24) by lia.
    destruct (Z.eqb_spec c 24); [contradiction|].
    change (3 =? 3) with true. cbn [andb orb negb]. lia.
  - destruct (Z.eqb_spec b 4) as [Hb4|Hb4].
    + rewrite december_31.
      replace (a * 400 + 1 + b * 100 + c * 4 + e - 1)
        with (400 * a + 100 * 3 + 4 * 24 + 3 + 1) by lia.
      rewrite days_before_year_cycle, is_leap_cycle by lia.
      change (3 =? 3) with true. change (24 =? 24) with true.
      cbn [andb orb negb]. lia.
    + assert (Hb3 : 0 <= b <= 3) by lia. assert (He3 : 0 <= e <= 3) by lia.
      rewrite month_step.
      * replace (a * 400 + 1 + b * 100 + c * 4 + e)
          with (400 * a + 100 * b + 4 * c + e + 1) by lia.
        rewrite days_before_year_cycle by lia. lia.
      * lia.
      * replace (a * 400 + 1 + b * 100 + c * 4 + e)
          with (400 * a + 100 * b + 4 * c + e + 1) by lia.
        apply is_leap_cycle; lia.
Qed.

Lemma add_days_ordinal (d d' : date) (n : Z) :
  add_days d n = Ok d' -> toordinal d' = toordinal d + n.
Proof.
  unfold add_days. cbv zeta.
  destruct ((0 <? toordinal d + n) && (toordinal d + n <=? _MAXORDINAL));
    [|discriminate].
  intros H. injection H as <-. apply toordinal_fromordinal.
Qed.

Ltac month_cases m H :=
  let C := fresh "C" in
  assert (C : m = 1 \/ m = 2 \/ m = 3 \/ m = 4 \/ m = 5 \/ m = 6 \/ m = 7
              \/ m = 8 \/ m = 9 \/ m = 10 \/ m = 11 \/ m = 12) by lia;
  repeat match type of C with _ \/ _ => destruct C as [C|C] end; subst m.

Ltac eval_tables_in H :=
  repeat match type of H with
         | context [tbl ?t ?k] =>
             let v := eval vm_compute in (tbl t k) in change (tbl t k) with v in H
         end.

(** The day of the year of a valid date, counted from 0. *)
Lemma day_of_year_bounds (y m d : Z) :
  1 <= m <= 12 -> 1 <= d <= _days_in_month y m ->
  0 <= _days_before_month y m + d - 1 <= 364 + (if _is_leap y then 1 else 0).
Proof.
  intros Hm Hd. unfold _days_in_month in Hd. unfold _days_before_month.
  month_cases m Hm; destruct (_is_leap y); simpl andb in *; cbv iota in *;
    eval_tables; eval_tables_in Hd; lia.
Qed.

Lemma month_day_table :
  forallb (fun L =>
    forallb (fun m =>
      forallb (month_day_checked L m) (map (fun n => 1 + n) (range 31)))
      (map (fun n => 1 + n) (range 12)))
    [true; false] = true.
Proof. vm_compute. reflexivity. Qed.

Lemma month_day_year (y : Z) (L : bool) (n : Z) :
  month_day y L n
  = mkdate y (month (month_day 0 L n)) (day (month_day 0 L n)).
Proof.
  unfold month_day. cbv zeta.
  match goal with |- context [if ?c then _ else _] => destruct c end;
    reflexivity.
Qed.

Lemma month_day_exact (y m d : Z) :
  1 <= m <= 12 -> 1 <= d <= _days_in_month y m ->
  _days_before_month y m + d - 1 <= 364 ->
  month_day y (_is_leap y) (_days_before_month y m + d - 1) = mkdate y m d.
Proof.
  intros Hm Hd Hn. rewrite month_day_year.
  pose proof month_day_table as T.
  rewrite forallb_forall in T.
  assert (HL : In (_is_leap y) [true; false])
    by (destruct (_is_leap y); simpl; tauto).
  specialize (T _ HL). rewrite forallb_forall in T.
  specialize (T m (day_enum 1 12 m Hm)). rewrite forallb_forall in T.
  assert (Hd31 : 1 <= d <= 31).
  { unfold _days_in_month in Hd.
    destruct ((m =? 2) && _is_leap y); [lia|].
    month_cases m Hm; eval_tables_in Hd; lia. }
  specialize (T d (day_enum 1 31 d Hd31)).
  unfold month_day_checked in T. cbv zeta in T.
  unfold _days_in_month in Hd. unfold _days_before_month in *.
  destruct Hd as [_ Hd]. apply Z.leb_le in Hd, Hn. rewrite Hd, Hn in T.
  cbn [andb implb] in T. apply andb_true_iff in T as [Tm Td].
  apply Z.eqb_eq in Tm, Td. rewrite Tm, Td. reflexivity.
Qed.

Lemma ord2ymd_unfold (o : Z) :
  _ord2ymd o
  = let n := o - 1 in
    let n400 := n / 146097 in
    let n := n mod 146097 in
    let n100 := n / 36524 in
    let n := n mod 36524 in
    let n4 := n / 1461 in
    let n := n mod 1461 in
    let n1 := n / 365 in
    let n := n mod 365 in
    let year := n400 * 400 + 1 + n100 * 100 + n4 * 4 + n1 in
    if (n1 =? 4) || (n100 =? 4) then mkdate (year - 1) 12 31
    else month_day year ((n1 =? 3) && (negb (n4 =? 24) || (n100 =? 3))) n.
Proof. reflexivity. Qed.

Lemma last_day_of_year (y m d : Z) :
  1 <= m <= 12 -> 1 <= d <= _days_in_month y m ->
  _days_before_month y m + d - 1 = 365 -> m = 12 /\ d = 31.
Proof.
  intros Hm Hd. unfold _days_in_month in Hd. unfold _days_before_month.
  month_cases m Hm; destruct (_is_leap y); simpl andb in *; cbv iota in *;
    eval_tables; eval_tables_in Hd; lia.
Qed.

(** A valid date is the date its ordinal stands for. *)
Lemma fromordinal_toordinal (d : date) :
  1 <= month d <= 12 ->
  1 <= day d <= _days_in_month (year d) (month d) ->
  fromordinal (toordinal d) = d.
Proof.
  destruct d as [y m dd]. cbn [year month day]. intros Hm Hd.
  pose proof (day_of_year_bounds y m dd Hm Hd) as Hk.
  pose proof (Z.div_mod (y - 1) 400 ltac:(lia)) as F1.
  pose proof (Z.mod_pos_bound (y - 1) 400 ltac:(lia)) as G1.
  remember ((y - 1) / 400) as a eqn:Ea. remember ((y - 1) mod 400) as s1 eqn:Es1.
  pose proof (Z.div_mod s1 100 ltac:(lia)) as F2.
  pose proof (Z.mod_pos_bound s1 100 ltac:(lia)) as G2.
  remember (s1 / 100) as b eqn:Eb. remember (s1 mod 100) as s2 eqn:Es2.
  pose proof (Z.div_mod s2 4 ltac:(lia)) as F3.
  pose proof (Z.mod_pos_bound s2 4 ltac:(lia)) as G3.
  remember (s2 / 4) as c eqn:Ec. remember (s2 mod 4) as e eqn:Ee.
  clear Ea Es1 Eb Es2 Ec Ee.
  assert (Hy : y = 400 * a + 100 * b + 4 * c + e + 1) by lia.
  assert (Hb : 0 <= b <= 3) by lia.
  assert (Hc : 0 <= c <= 24) by lia.
  assert (He : 0 <= e <= 3) by lia.
  pose proof (days_before_year_cycle a b c e Hb Hc He) as Hdby.
  pose proof (is_leap_cycle a b c e Hb Hc He) as Hleap.
  rewrite <- Hy in Hdby, Hleap.
  remember (_days_before_month y m + dd - 1) as k eqn:Ek.
  assert (Ho : toordinal (mkdate y m dd) - 1
               = 146097 * a + 36524 * b + 1461 * c + 365 * e + k).
  { unfold toordinal, _ymd2ord. cbn [year month day]. lia. }
  unfold fromordinal. rewrite ord2ymd_unfold. cbv zeta. rewrite Ho.
  remember (146097 * a + 36524 * b + 1461 * c + 365 * e + k) as n eqn:En.
  pose proof (Z.div_mod n 146097 ltac:(lia)) as E1.
  pose proof (Z.mod_pos_bound n 146097 ltac:(lia)) as B1.
  remember (n / 146097) as a' eqn:Ea'. remember (n mod 146097) as r1 eqn:Er1.
  pose proof (Z.div_mod r1 36524 ltac:(lia)) as E2.
  pose proof (Z.mod_pos_bound r1 36524 ltac:(lia)) as B2.
  remember (r1 / 36524) as b' eqn:Eb'. remember (r1 mod 36524) as r2 eqn:Er2.
  pose proof (Z.div_mod r2 1461 ltac:(lia)) as E3.
  pose proof (Z.mod_pos_bound r2 1461 ltac:(lia)) as B3.
  remember (r2 / 1461) as c' eqn:Ec'. remember (r2 mod 1461) as r3 eqn:Er3.
  pose proof (Z.div_mod r3 365 ltac:(lia)) as E4.
  pose proof (Z.mod_pos_bound r3 365 ltac:(lia)) as B4.
  remember (r3 / 365) as e' eqn:Ee'. remember (r3 mod 365) as r4 eqn:Er4.
  clear Ea' Er1 Eb' Er2 Ec' Er3 Ee' Er4.
  destruct (Z.le_gt_cases k 364) as [Hk364|Hk365].
  - (* an ordinary day *)
    assert (a' = a) by lia. subst a'.
    assert (b' = b) by lia. subst b'.
    assert (c' = c) by lia. subst c'.
    assert (e' = e) by lia. subst e'.
    assert (r4 = k) by lia. subst r4.
    destruct (Z.eqb_spec e 4); [lia|]. destruct (Z.eqb_spec b 4); [lia|].
    cbn [orb].
    replace (a * 400 + 1 + b * 100 + c * 4 + e) with y by lia.
    rewrite <- Hleap. rewrite Ek. apply month_day_exact; try assumption. lia.
  - (* the last day of a leap year *)
    assert (Hk' : k = 365) by (destruct (_is_leap y); lia).
    destruct (last_day_of_year y m dd Hm Hd ltac:(lia)) as [-> ->].
    assert (HL : _is_leap y = true) by (destruct (_is_leap y); [reflexivity|lia]).
    rewrite HL in Hleap. symmetry in Hleap.
    apply andb_true_iff in Hleap as [He3 Hcb]. apply Z.eqb_eq in He3.
    apply orb_true_iff in Hcb as [Hc24|Hb3].
    + apply negb_true_iff, Z.eqb_neq in Hc24.
      assert (a' = a) by lia. subst a'.
      assert (b' = b) by lia. subst b'.
      assert (c' = c) by lia. subst c'.
      assert (e' = 4) by lia. subst e'.
      cbn [Z.eqb Pos.eqb orb]. f_equal. lia.
    + apply Z.eqb_eq in Hb3.
      destruct (Z.eq_dec c 24) as [Hc24|Hc24].
      * assert (a' = a) by lia. subst a'.
        assert (b' = 4) by lia. subst b'.
        assert (c' = 0) by lia. assert (e' = 0) by lia. subst c' e'.
        cbn [Z.eqb Pos.eqb orb]. f_equal. lia.
      * assert (a' = a) by lia. subst a'.
        assert (b' = b) by lia. subst b'.
        assert (c' = c) by lia. subst c'.
        assert (e' = 4) by lia. subst e'.
        cbn [Z.eqb Pos.eqb orb]. f_equal. lia.
Qed.

Lemma days_before_year_step (y : Z) :
  _days_before_year (y + 1)
  = _days_before_year y + 365 + (if _is_leap y then 1 else 0).
Proof.
  unfold _days_before_year, _is_leap. cbv zeta.
  replace (y + 1 - 1) with y by lia.
  destruct (Z.eqb_spec (y mod 4) 0), (Z.eqb_spec (y mod 100) 0),
    (Z.eqb_spec (y mod 400) 0); cbn [andb orb negb];
    Z.div_mod_to_equations; lia.
Qed.

Lemma days_before_year_mono (y1 y2 : Z) :
  y1 <= y2 -> _days_before_year y1 <= _days_before_year y2.
Proof.
  intros H. unfold _days_before_year. cbv zeta.
  Z.div_mod_to_equations. lia.
Qed.

(** Within a year the ordinal follows the month and the day. *)
Lemma day_of_year_month (y m1 d1 m2 d2 : Z) :
  1 <= m1 <= 12 -> 1 <= d1 <= _days_in_month y m1 ->
  1 <= m2 <= 12 -> 1 <= d2 <= _days_in_month y m2 ->
  m1 < m2 ->
  _days_before_month y m1 + d1 < _days_before_month y m2 + d2.
Proof.
  intros Hm1 Hd1 Hm2 Hd2 Hlt. unfold _days_in_month in *.
  unfold _days_before_month.
  month_cases m1 Hm1; month_cases m2 Hm2; try lia;
    destruct (_is_leap y); simpl andb in *; cbv iota in *;
    eval_tables; eval_tables_in Hd1; eval_tables_in Hd2; lia.
Qed.

(** Dates compare as their ordinals do. *)
Lemma cmp_ordinal (a b : date) :
  valid_day a -> valid_day b ->
  Date.cmp a b = (toordinal a ?= toordinal b).
Proof.
  destruct a as [y1 m1 d1], b as [y2 m2 d2]. unfold valid_day, Date.cmp.
  cbn [year month day]. intros [Hm1 Hd1] [Hm2 Hd2].
  pose proof (day_of_year_bounds y1 m1 d1 Hm1 Hd1) as B1.
  pose proof (day_of_year_bounds y2 m2 d2 Hm2 Hd2) as B2.
  unfold toordinal, _ymd2ord. cbn [year month day].
  destruct (Z.compare_spec y1 y2) as [->|Hy|Hy].
  - destruct (Z.compare_spec m1 m2) as [->|Hm|Hm].
    + destruct (Z.compare_spec d1 d2); symmetry;
        [apply Z.compare_eq_iff|apply Z.compare_lt_iff|apply Z.compare_gt_iff]; lia.
    + pose proof (day_of_year_month y2 m1 d1 m2 d2 Hm1 Hd1 Hm2 Hd2 Hm).
      symmetry. apply Z.compare_lt_iff. lia.
    + pose proof (day_of_year_month y2 m2 d2 m1 d1 Hm2 Hd2 Hm1 Hd1 Hm).
      symmetry. apply Z.compare_gt_iff. lia.
  - pose proof (days_before_year_step y1) as S1.
    pose proof (days_before_year_mono (y1 + 1) y2 ltac:(lia)).
    symmetry. apply Z.compare_lt_iff. lia.
  - pose proof (days_before_year_step y2) as S2.
    pose proof (days_before_year_mono (y2 + 1) y1 ltac:(lia)).
    symmetry. apply Z.compare_gt_iff. lia.
Qed.

Lemma valid_date_day (d : date) : valid_date d = true -> valid_day d.
Proof.
  unfold valid_date, valid_day. intros H.
  repeat (apply andb_true_iff in H as [H ?]). lia.
Qed.

Lemma valid_date_ordinal (d : date) :
  valid_date d = true -> 1 <= toordinal d <= _MAXORDINAL.
Proof.
  intros H. pose proof (valid_date_day d H) as [Hm Hd].
  unfold valid_date in H. repeat (apply andb_true_iff in H as [H ?]).
  pose proof (day_of_year_bounds _ _ _ Hm Hd) as B.
  pose proof (days_before_year_step (year d)) as S1.
  pose proof (days_before_year_mono 1 (year d) ltac:(lia)) as M1.
  pose proof (days_before_year_mono (year d + 1) 10000 ltac:(lia)) as M2.
  change (_days_before_year 1) with 0 in M1.
  change (_days_before_year 10000) with 3652059 in M2.
  unfold toordinal, _ymd2ord, _MAXORDINAL. lia.
Qed.

Lemma month_day_valid_table :
  forallb (fun L => forallb (month_day_valid L) (map (fun n => 0 + n) (range 365)))
          [true; false] = true.
Proof. vm_compute. reflexivity. Qed.

Lemma month_day_is_valid (y n : Z) :
  0 <= n <= 364 -> valid_day (month_day y (_is_leap y) n).
Proof.
  intros Hn. rewrite month_day_year. unfold valid_day. cbn [year month day].
  pose proof month_day_valid_table as T. rewrite forallb_forall in T.
  assert (HL : In (_is_leap y) [true; false])
    by (destruct (_is_leap y); simpl; tauto).
  specialize (T _ HL). rewrite forallb_forall in T.
  specialize (T n (day_enum 0 364 n Hn)).
  unfold month_day_valid in T. cbv zeta in T. unfold _days_in_month.
  repeat (apply andb_true_iff in T as [T ?]). lia.
Qed.

(** An ordinal in range stands for a valid date. *)
Lemma fromordinal_valid (o : Z) :
  1 <= o <= _MAXORDINAL -> valid_date (fromordinal o) = true.
Proof.
  unfold _MAXORDINAL. intros Ho.
  unfold fromordinal. rewrite ord2ymd_unfold. cbv zeta.
  remember (o - 1) as n eqn:En.
  pose proof (Z.div_mod n 146097 ltac:(lia)) as E1.
  pose proof (Z.mod_pos_bound n 146097 ltac:(lia)) as B1.
  remember (n / 146097) as a eqn:Ea. remember (n mod 146097) as r1 eqn:Er1.
  pose proof (Z.div_mod r1 36524 ltac:(lia)) as E2.
  pose proof (Z.mod_pos_bound r1 36524 ltac:(lia)) as B2.
  remember (r1 / 36524) as b eqn:Eb. remember (r1 mod 36524) as r2 eqn:Er2.
  pose proof (Z.div_mod r2 1461 ltac:(lia)) as E3.
  pose proof (Z.mod_pos_bound r2 1461 ltac:(lia)) as B3.
  remember (r2 / 1461) as c eqn:Ec. remember (r2 mod 1461) as r3 eqn:Er3.
  pose proof (Z.div_mod r3 365 ltac:(lia)) as E4.
  pose proof (Z.mod_pos_bound r3 365 ltac:(lia)) as B4.
  remember (r3 / 365) as e eqn:Ee. remember (r3 mod 365) as r4 eqn:Er4.
  clear Ea Er1 Eb Er2 Ec Er3 Ee Er4.
  assert (Ha : 0 <= a <= 24) by lia.
  assert (Hb : 0 <= b <= 4) by lia.
  assert (Hc : 0 <= c <= 24) by lia.
  assert (He : 0 <= e <= 4) by lia.
  destruct ((e =? 4) || (b =? 4)) eqn:Elast.
  - unfold valid_date, _days_in_month. cbn [year month day].
    change (12 =? 2) with false. cbn [andb]. eval_tables.
    apply orb_true_iff in Elast.
    assert (1 <= a * 400 + 1 + b * 100 + c * 4 + e - 1 <= 9999)
      by (destruct Elast as [E|E]; apply Z.eqb_eq in E; lia).
    repeat (apply andb_true_iff; split); lia.
  - apply orb_false_iff in Elast as [He4 Hb4]. apply Z.eqb_neq in He4, Hb4.
    assert (Hb3 : 0 <= b <= 3) by lia. assert (He3 : 0 <= e <= 3) by lia.
    rewrite <- (is_leap_cycle a b c e Hb3 Hc He3).
    replace (400 * a + 100 * b + 4 * c + e + 1)
      with (a * 400 + 1 + b * 100 + c * 4 + e) by lia.
    pose proof (month_day_is_valid (a * 400 + 1 + b * 100 + c * 4 + e) r4
                  ltac:(lia)) as [Hm Hd].
    rewrite month_day_year in *. unfold valid_date. cbn [year month day] in *.
    repeat (apply andb_true_iff; split); lia.
Qed.

Lemma leb_ordinal (a b : date) :
  valid_day a -> valid_day b ->
  (Date.leb a b = true <-> toordinal a <= toordinal b).
Proof.
  intros Ha Hb. unfold Date.leb. rewrite (cmp_ordinal a b Ha Hb).
  destruct (Z.compare_spec (toordinal a) (toordinal b)); split;
    intros; try reflexivity; try discriminate; lia.
Qed.

Lemma in_range (k n : Z) : In n (range k) <-> 0 <= n < k.
Proof.
  unfold range. rewrite in_map_iff. split.
  - intros [i [<- Hi]]. apply in_seq in Hi. lia.
  - intros H. exists (Z.to_nat n). split; [lia|]. apply in_seq. lia.
Qed.

Lemma sorted_map_seq {A : Type} (R : A -> A -> Prop) (f : nat -> A)
  (len : nat) :
  forall a,
    (forall i j, (a <= i < j)%nat -> (j < a + len)%nat -> R (f i) (f j)) ->
    StronglySorted R (map f (seq a len)).
Proof.
  induction len as [|len IH]; intros a H; cbn [seq map]; constructor.
  - apply IH. intros i j Hij Hj. apply H; lia.
  - apply Forall_forall. intros x Hx. apply in_map_iff in Hx as [j [<- Hj]].
    apply in_seq in Hj. apply H; lia.
Qed.

(** X1. [daterange] between two dates of the calendar never overflows, and
    yields the days from the first to the last, both included, each of them
    once and in the order of the calendar; it yields nothing when the last
    is before the first. *)
Theorem daterange_days (start stop : date) :
  valid_date start = true ->
  valid_date stop = true ->
  exists days,
    daterange start stop = map Ok days
    /\ (forall d, In d days <->
                  valid_date d = true
                  /\ Date.leb start d = true /\ Date.leb d stop = true)
    /\ StronglySorted (fun a b => Date.cmp a b = Lt) days.
Proof.
  intros Hstart Hstop.
  pose proof (valid_date_ordinal start Hstart) as Bs.
  pose proof (valid_date_ordinal stop Hstop) as Be.
  pose proof (valid_date_day start Hstart) as Vs.
  pose proof (valid_date_day stop Hstop) as Ve.
  set (k := days_between start stop + 1).
  assert (Hk : k = toordinal stop - toordinal start + 1) by reflexivity.
  exists (map (fun n => fromordinal (toordinal start + n)) (range k)).
  split; [|split].
  - unfold daterange. fold k. rewrite map_map. apply map_ext_in.
    intros n Hn. apply in_range in Hn. unfold add_days. cbv zeta.
    destruct (Z.ltb_spec 0 (toordinal start + n)); [|lia].
    destruct (Z.leb_spec (toordinal start + n) _MAXORDINAL); [|lia].
    reflexivity.
  - intros d. rewrite in_map_iff. split.
    + intros [n [<- Hn]]. apply in_range in Hn.
      assert (V : valid_date (fromordinal (toordinal start + n)) = true)
        by (apply fromordinal_valid; lia).
      split; [exact V|]. apply valid_date_day in V.
      rewrite !leb_ordinal, toordinal_fromordinal by assumption. lia.
    + intros [V [H1 H2]]. pose proof (valid_date_day d V) as [Vm Vd].
      rewrite leb_ordinal in H1, H2 by (assumption || (split; assumption)).
      exists (toordinal d - toordinal start). split.
      * replace (toordinal start + (toordinal d - toordinal start))
          with (toordinal d) by lia.
        apply fromordinal_toordinal; assumption.
      * apply in_range. lia.
  - unfold range. rewrite map_map. apply sorted_map_seq.
    intros i j Hij Hj.
    assert (Vi : valid_day (fromordinal (toordinal start + Z.of_nat i)))
      by (apply valid_date_day, fromordinal_valid; lia).
    assert (Vj : valid_day (fromordinal (toordinal start + Z.of_nat j)))
      by (apply valid_date_day, fromordinal_valid; lia).
    rewrite (cmp_ordinal _ _ Vi Vj), !toordinal_fromordinal.
    apply Z.compare_lt_iff. lia.
Qed.

Lemma daterange_days_examples :
  (exists days,
      daterange (mkdate 2024 2 27) (mkdate 2024 3 1) = map Ok days
      /\ (forall d, In d days <->
                    valid_date d = true
                    /\ Date.leb (mkdate 2024 2 27) d = true
                    /\ Date.leb d (mkdate 2024 3 1) = true)
      /\ StronglySorted (fun a b => Date.cmp a b = Lt) days)
  /\ daterange (mkdate 2024 2 27) (mkdate 2024 3 1)
     = map Ok [mkdate 2024 2 27; mkdate 2024 2 28; mkdate 2024 2 29;
               mkdate 2024 3 1]
  /\ daterange (mkdate 2026 4 15) (mkdate 2026 4 1) = [].
Proof.
  split; [|split].
  - exact (daterange_days (mkdate 2024 2 27) (mkdate 2024 3 1)
             eq_refl eq_refl).
  - vm_compute. reflexivity.
  - vm_compute. reflexivity.
Defined.

(** X2. Adding days to a date of the calendar, as [daterange] and the two
    [relativedelta] sums do: either the sum leaves the years 1 to 9999 and
    the addition overflows, or it is the date of the calendar that many days
    away, from which the opposite addition leads back. *)
Theorem add_days_calendar (d : date) (n : Z) :
  valid_date d = true ->
  match add_days d n with
  | Ok d' =>
      valid_date d' = true
      /\ days_between d d' = n
      /\ (Date.leb d d' = true <-> 0 <= n)
      /\ add_days d' (- n) = Ok d
  | Raise e =>
      e = OverflowError
      /\ (toordinal d + n < 1 \/ _MAXORDINAL < toordinal d + n)
  end.
Proof.
  intros V. pose proof (valid_date_ordinal d V) as B.
  pose proof (valid_date_day d V) as Vd.
  unfold add_days. cbv zeta.
  destruct (Z.ltb_spec 0 (toordinal d + n)) as [H1|H1]; cbn [andb].
  - destruct (Z.leb_spec (toordinal d + n) _MAXORDINAL) as [H2|H2].
    + assert (V' : valid_date (fromordinal (toordinal d + n)) = true)
        by (apply fromordinal_valid; lia).
      split; [exact V'|]. unfold days_between.
      rewrite (leb_ordinal _ _ Vd (valid_date_day _ V')).
      rewrite !toordinal_fromordinal. split; [lia|]. split; [lia|].
      destruct (Z.ltb_spec 0 (toordinal d + n + - n)); [|lia].
      destruct (Z.leb_spec (toordinal d + n + - n) _MAXORDINAL); [|lia].
      cbn [andb]. f_equal.
      replace (toordinal d + n + - n) with (toordinal d) by lia.
      apply fromordinal_toordinal; apply Vd.
    + split; [reflexivity|]. right. lia.
  - split; [reflexivity|]. left. lia.
Qed.

Lemma add_days_calendar_examples :
  (valid_date (mkdate 2026 1 15) = true
   /\ days_between (mkdate 2026 1 15) (mkdate 2026 4 15) = 90
   /\ (Date.leb (mkdate 2026 1 15) (mkdate 2026 4 15) = true <-> 0 <= 90)
   /\ add_days (mkdate 2026 4 15) (- 90) = Ok (mkdate 2026 1 15))
  /\ add_days (mkdate 2026 1 15) 90 = Ok (mkdate 2026 4 15)
  /\ add_days (mkdate 9999 12 31) 1 = Raise OverflowError.
Proof.
  split; [|split].
  - exact (add_days_calendar (mkdate 2026 1 15) 90 eq_refl).
  - vm_compute. reflexivity.
  - vm_compute. reflexivity.
Defined.

(** ** The client: bounds and failures *)

Lemma wait_seconds_cap (r : response) (attempt : Z) :
  wait_seconds r attempt <= 60.
Proof.
  rewrite wait_seconds_spec.
  destruct (retry_after r) as [s|]; [destruct (Num.int_of_str s)|]; lia.
Qed.

Lemma headers_slept (st st' : state) (out : outcome value) :
  _headers st = (out, st') -> slept st' = slept st.
Proof.
  unfold _headers, _auth.
  destruct (negb (truthy (_token st))); [|intros H; injection H as _ <-; reflexivity].
  destruct (posts st) as [|r rest]; [intros H; injection H as _ <-; reflexivity|].
  destruct (Py.bind _ _); intros H; injection H as _ <-; reflexivity.
Qed.

(** A call consumes a prefix of the replies: at most [max_retries + 1 - attempt]
    of them; it sleeps at most [max_retries - attempt] times, each time
    between 0 and 60 seconds. *)
Lemma safe_get_loop_bounded (max_retries : Z) (gets : list response) :
  forall (attempt : Z) (st : state) out gets' st',
    attempt <= max_retries ->
    safe_get_loop max_retries attempt gets st = (out, gets', st') ->
    exists used ws,
      gets = used ++ gets'
      /\ Z.of_nat (List.length used) <= max_retries + 1 - attempt
      /\ slept st' = slept st ++ ws
      /\ Z.of_nat (List.length ws) <= max_retries - attempt
      /\ Forall (fun w => 0 <= w <= 60) ws.
Proof.
  induction gets as [|r gets IH]; intros attempt st out gets' st' Ha H;
    cbn [safe_get_loop] in H;
    destruct (_headers st) as [[bearer|e|] st1] eqn:Eh;
    pose proof (headers_slept _ _ _ Eh) as Hs.
  1-3: injection H as _ <- <-; exists [], [];
       repeat split; rewrite ?app_nil_r; try assumption; try constructor;
       cbn; lia.
  2-3: injection H as _ <- <-; exists [], [];
       repeat split; rewrite ?app_nil_r; try assumption; try constructor;
       cbn; lia.
  assert (Hstop : forall o, (o, gets, log_bearer st1 bearer) = (out, gets', st') ->
            exists used ws,
              r :: gets = used ++ gets'
              /\ Z.of_nat (List.length used) <= max_retries + 1 - attempt
              /\ slept st' = slept st ++ ws
              /\ Z.of_nat (List.length ws) <= max_retries - attempt
              /\ Forall (fun w => 0 <= w <= 60) ws).
  { intros o Ho. injection Ho as _ <- <-. exists [r], [].
    cbn [log_bearer slept List.length app].
    repeat split; rewrite ?app_nil_r; try assumption; try constructor;
    cbn; lia. }
  destruct (Z.eqb_spec (status_code r) 429) as [E429|_].
  - destruct (Z.gtb_spec (attempt + 1) max_retries) as [Hgt|Hle].
    + unfold raise_for_status in H. rewrite E429 in H. exact (Hstop _ H).
    + unfold sleep in H.
      destruct (Z.ltb_spec (wait_seconds r (attempt + 1)) 0) as [Hneg|Hpos].
      * exact (Hstop _ H).
      * cbn [log_bearer _token posts bearers slept] in H.
        apply IH in H; [|lia].
        destruct H as (used & ws & Hg & Hu & Hsl & Hw & Hall).
        exists (r :: used), (wait_seconds r (attempt + 1) :: ws).
        cbn [slept] in Hsl. rewrite Hsl, Hs, <- app_assoc. cbn [app List.length].
        rewrite Hg. repeat split; try lia.
        constructor; [|exact Hall].
        pose proof (wait_seconds_cap r (attempt + 1)). lia.
  - destruct (raise_for_status r) as [[]|e]; exact (Hstop _ H).
Qed.

Lemma headers_bearers (st st' : state) (out : outcome value) :
  _headers st = (out, st') -> bearers st' = bearers st.
Proof.
  unfold _headers, _auth.
  destruct (negb (truthy (_token st))); [|intros H; injection H as _ <-; reflexivity].
  destruct (posts st) as [|r rest]; [intros H; injection H as _ <-; reflexivity|].
  destruct (Py.bind _ _); intros H; injection H as _ <-; reflexivity.
Qed.

(** A call that returns has gone through rate-limited replies only, has
    slept once after each, and returns the first reply that is not
    rate-limited, which is no error. *)
Lemma safe_get_loop_returned (max_retries : Z) (gets : list response) :
  forall (attempt : Z) (st : state) r gets' st',
    safe_get_loop max_retries attempt gets st = (Returned r, gets', st') ->
    exists rs ws,
      gets = rs ++ r :: gets'
      /\ Forall rate_limited rs
      /\ ~ rate_limited r
      /\ raise_for_status r = Ok tt
      /\ slept st' = slept st ++ ws
      /\ List.length ws = List.length rs
      /\ List.length (bearers st')
         = (List.length (bearers st) + S (List.length rs))%nat.
Proof.
  induction gets as [|r0 gets IH]; intros attempt st r gets' st' H;
    cbn [safe_get_loop] in H;
    destruct (_headers st) as [[bearer|e|] st1] eqn:Eh; try discriminate.
  pose proof (headers_slept _ _ _ Eh) as Hs.
  pose proof (headers_bearers _ _ _ Eh) as Hb.
  destruct (Z.eqb_spec (status_code r0) 429) as [E429|N429].
  - destruct (if attempt + 1 >? max_retries then raise_for_status r0 else Ok tt);
      [|discriminate].
    unfold sleep in H.
    destruct (wait_seconds r0 (attempt + 1) <? 0); [discriminate|].
    cbn [log_bearer _token posts bearers slept] in H.
    apply IH in H. destruct H as (rs & ws & Hg & Hrs & Hr & Hok & Hsl & Hlen & Hbe).
    exists (r0 :: rs), (wait_seconds r0 (attempt + 1) :: ws).
    cbn [slept bearers] in Hsl, Hbe.
    rewrite Hsl, Hs, <- app_assoc, Hg, Hbe, Hb, length_app.
    cbn [app List.length]. repeat split; try assumption; try lia.
    constructor; assumption.
  - destruct (raise_for_status r0) as [[]|e] eqn:Eok; [|discriminate].
    injection H as <- <- <-. exists [], [].
    cbn [log_bearer slept bearers app List.length].
    rewrite app_nil_r, length_app, Hb. cbn [List.length].
    repeat split; try assumption; try constructor; lia.
Qed.

Lemma sum_bounded (ws : list Z) (n : Z) :
  Forall (fun w => 0 <= w <= 60) ws ->
  Z.of_nat (List.length ws) <= n ->
  0 <= fold_right Z.add 0 ws <= 60 * n.
Proof.
  intros H. revert n. induction H as [|w ws Hw _ IH]; intros n Hn;
    cbn [fold_right List.length] in *; [lia|].
  rewrite Nat2Z.inj_succ in Hn. specialize (IH (n - 1) ltac:(lia)). lia.
Qed.

(** X4. Whatever the server answers and however the call ends, [_safe_get]
    sends at most [max_retries + 1] requests and sleeps at most
    [max_retries] times, between 0 and 60 seconds each time. *)
Theorem safe_get_bounded (max_retries : Z) (gets gets' : list response)
  (st st' : state) (out : outcome response) :
  0 <= max_retries ->
  _safe_get max_retries gets st = (out, gets', st') ->
  exists used ws,
    gets = used ++ gets'
    /\ Z.of_nat (List.length used) <= max_retries + 1
    /\ slept st' = slept st ++ ws
    /\ Z.of_nat (List.length ws) <= max_retries
    /\ Forall (fun w => 0 <= w <= 60) ws
    /\ 0 <= fold_right Z.add 0 ws <= 60 * max_retries.
Proof.
  intros Hmax H. unfold _safe_get in H.
  destruct (safe_get_loop_bounded max_retries gets 0 st out gets' st' Hmax H)
    as (used & ws & Hg & Hu & Hsl & Hw & Hall).
  exists used, ws. repeat split; try assumption; try lia.
  - apply (sum_bounded ws max_retries Hall). lia.
  - apply (sum_bounded ws max_retries Hall). lia.
Qed.

(** Under a budget of two retries, three rate-limited replies end the call:
    three requests, two sleeps. *)
Lemma safe_get_bounded_example :
  _safe_get 2 [reply 429 None; reply 429 (Some "75"); reply 429 None;
               reply 200 None] (signed_in "tok" [])
  = (Raised (HTTPError 429), [reply 200 None],
     mkstate (VStr "tok") [] (repeat (VStr "tok") 3) [2; 60])
  /\ exists used ws,
       [reply 429 None; reply 429 (Some "75"); reply 429 None; reply 200 None]
       = used ++ [reply 200 None]
       /\ Z.of_nat (List.length used) <= 2 + 1
       /\ [2; 60] = [] ++ ws
       /\ Z.of_nat (List.length ws) <= 2
       /\ Forall (fun w => 0 <= w <= 60) ws
       /\ 0 <= fold_right Z.add 0 ws <= 60 * 2.
Proof.
  split; [vm_compute; reflexivity|].
  exact (safe_get_bounded 2
           [reply 429 None; reply 429 (Some "75"); reply 429 None; reply 200 None]
           [reply 200 None] (signed_in "tok" [])
           (mkstate (VStr "tok") [] (repeat (VStr "tok") 3) [2; 60])
           (Raised (HTTPError 429)) ltac:(lia) eq_refl).
Defined.

(** X5. A search that returns: the replies it consumed are rate-limited
    ones, six at most, and then the reply whose ["data"] it returns, which
    is no error; one request was sent for each of them. *)
Theorem search_offers_returned (gets gets' : list response) (st st' : state)
  (data : value) :
  search_offers gets st = (Returned data, gets', st') ->
  exists rs r body,
    gets = rs ++ r :: gets'
    /\ Forall rate_limited rs
    /\ (List.length rs <= 6)%nat
    /\ ~ (400 <= status_code r < 600)
    /\ json r = Ok body
    /\ get body "data" (VList []) = Ok data
    /\ List.length (bearers st')
       = (List.length (bearers st) + S (List.length rs))%nat.
Proof.
  unfold search_offers. intros H.
  destruct (_safe_get MAX_RETRIES gets st) as [[[r|e|] gets1] st1] eqn:E;
    try discriminate.
  destruct (json r) as [body|e] eqn:Ej; cbn [Py.bind] in H; [|discriminate].
  destruct (get body "data" (VList [])) as [d|e] eqn:Ed; [|discriminate].
  injection H as <- <- <-.
  unfold _safe_get in E. pose proof E as E'.
  apply safe_get_loop_returned in E
    as (rs & ws & Hg & Hrs & Hr & Hok & Hsl & Hlen & Hbe).
  apply safe_get_loop_bounded in E'; [|unfold MAX_RETRIES; lia].
  destruct E' as (used & ws' & Hg' & Hu & Hsl' & Hw & _).
  exists rs, r, body. repeat split; try assumption.
  - rewrite Hsl in Hsl'. apply app_inv_head in Hsl'. subst ws'.
    unfold MAX_RETRIES in Hw. lia.
  - unfold raise_for_status in Hok. intros [H1 H2].
    destruct (Z.leb_spec 400 (status_code r)); [|lia].
    destruct (Z.ltb_spec (status_code r) 600); [|lia]. discriminate.
Qed.

Lemma search_offers_returned_example :
  search_offers [reply 429 (Some "1"); offers_reply [VInt 7]; reply 200 None]
                (signed_in "tok" [])
  = (Returned (VList [VInt 7]), [reply 200 None],
     mkstate (VStr "tok") [] (repeat (VStr "tok") 2) [1])
  /\ exists rs r body,
       [reply 429 (Some "1"); offers_reply [VInt 7]; reply 200 None]
       = rs ++ r :: [reply 200 None]
       /\ Forall rate_limited rs
       /\ (List.length rs <= 6)%nat
       /\ ~ (400 <= status_code r < 600)
       /\ json r = Ok body
       /\ get body "data" (VList []) = Ok (VList [VInt 7])
       /\ List.length (repeat (VStr "tok") 2)
          = (List.length (@nil value) + S (List.length rs))%nat.
Proof.
  split; [vm_compute; reflexivity|].
  exact (search_offers_returned
           [reply 429 (Some "1"); offers_reply [VInt 7]; reply 200 None]
           [reply 200 None] (signed_in "tok" [])
           (mkstate (VStr "tok") [] (repeat (VStr "tok") 2) [1])
           (VList [VInt 7]) eq_refl).
Defined.

(** X3. A sign-in that the token endpoint refuses, by any error status and
    by 429 too, ends the search by that error at once: the sign-in is not
    tried again, no search request is sent and nothing is slept. *)
Theorem sign_in_refused (gets : list response) (st : state) (r : response)
  (rest : list response) :
  truthy (_token st) = false ->
  posts st = r :: rest ->
  400 <= status_code r < 600 ->
  search_offers gets st
  = (Raised (HTTPError (status_code r)), gets, set_posts st rest).
Proof.
  intros Ht Hp Hr. unfold search_offers, _safe_get.
  assert (Hh : _headers st
               = (Raised (HTTPError (status_code r)), set_posts st rest)).
  { unfold _headers, _auth, raise_for_status. rewrite Ht, Hp. cbn [negb].
    destruct (Z.leb_spec 400 (status_code r)); [|lia].
    destruct (Z.ltb_spec (status_code r) 600); [|lia]. reflexivity. }
  destruct gets as [|g gets]; cbn [safe_get_loop]; rewrite Hh; reflexivity.
Qed.

Lemma sign_in_refused_example :
  search_offers [reply 200 None]
                (mkstate VNone [reply 429 (Some "1"); token_reply "tok"] [] [])
  = (Raised (HTTPError 429), [reply 200 None],
     mkstate VNone [token_reply "tok"] [] []).
Proof.
  exact (sign_in_refused [reply 200 None]
           (mkstate VNone [reply 429 (Some "1"); token_reply "tok"] [] [])
           (reply 429 (Some "1")) [token_reply "tok"]
           eq_refl eq_refl ltac:(cbn; lia)).
Defined.

(** ** The duration parser on other strings *)

Lemma without_differs (cs : list ascii) (x : ascii) (s : string) :
  In x cs -> without cs s = true -> all_chars (differs x) s = true.
Proof.
  intros Hx. apply all_chars_weaken. intros c Hc. unfold differs.
  apply negb_true_iff in Hc. apply negb_true_iff.
  destruct (Ascii.eqb_spec c x) as [->|]; [|reflexivity].
  rewrite <- Hc. symmetry. apply existsb_exists. exists x.
  split; [exact Hx|apply Ascii.eqb_refl].
Qed.

Lemma without_incl (cs cs' : list ascii) (s : string) :
  incl cs' cs -> without cs s = true -> without cs' s = true.
Proof.
  intros Hi. apply all_chars_weaken. intros c Hc.
  apply negb_true_iff in Hc. apply negb_true_iff.
  destruct (existsb (Ascii.eqb c) cs') eqn:E; [|reflexivity].
  apply existsb_exists in E as (x & Hx & Ex). rewrite <- Hc. symmetry.
  apply existsb_exists. exists x. split; [apply Hi; exact Hx|exact Ex].
Qed.

Lemma lower_char_h (c : ascii) :
  existsb (Ascii.eqb c) ["H"; "h"]%char = false ->
  differs "h" (Str.lower_char c) = true.
Proof.
  destruct c as [[] [] [] [] [] [] [] []]; intros H;
    try discriminate H; reflexivity.
Qed.

Lemma lower_without_h (s : string) :
  without ["H"; "h"]%char s = true ->
  all_chars (differs "h") (Str.lower s) = true.
Proof.
  unfold without. induction s as [|c s IH]; simpl; [reflexivity|]. intros H.
  apply andb_true_iff in H as [Hc Hs]. apply negb_true_iff in Hc.
  rewrite (lower_char_h c Hc), (IH Hs). reflexivity.
Qed.

Lemma lower_empty (s : string) : String.eqb (Str.lower s) "" = String.eqb s "".
Proof. destruct s; reflexivity. Qed.

(** X6. A duration with hours and minutes, "PT<hours>H<minutes>M<rest>":
    each component is read by [float] in lower case, an empty one counting
    for 0.0, and what follows the M is not read at all. So signs, decimal
    points, exponents and "inf" pass, seconds are dropped, and a component
    [float] cannot read makes the parser raise. *)
Theorem parse_duration_components (hours minutes rest : string) (H M : ascii) :
  without ["P"; "H"; "h"; "M"; "m"]%char hours = true ->
  without ["P"; "H"; "h"; "M"; "m"]%char minutes = true ->
  without ["P"; "H"; "h"]%char rest = true ->
  H = "H"%char \/ H = "h"%char ->
  M = "M"%char \/ M = "m"%char ->
  parse_duration_hours
    (VStr ("PT" ++ hours ++ String H (minutes ++ String M rest)))
  = (h <- read_component hours ;;
     m <- read_component minutes ;;
     Ok (Num.add h (Num.div m (Num.of_Z 60)))).
Proof.
  intros Hh Hm Hr HH HM. unfold parse_duration_hours.
  change (truthy (VStr ("PT" ++ hours ++ String H (minutes ++ String M rest))))
    with true.
  cbn [negb].
  assert (HlH : Str.lower_char H = "h"%char) by (destruct HH as [-> | ->]; reflexivity).
  assert (HlM : Str.lower_char M = "m"%char) by (destruct HM as [-> | ->]; reflexivity).
  assert (Hsub : incl ["H"; "h"; "M"; "m"]%char ["P"; "H"; "h"; "M"; "m"]%char)
    by (intros x; simpl; tauto).
  assert (Hsub' : incl ["H"; "h"]%char ["P"; "H"; "h"]%char)
    by (intros x; simpl; tauto).
  assert (Hhours : no_designator hours = true)
    by (exact (without_incl _ _ _ Hsub Hh)).
  assert (Hmins : no_designator minutes = true)
    by (exact (without_incl _ _ _ Hsub Hm)).
  assert (HP5 : In "P"%char ["P"; "H"; "h"; "M"; "m"]%char) by (simpl; tauto).
  assert (HP3 : In "P"%char ["P"; "H"; "h"]%char) by (simpl; tauto).
  assert (Hh2 : In "h"%char ["h"; "m"]%char) by (simpl; tauto).
  assert (Hm2 : In "m"%char ["h"; "m"]%char) by (simpl; tauto).
  rewrite parse_duration_prefixed.
  2:{ rewrite all_chars_app. cbn [all_chars]. rewrite all_chars_app. cbn [all_chars].
      rewrite (without_differs _ "P" hours HP5 Hh).
      rewrite (without_differs _ "P" minutes HP5 Hm).
      rewrite (without_differs _ "P" rest HP3 Hr).
      destruct HH as [-> | ->], HM as [-> | ->]; reflexivity. }
  rewrite lower_app. cbn [Str.lower]. rewrite lower_app. cbn [Str.lower].
  rewrite HlH, HlM.
  pose proof (lower_no_designator hours "h" Hh2 Hhours) as A1.
  pose proof (lower_no_designator minutes "h" Hh2 Hmins) as A2.
  pose proof (lower_no_designator minutes "m" Hm2 Hmins) as A3.
  pose proof (lower_without_h rest (without_incl _ _ _ Hsub' Hr)) as A4.
  unfold duration_components, Str.split.
  rewrite contains_at, (split_at "h" _ _ "" A1).
  rewrite split_absent
    by (rewrite all_chars_app; cbn [all_chars]; rewrite A2, A4; reflexivity).
  cbn [append nth List.length Z.of_nat Pos.of_succ_nat Pos.succ Z.ltb Z.compare
       Pos.compare Pos.compare_cont].
  rewrite contains_at, (split_at "m" _ _ "" A3). cbn [append nth].
  unfold read_component. rewrite !lower_empty.
  destruct (String.eqb hours ""), (String.eqb minutes ""); cbn [Py.bind to_float];
    try reflexivity;
    repeat match goal with
           | |- context [Num.float_of_str ?x] =>
               destruct (Num.float_of_str x); cbn [Py.bind]
           end; reflexivity.
Qed.

Lemma parse_duration_components_examples :
  parse_duration_hours (VStr "PT1H30M45S") = Ok (Num.of_decimal false 15 (-1))
  /\ parse_duration_hours (VStr "PT1.5H0M") = Ok (Num.of_decimal false 15 (-1))
  /\ parse_duration_hours (VStr "PT-2H30M") = Ok (Num.of_decimal true 15 (-1))
  /\ parse_duration_hours (VStr "PTinfH5M") = Ok (S754_infinity false)
  /\ parse_duration_hours (VStr "PT2H30.5.1M") = Raise ValueError.
Proof.
  split; [|split; [|split; [|split]]].
  - exact (parse_duration_components "1" "30" "45S" "H" "M" eq_refl eq_refl eq_refl
             (or_introl eq_refl) (or_introl eq_refl)).
  - exact (parse_duration_components "1.5" "0" "" "H" "M" eq_refl eq_refl eq_refl
             (or_introl eq_refl) (or_introl eq_refl)).
  - exact (parse_duration_components "-2" "30" "" "H" "M" eq_refl eq_refl eq_refl
             (or_introl eq_refl) (or_introl eq_refl)).
  - exact (parse_duration_components "inf" "5" "" "H" "M" eq_refl eq_refl eq_refl
             (or_introl eq_refl) (or_introl eq_refl)).
  - exact (parse_duration_components "2" "30.5.1" "" "H" "M" eq_refl eq_refl eq_refl
             (or_introl eq_refl) (or_introl eq_refl)).
Defined.

Lemma lower_char_m (c : ascii) :
  Ascii.eqb (Str.lower_char c) "m" = existsb (Ascii.eqb c) ["M"; "m"]%char.
Proof. destruct c as [[] [] [] [] [] [] [] []]; reflexivity. Qed.

Lemma replace_minutes (s : string) :
  Str.replace_from "m" "" 0 (Str.lower s) = Str.lower (dropping ["M"; "m"]%char s).
Proof.
  induction s as [|c s IH]; [reflexivity|].
  cbn [Str.lower Str.replace_from dropping String.prefix].
  rewrite <- lower_char_m.
  destruct (Ascii.eqb_spec (Str.lower_char c) "m") as [E|N].
  - rewrite E. destruct (ascii_dec "m" "m") as [_|C]; [|contradiction].
    rewrite prefix_empty. cbn [String.length Nat.pred append]. exact IH.
  - destruct (ascii_dec "m" (Str.lower_char c)) as [E|_];
      [symmetry in E; contradiction|].
    cbn [Str.lower]. rewrite IH. reflexivity.
Qed.

Lemma contains_minutes (s : string) :
  Str.contains "m" (Str.lower s) = negb (without ["M"; "m"]%char s).
Proof.
  unfold without. induction s as [|c s IH]; [reflexivity|].
  cbn [Str.lower Str.contains String.prefix all_chars].
  rewrite <- lower_char_m, IH.
  destruct (Ascii.eqb_spec (Str.lower_char c) "m") as [E|N].
  - rewrite E. destruct (ascii_dec "m" "m") as [_|C]; [|contradiction].
    rewrite prefix_empty. reflexivity.
  - destruct (ascii_dec "m" (Str.lower_char c)) as [E|_];
      [symmetry in E; contradiction|].
    reflexivity.
Qed.

(** X7. A duration with minutes and no hours: every M is taken out and
    what is left is read as one number of minutes. So the token of minutes
    alone is read; minutes followed by seconds are not, the digits of the
    seconds and their S being read with the minutes. *)
Theorem parse_duration_minutes_only (s : string) :
  without ["P"; "H"; "h"]%char s = true ->
  without ["M"; "m"]%char s = false ->
  parse_duration_hours (VStr ("PT" ++ s))
  = (m <- read_component (dropping ["M"; "m"]%char s) ;;
     Ok (Num.add zero (Num.div m (Num.of_Z 60)))).
Proof.
  intros Hs Hm. unfold parse_duration_hours.
  change (truthy (VStr ("PT" ++ s))) with true. cbn [negb].
  assert (HP : In "P"%char ["P"; "H"; "h"]%char) by (simpl; tauto).
  assert (Hsub : incl ["H"; "h"]%char ["P"; "H"; "h"]%char)
    by (intros x; simpl; tauto).
  rewrite (parse_duration_prefixed s (without_differs _ "P" s HP Hs)).
  unfold duration_components.
  rewrite (contains_absent "h" _ (lower_without_h s (without_incl _ _ _ Hsub Hs))).
  rewrite contains_minutes, Hm. cbn [negb].
  unfold Str.replace. rewrite replace_minutes.
  unfold read_component. rewrite lower_empty.
  destruct (String.eqb (dropping ["M"; "m"]%char s) ""); cbn [to_float Py.bind].
  - reflexivity.
  - destruct (Num.float_of_str _); reflexivity.
Qed.

Lemma parse_duration_minutes_only_examples :
  parse_duration_hours (VStr "PT45M") = Ok (Num.of_decimal false 75 (-2))
  /\ parse_duration_hours (VStr "PTM") = Ok zero
  /\ parse_duration_hours (VStr "PT4m5M") = Ok (Num.of_decimal false 75 (-2))
  /\ parse_duration_hours (VStr "PT45M30S") = Raise ValueError.
Proof.
  split; [|split; [|split]].
  - exact (parse_duration_minutes_only "45M" eq_refl eq_refl).
  - exact (parse_duration_minutes_only "M" eq_refl eq_refl).
  - exact (parse_duration_minutes_only "4m5M" eq_refl eq_refl).
  - exact (parse_duration_minutes_only "45M30S" eq_refl eq_refl).
Defined.

(** ** The metrics of the evaluator *)

Lemma itinerary_step_layovers (acc acc' : Num.float * Z * list Num.float)
  (itin : value) :
  layovers_match acc -> itinerary_step acc itin = Ok acc' -> layovers_match acc'.
Proof.
  destruct acc as [[t m] ls]. unfold itinerary_step, layovers_match.
  intros (Hm & Hiff & Hall) H.
  destruct (get itin "segments" (VList [])) as [segs|e]; cbn [Py.bind] in H;
    [|discriminate].
  destruct (len segs) as [n|e]; cbn [Py.bind] in H; [|discriminate].
  destruct (get itin "duration" (VStr "PT0H")) as [dur|e]; cbn [Py.bind] in H;
    [|discriminate].
  destruct (parse_duration_hours dur) as [h|e]; cbn [Py.bind] in H;
    [|discriminate].
  injection H as <-. split; [lia|].
  destruct (Z.ltb_spec 1 n) as [Hn|Hn].
  - split; [|apply Forall_app; split; [exact Hall|repeat constructor]].
    split; [intros _ E; destruct ls; discriminate E|lia].
  - split; [|exact Hall]. rewrite <- Hiff. lia.
Qed.

Lemma measure_layovers (offer : value) (m : Metrics) :
  measure offer = Ok m ->
  0 <= stops m
  /\ (0 < stops m <-> layovers m <> [])
  /\ Forall (eq LAYOVER) (layovers m).
Proof.
  unfold measure. intros H.
  destruct (get offer "itineraries" (VList [])) as [its|e]; cbn [Py.bind] in H;
    [|discriminate].
  destruct (iter its) as [itins|e]; cbn [Py.bind] in H; [|discriminate].
  destruct (for_each itinerary_step itins (zero, 0, [])) as [[[t ms] ls]|e] eqn:E;
    cbn [Py.bind] in H; [|discriminate].
  assert (Hinv : layovers_match (t, ms, ls)).
  { apply (for_each_invariant layovers_match (fun _ => True) itinerary_step itins)
      with (acc := (zero, 0, [])); [| | |exact E].
    - intros acc x acc' _. apply itinerary_step_layovers.
    - apply Forall_forall. intros; exact I.
    - cbn. repeat split; try lia; try constructor. intros C; contradiction. }
  repeat match type of H with
         | context [Py.bind ?x _] => destruct x; cbn [Py.bind] in H
         end; try discriminate.
  injection H as <-. exact Hinv.
Qed.

Lemma offer_meets_rules_cases (offer : value) :
  (exists m, measure offer = Ok m /\ offer_meets_rules offer = (rules_ok m, m))
  \/ offer_meets_rules offer = (false, default_metrics).
Proof.
  unfold offer_meets_rules, try_block.
  destruct (measure offer) as [m|e]; [left; exists m; split; reflexivity|].
  right. reflexivity.
Qed.

(** X8. What the evaluator returns for any JSON value at all: the stops
    are not negative; the layovers are placeholders of 1.5 hours, and there
    are some exactly when there is a stop; and the verdict is positive only
    with one stop at most, a checked bag, and a total duration under 25
    hours. *)
Theorem offer_meets_rules_metrics (offer : value) :
  let ok := fst (offer_meets_rules offer) in
  let m := snd (offer_meets_rules offer) in
  0 <= stops m
  /\ (0 < stops m <-> layovers m <> [])
  /\ Forall (eq LAYOVER) (layovers m)
  /\ (ok = true ->
      stops m <= 1 /\ bag_included m = true
      /\ Num.ltb (total_hours m) (Num.of_Z 25) = true
      /\ measure offer = Ok m).
Proof.
  cbv zeta.
  destruct (offer_meets_rules_cases offer) as [(m & Hm & ->)| ->];
    cbn [fst snd].
  - destruct (measure_layovers offer m Hm) as (H1 & H2 & H3).
    repeat split; try assumption; try apply H2;
      unfold rules_ok, BAGGAGE_REQUIRED, MAX_STOPS, MAX_DURATION_HOURS in H;
      cbn [negb orb] in H;
      apply andb_true_iff in H as [H Hb]; apply andb_true_iff in H as [Hs Hh];
      try assumption.
    apply Z.leb_le in Hs. exact Hs.
  - cbn [default_metrics stops layovers]. repeat split; try lia;
      try constructor; try discriminate.
    intros C. contradiction.
Qed.

Lemma layover_is_short :
  Num.leb (Num.of_decimal false 75 (-2)) LAYOVER
  && Num.leb LAYOVER (Num.of_decimal false 25 (-1)) = true.
Proof. vm_compute. reflexivity. Qed.

(** X9. With the layovers the evaluator records, [exceptional_itinerary]
    holds of every offer with a stop, whatever its duration and its carrier:
    the placeholder of 1.5 hours is a short layover. Without a stop it is
    the test on the duration and the carrier alone. *)
Theorem exceptional_with_recorded_layovers (offer : value)
  (duration_hours : Num.float) (premium : bool) :
  let m := snd (offer_meets_rules offer) in
  exceptional_itinerary duration_hours (layovers m) premium
  = (0 <? stops m) || exceptional_itinerary duration_hours [] premium.
Proof.
  cbv zeta.
  assert (H : 0 <= stops (snd (offer_meets_rules offer))
              /\ (0 < stops (snd (offer_meets_rules offer))
                  <-> layovers (snd (offer_meets_rules offer)) <> [])
              /\ Forall (eq LAYOVER) (layovers (snd (offer_meets_rules offer)))).
  { destruct (offer_meets_rules_cases offer) as [(m & Hm & ->)| ->];
      cbn [fst snd].
    - exact (measure_layovers offer m Hm).
    - cbn [default_metrics stops layovers]. repeat split; try lia;
        try constructor. intros C. contradiction. }
  destruct H as (H1 & H2 & H3).
  destruct (layovers (snd (offer_meets_rules offer))) as [|l ls].
  - destruct (Z.ltb_spec 0 (stops (snd (offer_meets_rules offer)))) as [Hs|Hs];
      [|reflexivity].
    apply H2 in Hs. contradiction.
  - destruct (Z.ltb_spec 0 (stops (snd (offer_meets_rules offer)))) as [Hs|Hs].
    + inversion H3 as [|? ? <- _]. unfold exceptional_itinerary.
      cbn [existsb]. rewrite layover_is_short. cbn [orb].
      rewrite orb_true_r. reflexivity.
    + exfalso. assert (0 < stops (snd (offer_meets_rules offer)))
        by (apply H2; discriminate). lia.
Qed.

(** ** Prices and compaction *)

Lemma price_of_compact (offer : value) (m : Metrics) (c : compact_offer) :
  compact offer m = Ok c -> get_price offer = price_or_default c.
Proof.
  unfold compact, get_price, price_or_default. intros H.
  destruct (get offer "price" (VDict [])) as [price|e]; cbn [Py.bind] in *;
    [|discriminate].
  destruct price as [| | | | | |d]; try discriminate H.
  cbn [get Py.bind] in *.
  destruct (get offer "validatingAirlineCodes" (VList [])) as [codes|e];
    cbn [Py.bind] in H; [|discriminate].
  destruct (join "," codes) as [carriers|e]; cbn [Py.bind] in H; [|discriminate].
  injection H as <-. cbn [c_price].
  destruct (lookup "total" d) as [total|]; reflexivity.
Qed.

(** X10. The price [get_price] sorts an offer by is the price its
    compaction shows: the number [float] reads from the compacted price,
    and 1e9 when there is none to read. *)
Theorem compact_price_is_get_price (offer : value) (m : Metrics)
  (c : compact_offer) :
  compact offer m = Ok c -> get_price offer = price_or_default c.
Proof. exact (price_of_compact offer m c). Qed.

(** X11. An offer whose ["price"] is no dictionary: [get_price] answers
    1e9, and [compact] raises. *)
Theorem price_not_a_dict (d : list (string * value)) (p : value) (m : Metrics) :
  lookup "price" d = Some p -> is_dict p = false ->
  get_price (VDict d) = BIG /\ compact (VDict d) m = Raise AttributeError.
Proof.
  intros Hp Hd. unfold get_price, compact. cbn [get]. rewrite Hp.
  cbn [Py.bind]. destruct p; try discriminate Hd; split; reflexivity.
Qed.

Lemma strings_of_not_str (l : list value) :
  forallb is_str l = false -> strings_of l = Raise TypeError.
Proof.
  induction l as [|v l IH]; [discriminate|]. cbn [forallb].
  destruct v; cbn [is_str andb strings_of]; try reflexivity.
  intros H. rewrite (IH H). reflexivity.
Qed.

(** X12. An offer with a carrier code that is no string makes [compact]
    raise, though such a code does not keep an offer from passing the
    evaluator. *)
Theorem compact_carrier_not_a_string (d : list (string * value))
  (codes : list value) (m : Metrics) :
  match lookup "price" d with Some p => is_dict p | None => true end = true ->
  lookup "validatingAirlineCodes" d = Some (VList codes) ->
  forallb is_str codes = false ->
  compact (VDict d) m = Raise TypeError.
Proof.
  intros Hp Hc Hs. unfold compact, join. cbn [get]. rewrite Hc.
  destruct (lookup "price" d) as [p|].
  - destruct p; try discriminate Hp. cbn [get Py.bind iter].
    rewrite (strings_of_not_str codes Hs). reflexivity.
  - cbn [get Py.bind iter lookup]. rewrite (strings_of_not_str codes Hs).
    reflexivity.
Qed.

Lemma compact_price_examples :
  (exists c,
      compact (priced_offer "651.5") default_metrics = Ok c
      /\ c_price c = VStr "651.5"
      /\ get_price (priced_offer "651.5") = price_or_default c)
  /\ (exists c,
         compact (VDict []) default_metrics = Ok c
         /\ c_price c = VNone
         /\ get_price (VDict []) = price_or_default c).
Proof.
  split; eexists; (split; [reflexivity|]); (split; [reflexivity|]).
  - exact (compact_price_is_get_price (priced_offer "651.5") default_metrics _
             eq_refl).
  - exact (compact_price_is_get_price (VDict []) default_metrics _ eq_refl).
Defined.

Lemma price_not_a_dict_examples :
  (get_price (VDict [("price", VStr "12")]) = BIG
   /\ compact (VDict [("price", VStr "12")]) default_metrics
      = Raise AttributeError)
  /\ (get_price (VDict [("price", VNone)]) = BIG
      /\ compact (VDict [("price", VNone)]) default_metrics
         = Raise AttributeError).
Proof.
  split.
  - exact (price_not_a_dict [("price", VStr "12")] (VStr "12") default_metrics
             eq_refl eq_refl).
  - exact (price_not_a_dict [("price", VNone)] VNone default_metrics
             eq_refl eq_refl).
Defined.

Lemma compact_carrier_not_a_string_example :
  fst (offer_meets_rules (VDict numbered_carrier_offer)) = true
  /\ compact (VDict numbered_carrier_offer)
             (snd (offer_meets_rules (VDict numbered_carrier_offer)))
     = Raise TypeError.
Proof.
  split; [vm_compute; reflexivity|].
  exact (compact_carrier_not_a_string numbered_carrier_offer [VInt 7]
           (snd (offer_meets_rules (VDict numbered_carrier_offer)))
           eq_refl eq_refl eq_refl).
Defined.

(** ** The three first of a sort *)

Lemma pos_compare_cont_eq (m n : positive) :
  Pos.compare_cont Eq m n = (Zpos m ?= Zpos n).
Proof. reflexivity. Qed.

Lemma leb_rank (x y : Num.float) :
  is_nan x = false -> is_nan y = false ->
  (Num.leb x y = true <-> lex_le (rank x) (rank y)).
Proof.
  unfold Num.leb, SFleb, SFcompare, lex_le.
  destruct x as [sx|sx| |sx mx ex], y as [sy|sy| |sy my ey];
    try discriminate; intros _ _;
    try destruct sx; try destruct sy; cbn [rank];
    try (split; [intros _; lia | reflexivity]);
    try (split; [discriminate | lia]).
  all: rewrite pos_compare_cont_eq.
  all: destruct (Z.compare_spec ex ey);
       destruct (Z.compare_spec (Zpos mx) (Zpos my)); cbn [CompOpp];
       split; try discriminate; try reflexivity; lia.
Qed.

Lemma ltb_rank (x y : Num.float) :
  is_nan x = false -> is_nan y = false ->
  (Num.ltb x y = false <-> lex_le (rank y) (rank x)).
Proof.
  unfold Num.ltb, SFltb, SFcompare, lex_le.
  destruct x as [sx|sx| |sx mx ex], y as [sy|sy| |sy my ey];
    try discriminate; intros _ _;
    try destruct sx; try destruct sy; cbn [rank];
    try (split; [intros _; lia | reflexivity]);
    try (split; [discriminate | lia]).
  all: rewrite pos_compare_cont_eq.
  all: destruct (Z.compare_spec ex ey);
       destruct (Z.compare_spec (Zpos mx) (Zpos my)); cbn [CompOpp];
       split; try discriminate; try reflexivity; lia.
Qed.

Lemma lex_le_trans (a b c : Z * Z * Z) : lex_le a b -> lex_le b c -> lex_le a c.
Proof.
  destruct a as [[a1 a2] a3], b as [[b1 b2] b3], c as [[c1 c2] c3].
  unfold lex_le. lia.
Qed.

Section SortingFacts.
Context {A : Type}.
Variable key : A -> Num.float.

Lemma insert_by_perm (x : A) (l : list A) :
  Permutation (insert_by key x l) (x :: l).
Proof.
  induction l as [|y l IH]; cbn [insert_by]; [apply Permutation_refl|].
  destruct (Num.ltb (key x) (key y)); [apply Permutation_refl|].
  apply Permutation_trans with (y :: x :: l); [|apply perm_swap].
  apply perm_skip. exact IH.
Qed.

Lemma sorted_from_perm (l acc : list A) :
  Permutation (fold_left (fun acc x => insert_by key x acc) l acc) (acc ++ l).
Proof.
  revert acc. induction l as [|x l IH]; intros acc; cbn [fold_left].
  - rewrite app_nil_r. apply Permutation_refl.
  - apply Permutation_trans with (insert_by key x acc ++ l); [apply IH|].
    apply Permutation_trans with ((x :: acc) ++ l).
    + apply Permutation_app_tail. apply insert_by_perm.
    + apply Permutation_middle.
Qed.

Lemma stable_sort_perm (l : list A) : Permutation (stable_sort key l) l.
Proof. exact (sorted_from_perm l []). Qed.

Lemma pick_perm (i : nat) (l r : list A) (x : A) :
  pick i l = Some (x, r) -> Permutation (x :: r) l.
Proof.
  revert i r. induction l as [|y l IH]; intros i r H; [discriminate|].
  destruct i as [|j]; cbn [pick] in H.
  - injection H as <- <-. apply Permutation_refl.
  - destruct (pick j l) as [[z r']|] eqn:E; [|discriminate].
    injection H as <- <-.
    apply Permutation_trans with (y :: z :: r'); [apply perm_swap|].
    apply perm_skip. exact (IH j r' E).
Qed.

Lemma rearrange_perm (order : list nat) (l : list A) :
  Permutation (rearrange order l) l.
Proof.
  revert l. induction order as [|i order IH]; intros l; cbn [rearrange];
    [apply Permutation_refl|].
  destruct (pick i l) as [[x r]|] eqn:E; [|apply Permutation_refl].
  apply Permutation_trans with (x :: r); [|exact (pick_perm i l r x E)].
  apply perm_skip. apply IH.
Qed.

Lemma pick_in (x : A) (l : list A) :
  In x l -> exists i r, pick i l = Some (x, r).
Proof.
  induction l as [|y l IH]; [intros []|]. intros [->|H].
  - exists 0%nat, l. reflexivity.
  - destruct (IH H) as (i & r & E). exists (S i), (y :: r).
    cbn [pick]. rewrite E. reflexivity.
Qed.

(** An order can name every rearrangement of a list. *)
Lemma rearrange_complete (l' : list A) :
  forall l, Permutation l l' -> exists order, rearrange order l = l'.
Proof.
  induction l' as [|x l' IH]; intros l H.
  - apply Permutation_sym, Permutation_nil in H. subst l.
    exists []. reflexivity.
  - assert (Hx : In x l)
      by (apply (Permutation_in x (Permutation_sym H)); left; reflexivity).
    destruct (pick_in x l Hx) as (i & r & E).
    assert (Hr : Permutation r l').
    { apply (Permutation_cons_inv (a := x)).
      apply Permutation_trans with l; [exact (pick_perm i l r x E)|exact H]. }
    destruct (IH r Hr) as [order Ho]. exists (i :: order).
    cbn [rearrange]. rewrite E, Ho. reflexivity.
Qed.

Lemma sorted_perm (order : list nat) (l : list A) :
  Permutation (sorted key order l) l.
Proof.
  unfold sorted. destruct (forallb _ l);
    [apply stable_sort_perm|apply rearrange_perm].
Qed.

Lemma sorted_real (order : list nat) (l : list A) :
  Forall (real_key key) l -> sorted key order l = stable_sort key l.
Proof.
  intros H. unfold sorted.
  replace (forallb (fun x => negb (is_nan (key x))) l) with true; [reflexivity|].
  symmetry. apply forallb_forall. intros x Hx. rewrite Forall_forall in H.
  unfold real_key in H. rewrite (H x Hx). reflexivity.
Qed.

Lemma key_le_trans (a b c : A) :
  real_key key a -> real_key key b -> real_key key c ->
  key_le key a b -> key_le key b c -> key_le key a c.
Proof.
  unfold key_le, real_key. intros Ha Hb Hc Hab Hbc.
  apply leb_rank in Hab, Hbc; try assumption.
  apply leb_rank; try assumption. exact (lex_le_trans _ _ _ Hab Hbc).
Qed.

Lemma ltb_false_le (a b : A) :
  real_key key a -> real_key key b ->
  Num.ltb (key a) (key b) = false -> key_le key b a.
Proof.
  unfold key_le, real_key. intros Ha Hb H.
  apply ltb_rank in H; try assumption. apply leb_rank; assumption.
Qed.

Lemma ltb_true_le (a b : A) : Num.ltb (key a) (key b) = true -> key_le key a b.
Proof.
  unfold key_le, Num.ltb, Num.leb, SFltb, SFleb.
  destruct (SFcompare (key a) (key b)) as [[| |]|]; try discriminate; reflexivity.
Qed.

Lemma insert_by_sorted (x : A) (l : list A) :
  real_key key x -> Forall (real_key key) l ->
  StronglySorted (key_le key) l ->
  StronglySorted (key_le key) (insert_by key x l).
Proof.
  intros Hx Hl Hs. induction Hs as [|y l Hs IH Hy]; cbn [insert_by].
  - constructor; constructor.
  - inversion Hl as [|? ? Ry Rl]; subst.
    destruct (Num.ltb (key x) (key y)) eqn:E.
    + constructor; [constructor; assumption|].
      apply ltb_true_le in E. constructor; [exact E|].
      rewrite Forall_forall in *. intros z Hz.
      apply (key_le_trans x y z); auto.
    + constructor; [exact (IH Rl)|].
      apply (Permutation_Forall (Permutation_sym (insert_by_perm x l))).
      constructor; [|exact Hy]. apply ltb_false_le; assumption.
Qed.

Lemma sorted_from_sorted (l acc : list A) :
  Forall (real_key key) l -> Forall (real_key key) acc ->
  StronglySorted (key_le key) acc ->
  StronglySorted (key_le key) (fold_left (fun acc x => insert_by key x acc) l acc).
Proof.
  revert acc. induction l as [|x l IH]; intros acc Hl Ha Hs; cbn [fold_left];
    [exact Hs|].
  inversion Hl as [|? ? Rx Rl]; subst. apply IH; [exact Rl| |].
  - apply (Permutation_Forall (Permutation_sym (insert_by_perm x acc))).
    constructor; assumption.
  - apply insert_by_sorted; assumption.
Qed.

Lemma stable_sort_sorted (l : list A) :
  Forall (real_key key) l -> StronglySorted (key_le key) (stable_sort key l).
Proof.
  intros Hl. apply sorted_from_sorted; [exact Hl|constructor|constructor].
Qed.

End SortingFacts.

Section Stability.
Context {A : Type}.
Variable key : A -> Num.float.

Lemma insert_by_filter (k0 : Num.float) (x : A) (acc : list A) :
  is_nan k0 = false -> real_key key x -> Forall (real_key key) acc ->
  StronglySorted (key_le key) acc ->
  filter (same_key key k0) (insert_by key x acc)
  = filter (same_key key k0) acc ++ (if same_key key k0 x then [x] else []).
Proof.
  intros Hk Hx Hacc Hs. induction Hs as [|y l Hs IH Hy]; [reflexivity|].
  inversion Hacc as [|? ? Ry Rl]; subst. cbn [insert_by].
  destruct (Num.ltb (key x) (key y)) eqn:E.
  - cbn [filter].
    destruct (same_key key k0 x) eqn:Px; [|rewrite app_nil_r; reflexivity].
    assert (Hnone : forall z, In z (y :: l) -> same_key key k0 z = false).
    { intros z Hz. destruct (same_key key k0 z) eqn:Pz; [|reflexivity]. exfalso.
      assert (Hyz : key_le key y z).
      { destruct Hz as [<-|Hz].
        - apply leb_rank; try assumption. destruct (rank (key y)) as [[a b] c].
          unfold lex_le. lia.
        - rewrite Forall_forall in Hy. exact (Hy z Hz). }
      assert (Rz : real_key key z).
      { destruct Hz as [<-|Hz]; [exact Ry|].
        rewrite Forall_forall in Rl. exact (Rl z Hz). }
      unfold same_key in Px, Pz.
      apply andb_true_iff in Px as [_ Px]. apply andb_true_iff in Pz as [Pz _].
      unfold key_le, real_key in *.
      apply leb_rank in Px, Pz, Hyz; try assumption.
      pose proof (lex_le_trans _ _ _ Hyz (lex_le_trans _ _ _ Pz Px)) as Hyx.
      apply ltb_rank in Hyx; try assumption. congruence. }
    assert (Hnil : filter (same_key key k0) (y :: l) = []).
    { clear -Hnone. induction (y :: l) as [|z r IHr]; [reflexivity|].
      cbn [filter]. rewrite (Hnone z (or_introl eq_refl)).
      apply IHr. intros w Hw. apply Hnone. right. exact Hw. }
    cbn [filter] in Hnil. rewrite Hnil. reflexivity.
  - cbn [filter]. rewrite (IH Rl).
    destruct (same_key key k0 y); reflexivity.
Qed.

Lemma stable_sort_snoc (l : list A) (x : A) :
  stable_sort key (l ++ [x]) = insert_by key x (stable_sort key l).
Proof. unfold stable_sort. rewrite fold_left_app. reflexivity. Qed.

Lemma stable_sort_stable (k0 : Num.float) (l : list A) :
  is_nan k0 = false -> Forall (real_key key) l ->
  filter (same_key key k0) (stable_sort key l) = filter (same_key key k0) l.
Proof.
  intros Hk. induction l as [|x l IH] using rev_ind; intros Hl; [reflexivity|].
  apply Forall_app in Hl as [Hl Hx]. inversion Hx as [|? ? Rx _]; subst.
  rewrite stable_sort_snoc, insert_by_filter; try assumption.
  - rewrite (IH Hl), filter_app. reflexivity.
  - apply (Permutation_Forall (Permutation_sym (stable_sort_perm key l))).
    exact Hl.
  - apply stable_sort_sorted. exact Hl.
Qed.

End Stability.

Lemma StronglySorted_app {A : Type} (R : A -> A -> Prop) (l1 l2 : list A) :
  StronglySorted R (l1 ++ l2) ->
  StronglySorted R l1 /\ forall a b, In a l1 -> In b l2 -> R a b.
Proof.
  induction l1 as [|x l1 IH]; cbn [app]; intros H.
  - split; [constructor|]. intros a b [].
  - inversion H as [|? ? Hs Hx]; subst. destruct (IH Hs) as [S1 S2].
    apply Forall_app in Hx as [Hx1 Hx2]. split.
    + constructor; assumption.
    + intros a b [<-|Ha] Hb.
      * rewrite Forall_forall in Hx2. exact (Hx2 b Hb).
      * exact (S2 a b Ha Hb).
Qed.

(** On the keys 3, NaN, 1, 2 no key is below the one before it under [<],
    and the sort of CPython returns the list as it is: the rearrangement of
    the empty order. Every rearrangement of the list is the one of some
    order. *)
Example sorted_with_nan :
  let l := [(Num.of_Z 3, 0%nat); (S754_nan, 1%nat); (Num.of_Z 1, 2%nat);
            (Num.of_Z 2, 3%nat)] in
  sorted fst [] l = l
  /\ map snd (top3 fst [] l) = [0; 1; 2]%nat
  /\ forall l', Permutation l l' -> exists order, sorted fst order l = l'.
Proof.
  cbv zeta. split; [reflexivity|]. split; [reflexivity|].
  intros l' H. destruct (rearrange_complete l' _ H) as [order E].
  exists order. exact E.
Qed.

(** X13. The three first of a sort whose keys are numbers, none of them
    NaN, [pick_top3] by price and the best combinations by total: they are
    taken from the list, three of them or the whole list when it is
    shorter; they come by increasing key; no item left out has a smaller
    key than one of them; and items of the same key stay in the order of
    the list, the first of them being the ones taken. *)
Theorem top3_cheapest {A : Type} (key : A -> Num.float) (order : list nat)
  (l : list A) :
  Forall (real_key key) l ->
  exists others,
    Permutation (top3 key order l ++ others) l
    /\ List.length (top3 key order l) = Nat.min 3 (List.length l)
    /\ StronglySorted (key_le key) (top3 key order l)
    /\ (forall a b, In a (top3 key order l) -> In b others -> key_le key a b)
    /\ (forall k0, is_nan k0 = false ->
          exists later,
            filter (same_key key k0) l
            = filter (same_key key k0) (top3 key order l) ++ later).
Proof.
  intros Hreal. unfold top3. rewrite (sorted_real key order l Hreal).
  exists (skipn 3 (stable_sort key l)).
  rewrite firstn_skipn. split; [apply stable_sort_perm|]. split.
  - rewrite length_firstn, (Permutation_length (stable_sort_perm key l)).
    reflexivity.
  - pose proof (stable_sort_sorted key l Hreal) as Hs.
    rewrite <- (firstn_skipn 3 (stable_sort key l)) in Hs.
    destruct (StronglySorted_app _ _ _ Hs) as [S1 S2].
    split; [exact S1|]. split; [exact S2|].
    intros k0 Hk.
    exists (filter (same_key key k0) (skipn 3 (stable_sort key l))).
    rewrite <- filter_app, firstn_skipn. symmetry.
    apply stable_sort_stable; assumption.
Qed.

(** Five offers, two of them at 500 and two at 640: the three first are
    the two at 500, in the order they came, and the first at 640. *)
Lemma top3_cheapest_example :
  map snd (top3 fst [] priced_items) = [2; 4; 1]%nat
  /\ exists others,
       Permutation (top3 fst [] priced_items ++ others) priced_items
       /\ List.length (top3 fst [] priced_items)
          = Nat.min 3 (List.length priced_items)
       /\ StronglySorted (key_le fst) (top3 fst [] priced_items)
       /\ (forall a b, In a (top3 fst [] priced_items) -> In b others ->
                       key_le fst a b)
       /\ (forall k0, is_nan k0 = false ->
             exists later,
               filter (same_key fst k0) priced_items
               = filter (same_key fst k0) (top3 fst [] priced_items) ++ later).
Proof.
  split; [vm_compute; reflexivity|].
  apply (top3_cheapest fst [] priced_items).
  repeat constructor.
Defined.

(** ** The loops on the offers *)

(** X14. The loop [for off in offers: ... if ok: valid.append(off)]
    appends to the list, in the order of the reply, the offers that pass the
    evaluator, each with the metrics the evaluator gave it, and drops the
    others. *)
Theorem keep_valid_passing (valid : list valid_offer) (offers : list value) :
  keep_valid valid offers = valid ++ passing offers.
Proof.
  unfold keep_valid, passing. revert valid.
  induction offers as [|off offers IH]; intros valid; cbn [fold_left filter map].
  - rewrite app_nil_r. reflexivity.
  - rewrite IH. destruct (offer_meets_rules off) as [[|] metr] eqn:E;
      cbn [fst snd map]; rewrite ?E; cbn [snd].
    + rewrite <- app_assoc. reflexivity.
    + reflexivity.
Qed.

Section Product.
Variable CURRENCY : string.

Lemma combinations_row (d_a d_b : date) (a : valid_offer)
  (bs : list valid_offer) :
  forall acc r,
    for_each (fun acc b => c <- combine CURRENCY d_a d_b a b ;; Ok (acc ++ [c]))
             bs acc = Ok r ->
    exists cs,
      r = acc ++ cs
      /\ Forall2 (fun b c => combine CURRENCY d_a d_b a b = Ok c) bs cs.
Proof.
  induction bs as [|b bs IH]; intros acc r H; cbn [for_each] in H.
  - injection H as <-. exists []. rewrite app_nil_r. split; constructor.
  - destruct (combine CURRENCY d_a d_b a b) as [c|e] eqn:E; cbn [Py.bind] in H;
      [|discriminate].
    apply IH in H as (cs & -> & Hcs). exists (c :: cs).
    rewrite <- app_assoc. split; [reflexivity|]. constructor; assumption.
Qed.

Lemma Forall2_map_l {A B C : Type} (f : A -> B) (R : B -> C -> Prop)
  (l : list A) (l' : list C) :
  Forall2 (fun x y => R (f x) y) l l' -> Forall2 R (map f l) l'.
Proof. induction 1; cbn [map]; constructor; assumption. Qed.

(** X15. The two nested loops on the legs build one combination for every
    pair of an outbound and a return offer, by outbound offer first, and add
    them after the ones there already. *)
Theorem combinations_product (d_a d_b : date)
  (osa_ceb_valid ceb_par_valid : list valid_offer)
  (valid_cebu_combo r : list combo) :
  combinations CURRENCY d_a d_b osa_ceb_valid ceb_par_valid valid_cebu_combo
  = Ok r ->
  exists cs,
    r = valid_cebu_combo ++ cs
    /\ Forall2 (fun ab c => combine CURRENCY d_a d_b (fst ab) (snd ab) = Ok c)
               (list_prod osa_ceb_valid ceb_par_valid) cs
    /\ List.length cs
       = (List.length osa_ceb_valid * List.length ceb_par_valid)%nat.
Proof.
  unfold combinations. intros H.
  assert (G : exists cs,
             r = valid_cebu_combo ++ cs
             /\ Forall2 (fun ab c => combine CURRENCY d_a d_b (fst ab) (snd ab) = Ok c)
                        (list_prod osa_ceb_valid ceb_par_valid) cs).
  { revert valid_cebu_combo r H.
    induction osa_ceb_valid as [|a l IH]; intros acc r H;
      cbn [for_each list_prod] in *.
    - injection H as <-. exists []. rewrite app_nil_r. split; constructor.
    - destruct (for_each _ ceb_par_valid acc) as [acc'|e] eqn:E;
        cbn [Py.bind] in H; [|discriminate].
      apply combinations_row in E as (row & -> & Hrow).
      apply IH in H as (cs & -> & Hcs). exists (row ++ cs).
      rewrite <- app_assoc. split; [reflexivity|].
      apply Forall2_app; [|exact Hcs].
      apply Forall2_map_l. exact Hrow. }
  destruct G as (cs & Hr & Hcs). exists cs.
  split; [exact Hr|]. split; [exact Hcs|].
  rewrite <- (Forall2_length Hcs). apply length_prod.
Qed.

End Product.

Lemma combinations_product_example :
  exists r,
    combinations "EUR" (mkdate 2026 4 1) (mkdate 2026 4 15)
      [(priced_offer "100", default_metrics)]
      [(priced_offer "200", default_metrics); (priced_offer "300", default_metrics)]
      [] = Ok r
    /\ map total r = [Num.of_Z 300; Num.of_Z 400]
    /\ exists cs,
         r = [] ++ cs
         /\ Forall2 (fun ab c =>
                       combine "EUR" (mkdate 2026 4 1) (mkdate 2026 4 15)
                               (fst ab) (snd ab) = Ok c)
                    (list_prod
                       [(priced_offer "100", default_metrics)]
                       [(priced_offer "200", default_metrics);
                        (priced_offer "300", default_metrics)]) cs
         /\ List.length cs = (1 * 2)%nat.
Proof.
  destruct (combinations "EUR" (mkdate 2026 4 1) (mkdate 2026 4 15)
              [(priced_offer "100", default_metrics)]
              [(priced_offer "200", default_metrics);
               (priced_offer "300", default_metrics)] []) as [r|e] eqn:E;
    [|vm_compute in E; discriminate E].
  exists r. split; [reflexivity|]. split.
  - pose proof E as E'. vm_compute in E'. injection E' as <-.
    vm_compute. reflexivity.
  - exact (combinations_product "EUR" _ _ _ _ _ _ E).
Defined.

(** ** The whole run *)

Lemma searched_refl (gets : list response) (st : state) :
  searched 0 gets gets st st.
Proof.
  exists [], []. cbn [app filter List.length]. rewrite !app_nil_r.
  repeat split; try constructor; lia.
Qed.

Lemma searched_trans (n k : nat) (g0 g1 g2 : list response) (s0 s1 s2 : state) :
  searched n g0 g1 s0 s1 -> searched k g1 g2 s1 s2 ->
  searched (n + k) g0 g2 s0 s2.
Proof.
  intros (u1 & w1 & Hg1 & Hn1 & Hl1 & Hf1 & Hs1 & Hw1 & Hb1 & He1)
         (u2 & w2 & Hg2 & Hn2 & Hl2 & Hf2 & Hs2 & Hw2 & Hb2 & He2).
  exists (u1 ++ u2), (w1 ++ w2).
  rewrite filter_app, ?length_app, <- ?app_assoc.
  repeat split; rewrite ?length_app; try lia.
  - rewrite Hg1, Hg2. reflexivity.
  - apply Forall_app. split; assumption.
  - rewrite Hs2, Hs1, <- app_assoc. reflexivity.
  - apply Forall_app. split; assumption.
Qed.

Lemma filter_rate_limited (rs : list response) :
  Forall rate_limited rs -> filter answered rs = [].
Proof.
  induction 1 as [|r rs Hr _ IH]; [reflexivity|]. cbn [filter].
  unfold answered. unfold rate_limited in Hr. rewrite Hr. exact IH.
Qed.

Lemma search_offers_searches : searches 1 search_offers.
Proof.
  intros gets st data gets' st' H. unfold search_offers in H.
  destruct (_safe_get MAX_RETRIES gets st) as [[[r|e|] gets1] st1] eqn:E;
    try discriminate.
  destruct (Py.bind (json r) _) as [d|e]; [|discriminate].
  injection H as _ <- <-.
  unfold _safe_get in E. pose proof E as E'.
  apply safe_get_loop_returned in E
    as (rs & ws & Hg & Hrs & Hr & Hok & Hsl & Hlen & Hbe).
  apply safe_get_loop_bounded in E'; [|unfold MAX_RETRIES; lia].
  destruct E' as (used & ws' & Hg' & Hu & Hsl' & Hw & Hall).
  rewrite Hsl in Hsl'. apply app_inv_head in Hsl'. subst ws'.
  unfold MAX_RETRIES in Hw.
  exists (rs ++ [r]), ws.
  rewrite filter_app, (filter_rate_limited rs Hrs), !length_app, <- app_assoc.
  cbn [app filter List.length]. unfold answered.
  destruct (Z.eqb_spec (status_code r) 429) as [E429|_]; [contradiction|].
  cbn [negb List.length]. repeat split; try assumption; try lia.
  apply Forall_app. split.
  - apply Forall_forall. intros x Hx. rewrite Forall_forall in Hrs.
    left. exact (Hrs x Hx).
  - constructor; [|constructor]. right. unfold raise_for_status in Hok.
    intros [H1 H2]. destruct (Z.leb_spec 400 (status_code r)); [|lia].
    destruct (Z.ltb_spec (status_code r) 600); [|lia]. discriminate.
Qed.

Lemma searches_ret {A : Type} (a : A) : searches 0 (io_ret a).
Proof.
  intros gets st a' gets' st' H. injection H as _ <- <-. apply searched_refl.
Qed.

Lemma searches_lift {A : Type} (r : res A) : searches 0 (io_lift r).
Proof.
  intros gets st a' gets' st' H. unfold io_lift in H.
  destruct r; [|discriminate]. injection H as _ <- <-. apply searched_refl.
Qed.

Lemma searches_bind {A B : Type} (n k : nat) (m : io A) (f : A -> io B) :
  searches n m -> (forall a, searches k (f a)) -> searches (n + k) (io_bind m f).
Proof.
  intros Hm Hf gets st b gets' st' H. unfold io_bind in H.
  destruct (m gets st) as [[[a|e|] gets1] st1] eqn:E; try discriminate.
  exact (searched_trans n k _ _ _ _ _ _ (Hm _ _ _ _ _ E) (Hf a _ _ _ _ _ H)).
Qed.

Lemma searches_for_each {A S : Type} (n : nat) (body : S -> A -> io S)
  (l : list A) :
  (forall acc x, searches n (body acc x)) ->
  forall acc, searches (List.length l * n) (io_for_each body l acc).
Proof.
  intros Hbody. induction l as [|x l IH]; intros acc;
    cbn [io_for_each List.length Nat.mul].
  - apply searches_ret.
  - apply searches_bind; [apply Hbody|exact IH].
Qed.

Lemma search_valid_searches (valid : list valid_offer) :
  searches 1 (search_valid valid).
Proof.
  unfold search_valid.
  apply (searches_bind 1 0); [exact search_offers_searches|]. intros offers.
  apply (searches_bind 0 0); [apply searches_lift|]. intros offs.
  apply searches_ret.
Qed.

Lemma osaka_step_searches (valid : list valid_offer) (pair : date * date) :
  searches 6 (osaka_step valid pair).
Proof.
  unfold osaka_step.
  apply (searches_for_each 3 _ PARIS_AIRPORTS). intros acc1 _.
  apply (searches_for_each 1 _ OSAKA_AIRPORTS). intros acc2 _.
  apply (searches_for_each 1 _ (range 1)). intros acc3 _.
  apply search_valid_searches.
Qed.

Lemma pairs_count :
  exists pairs,
    generate_paris_osaka_exact90_pairs = Ok pairs /\ List.length pairs = 15%nat.
Proof. eexists. split; vm_compute; reflexivity. Qed.

Lemma osaka_offers_searches : searches 90 osaka_offers.
Proof.
  unfold osaka_offers. destruct pairs_count as (pairs & E & Hlen).
  intros gets st a gets' st' H. unfold io_bind, io_lift in H. rewrite E in H.
  pose proof (searches_for_each 6 osaka_step pairs osaka_step_searches []
                _ _ _ _ _ H) as Hs.
  rewrite Hlen in Hs. exact Hs.
Qed.

Lemma combo_step_searches (CURRENCY : string) (acc : list combo)
  (next : res date) :
  searches 5 (combo_step CURRENCY acc next).
Proof.
  unfold combo_step.
  apply (searches_bind 0 5); [apply searches_lift|]. intros d_osaceb.
  apply (searches_bind 0 5); [apply searches_lift|]. intros d_cebpar.
  apply (searches_bind 3 2).
  { apply (searches_for_each 1 _ OSAKA_AIRPORTS). intros acc1 _.
    apply search_valid_searches. }
  intros osa_ceb_valid.
  apply (searches_bind 2 0).
  { apply (searches_for_each 1 _ PARIS_AIRPORTS). intros acc1 _.
    apply search_valid_searches. }
  intros ceb_par_valid. apply searches_lift.
Qed.

Lemma april_days :
  List.length (daterange (mkdate 2026 4 1) (mkdate 2026 4 15)) = 15%nat.
Proof. vm_compute. reflexivity. Qed.

Lemma cebu_combos_searches (CURRENCY : string) :
  searches 75 (cebu_combos CURRENCY).
Proof.
  unfold cebu_combos. intros gets st a gets' st' H.
  pose proof (searches_for_each 5 (combo_step CURRENCY) _
                (combo_step_searches CURRENCY) [] _ _ _ _ _ H) as Hs.
  rewrite april_days in Hs. exact Hs.
Qed.

Lemma run_once_from_searches (CURRENCY : string)
  (osaka_order cebu_order : list nat) :
  searches 165 (run_once_from CURRENCY osaka_order cebu_order).
Proof.
  unfold run_once_from.
  apply (searches_bind 90 75); [exact osaka_offers_searches|]. intros valid_osaka.
  apply (searches_bind 0 75); [apply searches_lift|]. intros top3_osaka.
  apply (searches_bind 75 0); [apply cebu_combos_searches|]. intros combos.
  cbv zeta.
  apply (searches_bind 0 0); [apply searches_lift|]. intros alerts.
  apply searches_ret.
Qed.

(** X16. A run that comes to its end has made 165 searches: 90 for the 15
    pairs of dates between Paris and Osaka, 75 for the 15 dates by Cebu.
    Of the replies it consumed, 165 were answers and the others were
    rate-limited; none was an error; each was asked for with a bearer
    token, and each rate-limited one was slept on, 60 seconds at most. *)
Theorem run_once_searches (CURRENCY : string)
  (osaka_order cebu_order : list nat)
  (token_replies gets gets' : list response) (r : result) (st' : state) :
  run_once CURRENCY osaka_order cebu_order token_replies gets
  = (Returned r, gets', st') ->
  exists used,
    gets = used ++ gets'
    /\ List.length (filter answered used) = 165%nat
    /\ (165 <= List.length used <= 1155)%nat
    /\ Forall (fun r => rate_limited r \/ ~ (400 <= status_code r < 600)) used
    /\ List.length (bearers st') = List.length used
    /\ (List.length (slept st') + 165 = List.length used)%nat
    /\ Forall (fun w => 0 <= w <= 60) (slept st').
Proof.
  unfold run_once. intros H.
  destruct (run_once_from_searches CURRENCY _ _ _ _ _ _ _ H)
    as (used & ws & Hg & Hn & Hl & Hf & Hs & Hw & Hb & He).
  cbn [new_client slept bearers app List.length] in Hs, He.
  exists used. rewrite Hs, He.
  repeat split; try assumption; lia.
Qed.

Lemma valid_leg_rules (a : valid_offer) :
  valid_leg a ->
  0 <= stops (snd a) <= 1 /\ bag_included (snd a) = true.
Proof.
  unfold valid_leg. intros H.
  destruct (offer_meets_rules_cases (fst a)) as [(m & Hm & E)|E];
    rewrite E in H; [|discriminate].
  injection H as Hok <-.
  destruct (measure_layovers (fst a) m Hm) as (H0 & _).
  unfold rules_ok, BAGGAGE_REQUIRED, MAX_STOPS in Hok. cbn [negb orb] in Hok.
  apply andb_true_iff in Hok as [Hok Hb]. apply andb_true_iff in Hok as [Hs _].
  apply Z.leb_le in Hs. split; [lia|exact Hb].
Qed.

Lemma compact_fields (offer : value) (m : Metrics) (c : compact_offer) :
  compact offer m = Ok c ->
  c_stops c = stops m /\ c_bag_included c = bag_included m.
Proof.
  unfold compact. intros H.
  repeat match type of H with
         | context [Py.bind ?x _] => destruct x; cbn [Py.bind] in H
         end; try discriminate.
  injection H as <-. split; reflexivity.
Qed.

Lemma reported_leg_of (a : valid_offer) (c : compact_offer) :
  valid_leg a -> compact (fst a) (snd a) = Ok c -> reported_leg c.
Proof.
  intros Hv Hc. destruct (valid_leg_rules a Hv) as [Hs Hb].
  destruct (compact_fields _ _ _ Hc) as [E1 E2].
  unfold reported_leg. rewrite E1, E2.
  split; [exact Hs|]. split; [exact Hb|]. exists a.
  split; [exact Hv|]. split; [exact Hc|]. exact (price_of_compact _ _ _ Hc).
Qed.

Lemma compact_all_reported (offers : list valid_offer) (cs : list compact_offer) :
  Forall valid_leg offers ->
  compact_all offers = Ok cs ->
  Forall reported_leg cs /\ List.length cs = List.length offers.
Proof.
  intros Hv H. unfold compact_all in H.
  assert (G : forall acc r,
             Forall reported_leg acc ->
             for_each (fun acc o => c <- compact (fst o) (snd o) ;; Ok (acc ++ [c]))
                      offers acc = Ok r ->
             Forall reported_leg r
             /\ List.length r = (List.length acc + List.length offers)%nat).
  { clear H. induction Hv as [|a l Ha _ IH]; intros acc r Hacc H.
    - injection H as <-. cbn [List.length]. split; [exact Hacc|lia].
    - cbn [for_each] in H.
      destruct (compact (fst a) (snd a)) as [c|e] eqn:Ec; cbn [Py.bind] in H;
        [|discriminate].
      apply IH in H.
      + destruct H as [H1 H2]. split; [exact H1|].
        rewrite H2, length_app. cbn [List.length]. lia.
      + apply Forall_app. split; [exact Hacc|].
        constructor; [|constructor]. exact (reported_leg_of a c Ha Ec). }
  exact (G [] cs (Forall_nil _) H).
Qed.

Lemma top3_incl {A : Type} (key : A -> Num.float) (order : list nat)
  (l : list A) (x : A) :
  In x (top3 key order l) -> In x l.
Proof.
  unfold top3. intros H.
  apply (Permutation_in x (sorted_perm key order l)).
  rewrite <- (firstn_skipn 3 (sorted key order l)).
  apply in_or_app. left. exact H.
Qed.

Lemma top3_length {A : Type} (key : A -> Num.float) (order : list nat)
  (l : list A) :
  (List.length (top3 key order l) <= 3)%nat.
Proof. unfold top3. rewrite length_firstn. lia. Qed.

Lemma top3_Forall {A : Type} (P : A -> Prop) (key : A -> Num.float)
  (order : list nat) (l : list A) :
  Forall P l -> Forall P (top3 key order l).
Proof.
  rewrite !Forall_forall. intros H x Hx. exact (H x (top3_incl key order l x Hx)).
Qed.

Lemma osaka_offers_valid (valid : list valid_offer) (gets gets' : list response)
  (st st' : state) :
  osaka_offers gets st = (Returned valid, gets', st') -> Forall valid_leg valid.
Proof.
  unfold osaka_offers, io_bind, io_lift.
  destruct generate_paris_osaka_exact90_pairs as [pairs|e]; [|discriminate].
  apply (io_for_each_invariant (Forall valid_leg) (fun _ => True));
    [|apply Forall_forall; intros; exact I|constructor].
  intros acc0 pair g0 s0 acc0' g0' s0' _ Hacc0. unfold osaka_step.
  apply (io_for_each_invariant (Forall valid_leg) (fun _ => True));
    [|apply Forall_forall; intros; exact I|exact Hacc0].
  intros acc1 o g1 s1 acc1' g1' s1' _ Hacc1.
  apply (io_for_each_invariant (Forall valid_leg) (fun _ => True));
    [|apply Forall_forall; intros; exact I|exact Hacc1].
  intros acc2 d g2 s2 acc2' g2' s2' _ Hacc2.
  apply (io_for_each_invariant (Forall valid_leg) (fun _ => True));
    [|apply Forall_forall; intros; exact I|exact Hacc2].
  intros acc3 i g3 s3 acc3' g3' s3' _ Hacc3 H.
  exact (search_valid_valid acc3 acc3' g3 g3' s3 s3' Hacc3 H).
Qed.

Lemma combo_ok_reported (c : combo) : combo_ok c -> reported_combo c.
Proof.
  intros H. split; [exact H|].
  destruct H as (a & b & d_a & d_b & Ha & Hb & _ & _ & _ & _ & Ca & Cb & _).
  split; [exact (reported_leg_of a _ Ha Ca)|exact (reported_leg_of b _ Hb Cb)].
Qed.

Lemma io_bind_returned {A B : Type} (m : io A) (f : A -> io B)
  (gets gets' : list response) (st st' : state) (b : B) :
  io_bind m f gets st = (Returned b, gets', st') ->
  exists a gets1 st1,
    m gets st = (Returned a, gets1, st1)
    /\ f a gets1 st1 = (Returned b, gets', st').
Proof.
  unfold io_bind. intros H.
  destruct (m gets st) as [[[a|e|] gets1] st1]; try discriminate.
  exists a, gets1, st1. split; [reflexivity|exact H].
Qed.

Lemma io_lift_returned {A : Type} (r : res A) (gets gets' : list response)
  (st st' : state) (a : A) :
  io_lift r gets st = (Returned a, gets', st') -> r = Ok a.
Proof.
  unfold io_lift. destruct r; [|discriminate]. intros H.
  injection H as <- _ _. reflexivity.
Qed.

(** X17. What a run that comes to its end returns: three offers at most
    and three combinations at most; every offer it reports, alone or as the
    leg of a combination, is the compaction of an offer that passed the
    evaluator, so has one stop at most and a checked bag; the combinations
    are as the orchestrator builds them; the alerts are the ones of these
    two lists. *)
Theorem run_once_result (CURRENCY : string)
  (osaka_order cebu_order : list nat)
  (token_replies gets gets' : list response) (r : result) (st' : state) :
  run_once CURRENCY osaka_order cebu_order token_replies gets
  = (Returned r, gets', st') ->
  (List.length (top3_osaka r) <= 3)%nat
  /\ (List.length (top3_cebu r) <= 3)%nat
  /\ Forall reported_leg (top3_osaka r)
  /\ Forall reported_combo (top3_cebu r)
  /\ alerts_of (top3_osaka r) (top3_cebu r) = Ok (run_alerts r).
Proof.
  unfold run_once, run_once_from. intros H.
  apply io_bind_returned in H as (valid_osaka & gets1 & st1 & Ea & H).
  apply io_bind_returned in H as (top_osaka & gets2 & st2 & Ec & H).
  apply io_lift_returned in Ec.
  apply io_bind_returned in H as (combos & gets3 & st3 & Eb & H).
  cbv zeta in H.
  apply io_bind_returned in H as (al & gets4 & st4 & El & H).
  apply io_lift_returned in El.
  unfold io_ret in H. injection H as <- _ _.
  cbn [top3_osaka top3_cebu run_alerts].
  pose proof (osaka_offers_valid _ _ _ _ _ Ea) as Hvalid.
  destruct (compact_all_reported (pick_top3 osaka_order valid_osaka) top_osaka
              (top3_Forall valid_leg price osaka_order valid_osaka Hvalid) Ec)
    as [Hrep Hlen].
  assert (Hcombos : Forall combo_ok combos).
  { revert Eb. unfold cebu_combos.
    apply (io_for_each_invariant
             (Forall combo_ok)
             (fun next => forall d, next = Ok d ->
                            in_window (mkdate 2026 4 1) (mkdate 2026 4 15) d)).
    - intros acc next g s acc' g' s' Hnext Hacc H.
      exact (combo_step_ok CURRENCY acc acc' next g g' s s' Hnext Hacc H).
    - exact april_window.
    - constructor. }
  split; [rewrite Hlen; apply top3_length|].
  split; [apply top3_length|].
  split; [exact Hrep|].
  split; [|exact El].
  apply top3_Forall. apply Forall_forall. intros c Hc.
  rewrite Forall_forall in Hcombos. exact (combo_ok_reported c (Hcombos c Hc)).
Qed.

Lemma run_once_searches_example :
  exists r st',
    run_once "EUR" [] [] [token_reply "tok"] one_offer_server = (Returned r, [], st')
    /\ slept st' = [3]
    /\ exists used,
         one_offer_server = used ++ []
         /\ List.length (filter answered used) = 165%nat
         /\ (165 <= List.length used <= 1155)%nat
         /\ Forall (fun r => rate_limited r \/ ~ (400 <= status_code r < 600)) used
         /\ List.length (bearers st') = List.length used
         /\ (List.length (slept st') + 165 = List.length used)%nat
         /\ Forall (fun w => 0 <= w <= 60) (slept st').
Proof.
  destruct (run_once "EUR" [] [] [token_reply "tok"] one_offer_server)
    as [[out gets'] st'] eqn:E.
  pose proof E as E'. vm_compute in E'. injection E' as <- <- <-.
  eexists. eexists. split; [reflexivity|]. split; [reflexivity|].
  exact (run_once_searches _ _ _ _ _ _ _ _ E).
Defined.

Lemma run_once_result_example :
  exists r st',
    run_once "EUR" [] [] [token_reply "tok"] one_offer_server = (Returned r, [], st')
    /\ List.length (top3_osaka r) = 1%nat
    /\ option_map reason (osaka (run_alerts r)) = Some "≤650€"
    /\ (List.length (top3_osaka r) <= 3)%nat
    /\ (List.length (top3_cebu r) <= 3)%nat
    /\ Forall reported_leg (top3_osaka r)
    /\ Forall reported_combo (top3_cebu r)
    /\ alerts_of (top3_osaka r) (top3_cebu r) = Ok (run_alerts r).
Proof.
  destruct (run_once "EUR" [] [] [token_reply "tok"] one_offer_server)
    as [[out gets'] st'] eqn:E.
  pose proof E as E'. vm_compute in E'. injection E' as <- <- <-.
  eexists. eexists. split; [reflexivity|]. split; [reflexivity|].
  split; [reflexivity|].
  exact (run_once_result _ _ _ _ _ _ _ _ E).
Defined.

(** ** One sign-in for a run *)

Section SignIn.

Variable t : response.
Variable tok : value.
Variable rest : list response.
Hypothesis Hgrants : grants t tok.
Hypothesis Htruthy : truthy tok = true.

Lemma headers_sign_in (st st' : state) (out : outcome value) :
  signed_once t tok rest st -> _headers st = (out, st') ->
  out = Returned tok
  /\ _token st' = tok /\ posts st' = rest /\ bearers st' = bearers st
  /\ slept st' = slept st /\ Forall (eq tok) (bearers st').
Proof.
  intros [(Ht & Hp & Hb)|(Ht & Hp & Hb)] H; unfold _headers in H.
  - rewrite Ht in H. cbn [negb] in H. unfold _auth in H. rewrite Hp in H.
    destruct Hgrants as (Hok & d & Hj & Hl). rewrite Hok, Hj in H.
    cbn [Py.bind get] in H. rewrite Hl in H.
    injection H as <- <-. cbn [set_token set_posts _token posts bearers slept].
    rewrite Hb. repeat split. constructor.
  - rewrite Ht, Htruthy in H. cbn [negb] in H. injection H as <- <-.
    repeat split; assumption.
Qed.

Lemma safe_get_loop_sign_in (max_retries : Z) (gets : list response) :
  forall attempt st out gets' st',
    signed_once t tok rest st ->
    safe_get_loop max_retries attempt gets st = (out, gets', st') ->
    signed_once t tok rest st'.
Proof.
  induction gets as [|r gets IH]; intros attempt st out gets' st' Hst H;
    cbn [safe_get_loop] in H;
    destruct (_headers st) as [o st1] eqn:Eh;
    destruct (headers_sign_in st st1 o Hst Eh) as (-> & Ht & Hp & Hb & Hs & Hall).
  - injection H as _ _ <-. right. repeat split; assumption.
  - assert (Hlogged : signed_once t tok rest (log_bearer st1 tok)).
    { right. cbn [log_bearer _token posts bearers]. repeat split; try assumption.
      apply Forall_app. split; [exact Hall|repeat constructor]. }
    destruct (status_code r =? 429).
    + destruct (if attempt + 1 >? max_retries then raise_for_status r else Ok tt).
      * unfold sleep in H.
        destruct (wait_seconds r (attempt + 1) <? 0).
        -- injection H as _ _ <-. exact Hlogged.
        -- apply IH in H; [exact H|]. right.
           cbn [log_bearer _token posts bearers]. repeat split; try assumption.
           apply Forall_app. split; [exact Hall|repeat constructor].
      * injection H as _ _ <-. exact Hlogged.
    + destruct (raise_for_status r) as [[]|e]; injection H as _ _ <-;
        exact Hlogged.
Qed.

Lemma search_offers_sign_in : keeps_sign_in t tok rest search_offers.
Proof.
  intros gets st out gets' st' Hst H. unfold search_offers in H.
  destruct (_safe_get MAX_RETRIES gets st) as [[o gets1] st1] eqn:E.
  pose proof (safe_get_loop_sign_in _ _ _ _ _ _ _ Hst E) as H1.
  destruct o as [r|e|]; [|injection H as _ _ <-; exact H1..].
  destruct (Py.bind (json r) _); injection H as _ _ <-; exact H1.
Qed.

Lemma ret_sign_in {A : Type} (a : A) : keeps_sign_in t tok rest (io_ret a).
Proof. intros gets st out gets' st' Hst H. injection H as _ _ <-. exact Hst. Qed.

Lemma lift_sign_in {A : Type} (r : res A) : keeps_sign_in t tok rest (io_lift r).
Proof.
  intros gets st out gets' st' Hst H. unfold io_lift in H.
  destruct r; injection H as _ _ <-; exact Hst.
Qed.

Lemma bind_sign_in {A B : Type} (m : io A) (f : A -> io B) :
  keeps_sign_in t tok rest m ->
  (forall a, keeps_sign_in t tok rest (f a)) ->
  keeps_sign_in t tok rest (io_bind m f).
Proof.
  intros Hm Hf gets st out gets' st' Hst H. unfold io_bind in H.
  destruct (m gets st) as [[o gets1] st1] eqn:E.
  pose proof (Hm _ _ _ _ _ Hst E) as H1.
  destruct o as [a|e|]; [|injection H as _ _ <-; exact H1..].
  exact (Hf a _ _ _ _ _ H1 H).
Qed.

Lemma for_each_sign_in {A S : Type} (body : S -> A -> io S) (l : list A) :
  (forall acc x, keeps_sign_in t tok rest (body acc x)) ->
  forall acc, keeps_sign_in t tok rest (io_for_each body l acc).
Proof.
  intros Hbody. induction l as [|x l IH]; intros acc; cbn [io_for_each].
  - apply ret_sign_in.
  - apply bind_sign_in; [apply Hbody|exact IH].
Qed.

Lemma search_valid_sign_in (valid : list valid_offer) :
  keeps_sign_in t tok rest (search_valid valid).
Proof.
  unfold search_valid.
  apply bind_sign_in; [exact search_offers_sign_in|]. intros offers.
  apply bind_sign_in; [apply lift_sign_in|]. intros offs. apply ret_sign_in.
Qed.

Lemma run_once_from_sign_in (CURRENCY : string)
  (osaka_order cebu_order : list nat) :
  keeps_sign_in t tok rest (run_once_from CURRENCY osaka_order cebu_order).
Proof.
  unfold run_once_from.
  apply bind_sign_in.
  { unfold osaka_offers. apply bind_sign_in; [apply lift_sign_in|]. intros pairs.
    apply for_each_sign_in. intros acc0 pair. unfold osaka_step.
    apply for_each_sign_in. intros acc1 _.
    apply for_each_sign_in. intros acc2 _.
    apply for_each_sign_in. intros acc3 _. apply search_valid_sign_in. }
  intros valid_osaka.
  apply bind_sign_in; [apply lift_sign_in|]. intros top_osaka.
  apply bind_sign_in.
  { unfold cebu_combos. apply for_each_sign_in. intros acc next.
    unfold combo_step.
    apply bind_sign_in; [apply lift_sign_in|]. intros d_osaceb.
    apply bind_sign_in; [apply lift_sign_in|]. intros d_cebpar.
    apply bind_sign_in.
    { apply for_each_sign_in. intros acc1 _. apply search_valid_sign_in. }
    intros osa. apply bind_sign_in.
    { apply for_each_sign_in. intros acc1 _. apply search_valid_sign_in. }
    intros ceb. apply lift_sign_in. }
  intros combos. cbv zeta.
  apply bind_sign_in; [apply lift_sign_in|]. intros al. apply ret_sign_in.
Qed.

End SignIn.

(** X18. When the token endpoint grants a token, a run signs in once, by
    the first reply of the endpoint, however it ends; and a run that comes
    to its end has sent that token with every one of its requests. *)
Theorem run_once_signs_in_once (CURRENCY : string)
  (osaka_order cebu_order : list nat) (t : response) (tok : value)
  (rest gets gets' : list response) (out : outcome result) (st' : state) :
  grants t tok ->
  truthy tok = true ->
  run_once CURRENCY osaka_order cebu_order (t :: rest) gets
  = (out, gets', st') ->
  (posts st' = t :: rest /\ bearers st' = []
   \/ posts st' = rest /\ _token st' = tok /\ Forall (eq tok) (bearers st'))
  /\ (forall r, out = Returned r ->
        posts st' = rest /\ _token st' = tok
        /\ bearers st' = repeat tok (List.length (bearers st'))
        /\ (165 <= List.length (bearers st'))%nat).
Proof.
  intros Hg Ht H. unfold run_once in H.
  assert (Hinv : signed_once t tok rest st').
  { apply (run_once_from_sign_in t tok rest Hg Ht CURRENCY _ _ _ _ _ _ _)
      with (2 := H).
    left. repeat split. }
  split.
  - destruct Hinv as [(_ & Hp & Hb)|(Htk & Hp & Hb)];
      [left; split; assumption|right; repeat split; assumption].
  - intros r ->.
    destruct (run_once_from_searches CURRENCY _ _ _ _ _ _ _ H)
      as (used & ws & Hgets & Hn & Hl & Hf & Hs & Hw & Hb & He).
    cbn [new_client bearers List.length] in He.
    destruct Hinv as [(_ & _ & Hb0)|(Htk & Hp & Hall)].
    + rewrite Hb0 in He. cbn [List.length] in He. lia.
    + split; [exact Hp|]. split; [exact Htk|]. split; [|lia].
      clear -Hall. induction Hall as [|x l <- _ IH]; [reflexivity|].
      cbn [List.length repeat]. f_equal. exact IH.
Qed.

Lemma run_once_signs_in_once_example :
  exists r st',
    run_once "EUR" [] [] [token_reply "tok"; token_reply "other"] one_offer_server
    = (Returned r, [], st')
    /\ (posts st' = [token_reply "tok"; token_reply "other"] /\ bearers st' = []
        \/ posts st' = [token_reply "other"] /\ _token st' = VStr "tok"
           /\ Forall (eq (VStr "tok")) (bearers st'))
    /\ (forall r', Returned r = Returned r' ->
          posts st' = [token_reply "other"] /\ _token st' = VStr "tok"
          /\ bearers st' = repeat (VStr "tok") (List.length (bearers st'))
          /\ (165 <= List.length (bearers st'))%nat).
Proof.
  destruct (run_once "EUR" [] [] [token_reply "tok"; token_reply "other"]
                     one_offer_server) as [[out gets'] st'] eqn:E.
  pose proof E as E'. vm_compute in E'. injection E' as <- <- <-.
  eexists. eexists. split; [reflexivity|].
  refine (run_once_signs_in_once "EUR" [] [] (token_reply "tok") (VStr "tok")
            [token_reply "other"] one_offer_server [] _ _ _ eq_refl E).
  split; [reflexivity|]. eexists. split; reflexivity.
Defined.

(** ** The cost of a run *)

Lemma spent_refl (n : nat) (gets : list response) (st : state) :
  spent n gets gets st st.
Proof.
  exists [], []. cbn [app List.length]. rewrite app_nil_r.
  repeat split; try constructor; lia.
Qed.

Lemma spent_more (n k : nat) (g0 g1 : list response) (s0 s1 : state) :
  (n <= k)%nat -> spent n g0 g1 s0 s1 -> spent k g0 g1 s0 s1.
Proof.
  intros Hnk (u & w & Hg & Hu & Hs & Hw & Hall). exists u, w.
  repeat split; try assumption; lia.
Qed.

Lemma spent_trans (n k : nat) (g0 g1 g2 : list response) (s0 s1 s2 : state) :
  spent n g0 g1 s0 s1 -> spent k g1 g2 s1 s2 -> spent (n + k) g0 g2 s0 s2.
Proof.
  intros (u1 & w1 & Hg1 & Hu1 & Hs1 & Hw1 & Hb1)
         (u2 & w2 & Hg2 & Hu2 & Hs2 & Hw2 & Hb2).
  exists (u1 ++ u2), (w1 ++ w2). rewrite ?length_app.
  repeat split; try lia.
  - rewrite Hg1, Hg2, app_assoc. reflexivity.
  - rewrite Hs2, Hs1, app_assoc. reflexivity.
  - apply Forall_app. split; assumption.
Qed.

Lemma search_offers_spends : spends 1 search_offers.
Proof.
  intros gets st out gets' st' H. unfold search_offers in H.
  destruct (_safe_get MAX_RETRIES gets st) as [[o gets1] st1] eqn:E.
  unfold _safe_get in E.
  apply safe_get_loop_bounded in E; [|unfold MAX_RETRIES; lia].
  destruct E as (used & ws & Hg & Hu & Hs & Hw & Hall).
  unfold MAX_RETRIES in Hu, Hw.
  assert (G : spent 1 gets gets1 st st1).
  { exists used, ws. repeat split; try assumption; lia. }
  destruct o as [r|e|]; [|injection H as _ <- <-; exact G..].
  destruct (Py.bind (json r) _); injection H as _ <- <-; exact G.
Qed.

Lemma spends_ret {A : Type} (a : A) : spends 0 (io_ret a).
Proof.
  intros gets st out gets' st' H. injection H as _ <- <-. apply spent_refl.
Qed.

Lemma spends_lift {A : Type} (r : res A) : spends 0 (io_lift r).
Proof.
  intros gets st out gets' st' H. unfold io_lift in H.
  destruct r; injection H as _ <- <-; apply spent_refl.
Qed.

Lemma spends_bind {A B : Type} (n k : nat) (m : io A) (f : A -> io B) :
  spends n m -> (forall a, spends k (f a)) -> spends (n + k) (io_bind m f).
Proof.
  intros Hm Hf gets st out gets' st' H. unfold io_bind in H.
  destruct (m gets st) as [[o gets1] st1] eqn:E.
  pose proof (Hm _ _ _ _ _ E) as H1.
  destruct o as [a|e|];
    [|injection H as _ <- <-; apply (spent_more n); [lia|exact H1]..].
  exact (spent_trans n k _ _ _ _ _ _ H1 (Hf a _ _ _ _ _ H)).
Qed.

Lemma spends_for_each {A S : Type} (n : nat) (body : S -> A -> io S)
  (l : list A) :
  (forall acc x, spends n (body acc x)) ->
  forall acc, spends (List.length l * n) (io_for_each body l acc).
Proof.
  intros Hbody. induction l as [|x l IH]; intros acc;
    cbn [io_for_each List.length Nat.mul].
  - apply spends_ret.
  - apply spends_bind; [apply Hbody|exact IH].
Qed.

Lemma search_valid_spends (valid : list valid_offer) :
  spends 1 (search_valid valid).
Proof.
  unfold search_valid.
  apply (spends_bind 1 0); [exact search_offers_spends|]. intros offers.
  apply (spends_bind 0 0); [apply spends_lift|]. intros offs.
  apply spends_ret.
Qed.

Lemma osaka_step_spends (valid : list valid_offer) (pair : date * date) :
  spends 6 (osaka_step valid pair).
Proof.
  unfold osaka_step.
  apply (spends_for_each 3 _ PARIS_AIRPORTS). intros acc1 _.
  apply (spends_for_each 1 _ OSAKA_AIRPORTS). intros acc2 _.
  apply (spends_for_each 1 _ (range 1)). intros acc3 _.
  apply search_valid_spends.
Qed.

Lemma osaka_offers_spends : spends 90 osaka_offers.
Proof.
  unfold osaka_offers. destruct pairs_count as (pairs & E & Hlen).
  intros gets st out gets' st' H. unfold io_bind, io_lift in H. rewrite E in H.
  pose proof (spends_for_each 6 osaka_step pairs osaka_step_spends []
                _ _ _ _ _ H) as Hs.
  rewrite Hlen in Hs. exact Hs.
Qed.

Lemma combo_step_spends (CURRENCY : string) (acc : list combo)
  (next : res date) :
  spends 5 (combo_step CURRENCY acc next).
Proof.
  unfold combo_step.
  apply (spends_bind 0 5); [apply spends_lift|]. intros d_osaceb.
  apply (spends_bind 0 5); [apply spends_lift|]. intros d_cebpar.
  apply (spends_bind 3 2).
  { apply (spends_for_each 1 _ OSAKA_AIRPORTS). intros acc1 _.
    apply search_valid_spends. }
  intros osa_ceb_valid.
  apply (spends_bind 2 0).
  { apply (spends_for_each 1 _ PARIS_AIRPORTS). intros acc1 _.
    apply search_valid_spends. }
  intros ceb_par_valid. apply spends_lift.
Qed.

Lemma cebu_combos_spends (CURRENCY : string) :
  spends 75 (cebu_combos CURRENCY).
Proof.
  unfold cebu_combos. intros gets st out gets' st' H.
  pose proof (spends_for_each 5 (combo_step CURRENCY) _
                (combo_step_spends CURRENCY) [] _ _ _ _ _ H) as Hs.
  rewrite april_days in Hs. exact Hs.
Qed.

Lemma run_once_from_spends (CURRENCY : string)
  (osaka_order cebu_order : list nat) :
  spends 165 (run_once_from CURRENCY osaka_order cebu_order).
Proof.
  unfold run_once_from.
  apply (spends_bind 90 75); [exact osaka_offers_spends|]. intros valid_osaka.
  apply (spends_bind 0 75); [apply spends_lift|]. intros top_osaka.
  apply (spends_bind 75 0); [apply cebu_combos_spends|]. intros combos.
  cbv zeta.
  apply (spends_bind 0 0); [apply spends_lift|]. intros al.
  apply spends_ret.
Qed.

(** X19. However a run ends, by its result, by an exception or for want of
    a reply, it has sent 1155 requests at most and slept 990 times at
    most, 60 seconds at most each time. *)
Theorem run_once_bounded (CURRENCY : string)
  (osaka_order cebu_order : list nat)
  (token_replies gets gets' : list response) (out : outcome result)
  (st' : state) :
  run_once CURRENCY osaka_order cebu_order token_replies gets
  = (out, gets', st') ->
  exists used,
    gets = used ++ gets'
    /\ (List.length used <= 1155)%nat
    /\ (List.length (slept st') <= 990)%nat
    /\ Forall (fun w => 0 <= w <= 60) (slept st')
    /\ 0 <= fold_right Z.add 0 (slept st') <= 59400.
Proof.
  unfold run_once. intros H.
  destruct (run_once_from_spends CURRENCY _ _ _ _ _ _ _ H)
    as (used & ws & Hg & Hu & Hs & Hw & Hall).
  cbn [new_client slept app] in Hs. rewrite Hs. exists used.
  repeat split; try assumption; try lia.
  - apply (sum_bounded ws 990 Hall). lia.
  - apply (sum_bounded ws 990 Hall). lia.
Qed.

Lemma run_once_bounded_example :
  exists st',
    run_once "EUR" [] [] [token_reply "tok"] rate_limiting_server
    = (Raised (HTTPError 429), repeat (reply 429 (Some "1")) 3, st')
    /\ slept st' = [1; 1; 1; 1; 1; 1]
    /\ exists used,
         rate_limiting_server = used ++ repeat (reply 429 (Some "1")) 3
         /\ (List.length used <= 1155)%nat
         /\ (List.length (slept st') <= 990)%nat
         /\ Forall (fun w => 0 <= w <= 60) (slept st')
         /\ 0 <= fold_right Z.add 0 (slept st') <= 59400.
Proof.
  destruct (run_once "EUR" [] [] [token_reply "tok"] rate_limiting_server)
    as [[out gets'] st'] eqn:E.
  pose proof E as E'. vm_compute in E'. injection E' as <- <- <-.
  eexists. split; [reflexivity|]. split; [reflexivity|].
  exact (run_once_bounded _ _ _ _ _ _ _ _ E).
Defined.
